(** * AToMiC BM25 baseline: the glue of [run_bm25_baseline.py]

    A shallow embedding of the original logic of
    [examples/bm25_en_caption/run_bm25_baseline.py]: the staging of the
    collections and the call of the indexer ([create_index]), the writing of
    the relevance files ([prep_qrels]), the rewriting of a shard into
    topics ([process_jsonl_line], [convert_jsonl_for_search]), the two
    searches ([search_anserini]) and the loops that run them all ([main]).

    What the script delegates is kept abstract or modelled from the
    documented behaviour of the library it calls:
    - the Lucene indexer and searcher are section variables acting on the
      file tree;
    - the download of a dataset and [encode], of the module [convert_jsonl],
      are section variables as well;
    - [pathlib] ([mkdir], [glob], [symlink_to]), [open], [json],
      [multiprocessing.Pool.map] and [Dataset.to_csv] are modelled by the
      definitions of the modules [Fs], [Glob], [Json], [Pool] and [Qrels].
    Console output ([print]) is not modelled. *)

From stdpp Require Import gmap strings list fin_maps.
From Stdlib Require Import ZArith NArith Ascii DecimalString.

(** ** Exceptions and the state-and-exception monad *)

(** A Python [str] is a sequence of Unicode code points. File names are kept
    as [string]; the text that goes through [json] is a [pystr]. *)
Abbreviation pystr := (list N).

Inductive exn :=
| Exception (msg : string)
| TypeError
| UnboundLocalError
| FileExistsError
| FileNotFoundError
| NotADirectoryError
| IsADirectoryError
| TooManyLinks
| JavaException
| DatasetError
| JSONDecodeError
| RecursionError
| FuelExhausted
| ValueError
| KeyError (key : string).

Inductive result (A : Type) :=
| Ok (a : A)
| Raise (e : exn).
Arguments Ok {A} a.
Arguments Raise {A} e.

Definition is_ok {A} (r : result A) : bool :=
  match r with Ok _ => true | Raise _ => false end.

Definition bind_result {A B} (r : result A) (k : A → result B) : result B :=
  match r with Ok a => k a | Raise e => Raise e end.

(** A computation over a store [S]: it always leaves a store behind, also when
    it raises, since the files written before an exception stay on disk. *)
Definition M (S A : Type) : Type := S → S * result A.

Definition ret {S A} (a : A) : M S A := λ s, (s, Ok a).
Definition raise {S A} (e : exn) : M S A := λ s, (s, Raise e).
Definition bind {S A B} (m : M S A) (k : A → M S B) : M S B :=
  λ s, match m s with
       | (s', Ok a) => k a s'
       | (s', Raise e) => (s', Raise e)
       end.
Definition lift {S A} (r : result A) : M S A := λ s, (s, r).
Definition get {S} : M S S := λ s, (s, Ok s).

Declare Scope m_scope.
Delimit Scope m_scope with M.
Notation "'let*' x := m 'in' k" := (bind m (λ x, k))
  (at level 10, x name, m at level 100, k at level 200) : m_scope.
Notation "m ;;; k" := (bind m (λ _, k))
  (at level 200, right associativity) : m_scope.

(** [for x in xs: body x] *)
Fixpoint for_each {S A} (xs : list A) (body : A → M S unit) : M S unit :=
  match xs with
  | [] => ret tt
  | x :: xs' => bind (body x) (λ _, for_each xs' body)
  end.

(** ** Text *)

Module Text.

(** The code points of an ASCII literal. An apostrophe in the literal stands
    for a double quote, so that JSON text can be written down. *)
Definition code_of (c : ascii) : N :=
  if Ascii.eqb c "'" then 34%N else N_of_ascii c.

Fixpoint py (s : string) : pystr :=
  match s with
  | EmptyString => []
  | String c s' => code_of c :: py s'
  end.

(** [str(n)] for an [int] *)
Definition str_of_int (n : Z) : pystr :=
  N_of_ascii <$> String.list_ascii_of_string (DecimalString.NilZero.string_of_int (Z.to_int n)).

Definition LF : N := 10.
Definition CR : N := 13.

(** The lines a text file yields when it is iterated, opened with the default
    [newline=None]: [\r\n] and [\r] are read as [\n], and every line keeps its
    [\n] but possibly the last one. [acc] is the line being read, reversed. *)
Fixpoint readlines_go (acc : pystr) (s : pystr) : list pystr :=
  match s with
  | [] => match acc with [] => [] | _ => [rev acc] end
  | c :: r =>
      if (c =? LF)%N then rev (LF :: acc) :: readlines_go [] r
      else if (c =? CR)%N then
        match r with
        | c' :: r' =>
            if (c' =? LF)%N then rev (LF :: acc) :: readlines_go [] r'
            else rev (LF :: acc) :: readlines_go [] r
        | [] => [rev (LF :: acc)]
        end
      else readlines_go (c :: acc) r
  end.

Definition readlines (content : pystr) : list pystr := readlines_go [] content.

(** A character that [json.dumps] leaves as it is: space to tilde. *)
Definition printable (c : N) : bool := (32 <=? c)%N && (c <=? 126)%N.

End Text.

(** ** The file tree under [output_path] *)

Module Fs.

(** The script only ever touches [output_path / d] and [output_path / d / n]:
    the tree is two levels deep. [output_path] itself is taken to exist, and
    a name is one path component: it holds no separator. A symbolic link
    records the path it points to, as directory and name. *)
Inductive leaf :=
| Regular (content : pystr)
| Link (target : string * string).

Inductive entry :=
| EFile
| EDir (listing : gmap string leaf).

Abbreviation FS := (gmap string entry).

(** [Path.mkdir(exist_ok=True)] *)
Definition mkdir_exist_ok (d : string) : M FS unit :=
  λ fs, match fs !! d with
        | None => (<[d := EDir ∅]> fs, Ok tt)
        | Some (EDir _) => (fs, Ok tt)
        | Some EFile => (fs, Raise FileExistsError)
        end.

(** [(output_path / d / n).symlink_to(target)] *)
Definition symlink_to (d n : string) (target : string * string) : M FS unit :=
  λ fs, match fs !! d with
        | None => (fs, Raise FileNotFoundError)
        | Some EFile => (fs, Raise NotADirectoryError)
        | Some (EDir l) =>
            match l !! n with
            | Some _ => (fs, Raise FileExistsError)
            | None => (<[d := EDir (<[n := Link target]> l)]> fs, Ok tt)
            end
        end.

(** The names in a directory, in the order the system lists them; nothing when
    [d] is not a directory. *)
Definition listdir (fs : FS) (d : string) : list string :=
  match fs !! d with
  | Some (EDir l) => (map_to_list l).*1
  | _ => []
  end.

(** A path below [output_path]: directory and name. *)
Definition path : Type := string * string.

(** Following symbolic links to the file a path names; the system gives up
    after [MAXSYMLINKS] of them. The last path need not exist. *)
Definition MAXSYMLINKS : nat := 40.

Fixpoint resolve (fuel : nat) (fs : FS) (p : path) : result path :=
  match fs !! p.1 with
  | None => Raise FileNotFoundError
  | Some EFile => Raise NotADirectoryError
  | Some (EDir l) =>
      match l !! p.2 with
      | Some (Link target) =>
          match fuel with
          | O => Raise TooManyLinks
          | S fuel' => resolve fuel' fs target
          end
      | _ => Ok p
      end
  end.

(** What a regular file holds; nothing for what is not one. *)
Definition content (fs : FS) (p : path) : pystr :=
  match fs !! p.1 with
  | Some (EDir l) =>
      match l !! p.2 with
      | Some (Regular c) => c
      | _ => []
      end
  | _ => []
  end.

Definition is_regular (fs : FS) (p : path) : bool :=
  match fs !! p.1 with
  | Some (EDir l) =>
      match l !! p.2 with
      | Some (Regular _) => true
      | _ => false
      end
  | _ => false
  end.

Definition set_content (p : path) (c : pystr) (fs : FS) : FS :=
  match fs !! p.1 with
  | Some (EDir l) => <[p.1 := EDir (<[p.2 := Regular c]> l)]> fs
  | _ => fs
  end.

(** [open(p, "r")]: the file read from. *)
Definition open_r (p : path) : M FS path :=
  λ fs, match resolve MAXSYMLINKS fs p with
        | Raise e => (fs, Raise e)
        | Ok q => if is_regular fs q then (fs, Ok q)
                  else (fs, Raise FileNotFoundError)
        end.

(** [open(p, "w")]: the file is created, or emptied when it is there. *)
Definition open_w (p : path) : M FS path :=
  λ fs, match resolve MAXSYMLINKS fs p with
        | Raise e => (fs, Raise e)
        | Ok q => (set_content q [] fs, Ok q)
        end.

(** [list(f)], the lines of an open file *)
Definition read_lines (f : path) : M FS (list pystr) :=
  λ fs, (fs, Ok (Text.readlines (content fs f))).

(** [f.write(text)] *)
Definition write (f : path) (text : pystr) : M FS unit :=
  λ fs, (set_content f (content fs f ++ text) fs, Ok tt).

End Fs.

(** ** Shell-style patterns, as [Path.glob] matches one path component *)

Module Glob.

Inductive tok :=
| TLit (c : ascii)
| TAny
| TStar.

(** [*] and [?] are the wildcards; bracket classes and the recursive [**] are
    outside this model, see [literal_name]. *)
Fixpoint compile (p : string) : list tok :=
  match p with
  | EmptyString => []
  | String c p' =>
      (if Ascii.eqb c "*" then TStar
       else if Ascii.eqb c "?" then TAny
       else TLit c) :: compile p'
  end.

Fixpoint matches (p : list tok) : string → bool :=
  match p with
  | [] => λ s, match s with EmptyString => true | _ => false end
  | TLit c :: p' =>
      λ s, match s with
           | String d s' => Ascii.eqb c d && matches p' s'
           | EmptyString => false
           end
  | TAny :: p' =>
      λ s, match s with
           | String _ s' => matches p' s'
           | EmptyString => false
           end
  | TStar :: p' =>
      fix star (s : string) : bool :=
        matches p' s
        || match s with
           | String _ s' => star s'
           | EmptyString => false
           end
  end.

Definition fnmatch (pattern name : string) : bool :=
  matches (compile pattern) name.

(** A name whose characters all stand for themselves in a pattern and in a
    path. *)
Fixpoint literal_name (s : string) : bool :=
  match s with
  | EmptyString => true
  | String c s' =>
      negb (Ascii.eqb c "*") && negb (Ascii.eqb c "?")
      && negb (Ascii.eqb c "[") && negb (Ascii.eqb c "/")
      && negb (Ascii.eqb c "000") && literal_name s'
  end.

Fixpoint ends_with (suffix s : string) : bool :=
  String.eqb s suffix
  || match s with
     | String _ s' => ends_with suffix s'
     | EmptyString => false
     end.

(** [list((output_path / d).glob(pattern))], as names *)
Definition glob (fs : Fs.FS) (d pattern : string) : list string :=
  filter (λ name, fnmatch pattern name = true) (Fs.listdir fs d).

End Glob.

(** ** [create_index] *)

Module Index.
Import Fs.

Definition SPLITS : list string := ["train"; "validation"; "test"; "other"].
Definition SETTINGS : list string := ["small"; "base"; "large"].

Definition dquote : ascii := ascii_of_nat 34.

Definition usage_message : string :=
  "Please provide the split when setting="
  +:+ String dquote ("small" +:+ String dquote "").

(** [not split]: [None] and the empty string are falsy. *)
Definition falsy (split : option string) : bool :=
  match split with
  | None => true
  | Some s => String.eqb s ""
  end.

(** [if setting == "small" and not split: raise Exception(...)] *)
Definition check_usage (setting : string) (split : option string) : result unit :=
  if String.eqb setting "small" && falsy split
  then Raise (Exception usage_message)
  else Ok tt.

(** ["." + split if setting == "small" else ""] *)
Definition postfix (setting : string) (split : option string) : result string :=
  if String.eqb setting "small"
  then match split with
       | Some s => Ok ("." +:+ s)
       | None => Raise TypeError
       end
  else Ok "".

(** [f"{split}"] *)
Definition format_split (split : option string) : string :=
  match split with Some s => s | None => "None" end.

Definition text_dir (setting pf : string) : string :=
  "text-collection." +:+ setting +:+ pf.
Definition image_dir (setting pf : string) : string :=
  "image-collection." +:+ setting +:+ pf.

(** The names bound to [text_jsonl_paths] and [image_jsonl_paths] by the
    [if]/[elif] chain; [None] when no branch binds them. *)
Definition select (collection setting : string) (split : option string)
    (fs : FS) : option (list string) :=
  if String.eqb setting "small" then
    Some (Glob.glob fs collection (format_split split +:+ "*.jsonl"))
  else if String.eqb setting "base" then
    Some (concat ((λ s, Glob.glob fs collection (s +:+ "*.jsonl"))
                    <$> ["train"; "validation"; "test"]))
  else if String.eqb setting "large" then
    Some (Glob.glob fs collection "*.jsonl")
  else None.

Section Indexer.

(** [str(output_path / rel)] and [str((output_path / rel).resolve())] *)
Variable path_str : string → string.
Variable resolved_str : string → string.

(** Whether [output_path] is absolute. *)
Variable absolute : bool.

(** [IndexCollection.main(args)]: the external engine; it leaves a file tree
    behind and either returns or throws. *)
Variable IndexCollection_main : list string → FS → FS * bool.

Definition anserini_index (indexing_args : list string) : M FS unit :=
  λ fs, match IndexCollection_main indexing_args fs with
        | (fs', true) => (fs', Ok tt)
        | (fs', false) => (fs', Raise JavaException)
        end.

Definition indexing_args (modality staging : string) (setting pf : string)
    : list string :=
  [ "-input"; resolved_str staging;
    "-collection"; "JsonCollection";
    "-index"; path_str ("indexes/lucene-index.atomic." +:+ modality
                        +:+ ".flat." +:+ setting +:+ pf);
    "-generator"; "DefaultLuceneDocumentGenerator";
    "-threads"; "8"; "-storePositions"; "-storeDocvectors"; "-storeRaw" ].

Definition text_indexing_args (setting pf : string) : list string :=
  indexing_args "text" (text_dir setting pf) setting pf.
Definition image_indexing_args (setting pf : string) : list string :=
  indexing_args "image" (image_dir setting pf) setting pf.

(** Where the link made by [(staging / p.name).symlink_to(p)] leads, [p]
    being [output_path / coll / n]. The link holds the text of [p]: when it
    is absolute it names the shard; when it is relative the system reads it
    from the directory of the link, and it names
    [staging / output_path / coll / n]. *)
Definition link_target (staging coll n : string) : path :=
  if absolute then (coll, n) else (staging +:+ "/" +:+ path_str coll, n).

Definition bound_or_unbound {A} (o : option A) : M FS A :=
  match o with
  | Some a => ret a
  | None => raise UnboundLocalError
  end.

Definition create_index (setting : string) (split : option string) : M FS unit :=
  (lift (check_usage setting split) ;;;
   let* pf := lift (postfix setting split) in
   mkdir_exist_ok (text_dir setting pf) ;;;
   mkdir_exist_ok (image_dir setting pf) ;;;
   let* fs := get in
   let text_jsonl_paths := select "text-collection" setting split fs in
   let image_jsonl_paths := select "image-collection" setting split fs in
   let* ps := bound_or_unbound text_jsonl_paths in
   for_each ps (λ n, symlink_to (text_dir setting pf) n
                       (link_target (text_dir setting pf) "text-collection" n)) ;;;
   let* ps := bound_or_unbound image_jsonl_paths in
   for_each ps (λ n, symlink_to (image_dir setting pf) n
                       (link_target (image_dir setting pf) "image-collection" n)) ;;;
   mkdir_exist_ok "indexes" ;;;
   anserini_index (text_indexing_args setting pf) ;;;
   anserini_index (image_indexing_args setting pf))%M.

End Indexer.

End Index.

(** ** [json.loads] and [json.dumps] *)

Module Json.
Import Text.

(** A number with a fraction or an exponent, and the constants [NaN],
    [Infinity] and [-Infinity], are Python floats: the value keeps the text
    the float was read from, and the encoder is given the way to print it.
    Integers are of any size, but the interpreter reads one from a text of
    [MAX_STR_DIGITS] digits at most; and it lets the decoder enter so many
    nested arrays and objects, the number being what is left of its recursion
    limit where [json.loads] is called: the argument [depth] of the decoder. *)
#[local] Set Warnings "-register-all".
Inductive value :=
| JNull
| JBool (b : bool)
| JInt (n : Z)
| JFloat (literal : pystr)
| JStr (s : pystr)
| JArr (items : list value)
| JObj (items : list (pystr * value)).

(** *** Dictionaries: keys in insertion order, each once *)

Definition key_eqb (a b : pystr) : bool := bool_decide (a = b).

Fixpoint dict_get (d : list (pystr * value)) (k : pystr) : option value :=
  match d with
  | [] => None
  | (k', v) :: d' => if key_eqb k' k then Some v else dict_get d' k
  end.

(** [d[k] = v]: a key that is there keeps its place. *)
Fixpoint dict_set (d : list (pystr * value)) (k : pystr) (v : value)
    : list (pystr * value) :=
  match d with
  | [] => [(k, v)]
  | (k', v') :: d' =>
      if key_eqb k' k then (k', v) :: d' else (k', v') :: dict_set d' k v
  end.

(** [dict(pairs)] *)
Definition dict_of_pairs (pairs : list (pystr * value)) : list (pystr * value) :=
  fold_left (λ d kv, dict_set d kv.1 kv.2) pairs [].

(** *** The decoder *)

Definition is_ws (c : N) : bool :=
  (c =? 32)%N || (c =? 9)%N || (c =? 10)%N || (c =? 13)%N.

Fixpoint skip_ws (s : pystr) : pystr :=
  match s with
  | c :: r => if is_ws c then skip_ws r else s
  | [] => []
  end.

Fixpoint strip_prefix (p s : pystr) : option pystr :=
  match p with
  | [] => Some s
  | c :: p' =>
      match s with
      | d :: s' => if (c =? d)%N then strip_prefix p' s' else None
      | [] => None
      end
  end.

Definition is_digit (c : N) : bool := (48 <=? c)%N && (c <=? 57)%N.

Definition hex_digit (c : N) : option N :=
  if is_digit c then Some (c - 48)%N
  else if (97 <=? c)%N && (c <=? 102)%N then Some (c - 87)%N
  else if (65 <=? c)%N && (c <=? 70)%N then Some (c - 55)%N
  else None.

Definition hex4 (a b c d : N) : option N :=
  match hex_digit a, hex_digit b, hex_digit c, hex_digit d with
  | Some x, Some y, Some z, Some w => Some (((x * 16 + y) * 16 + z) * 16 + w)%N
  | _, _, _, _ => None
  end.

(** The escapes of one letter: quote, backslash, slash, b, f, n, r and t. *)
Definition backslash (c : N) : option N :=
  if (c =? 34)%N then Some 34%N
  else if (c =? 92)%N then Some 92%N
  else if (c =? 47)%N then Some 47%N
  else if (c =? 98)%N then Some 8%N
  else if (c =? 102)%N then Some 12%N
  else if (c =? 110)%N then Some 10%N
  else if (c =? 114)%N then Some 13%N
  else if (c =? 116)%N then Some 9%N
  else None.

Definition is_high_surrogate (u : N) : bool := (55296 <=? u)%N && (u <=? 56319)%N.
Definition is_low_surrogate (u : N) : bool := (56320 <=? u)%N && (u <=? 57343)%N.
Definition join_surrogates (hi lo : N) : N :=
  (65536 + N.lor (N.shiftl (hi - 55296) 10) (lo - 56320))%N.

Definition push (c : N) (r : result (pystr * pystr)) : result (pystr * pystr) :=
  match r with
  | Ok (str, rest) => Ok (c :: str, rest)
  | Raise e => Raise e
  end.

(** [scanstring], strict: from the character after the opening quote to the
    closing quote; the decoded string and what follows it. *)
Fixpoint scanstring (s : pystr) : result (pystr * pystr) :=
  match s with
  | [] => Raise JSONDecodeError
  | c :: r =>
      if (c =? 34)%N then Ok ([], r)
      else if (c =? 92)%N then
        match r with
        | [] => Raise JSONDecodeError
        | esc :: r1 =>
            if (esc =? 117)%N then
              match r1 with
              | h1 :: h2 :: h3 :: h4 :: r2 =>
                  match hex4 h1 h2 h3 h4 with
                  | None => Raise JSONDecodeError
                  | Some uni =>
                      if is_high_surrogate uni then
                        match r2 with
                        | b :: u :: g1 :: g2 :: g3 :: g4 :: r3 =>
                            if (b =? 92)%N && (u =? 117)%N then
                              match hex4 g1 g2 g3 g4 with
                              | None => Raise JSONDecodeError
                              | Some uni2 =>
                                  if is_low_surrogate uni2
                                  then push (join_surrogates uni uni2) (scanstring r3)
                                  else push uni (scanstring r2)
                              end
                            else push uni (scanstring r2)
                        | _ => push uni (scanstring r2)
                        end
                      else push uni (scanstring r2)
                  end
              | _ => Raise JSONDecodeError
              end
            else
              match backslash esc with
              | Some d => push d (scanstring r1)
              | None => Raise JSONDecodeError
              end
        end
      else if (c <? 32)%N then Raise JSONDecodeError
      else push c (scanstring r)
  end.

(** The longest run of digits at the head. *)
Fixpoint span_digits (s : pystr) : pystr * pystr :=
  match s with
  | c :: r =>
      if is_digit c then let '(ds, rest) := span_digits r in (c :: ds, rest)
      else ([], s)
  | [] => ([], [])
  end.

Definition nat_of_digits (ds : pystr) : Z :=
  fold_left (λ acc c, acc * 10 + Z.of_N (c - 48)%N)%Z ds 0%Z.

(** The integer part, an optional minus and then either a single zero or a
    digit from one to nine with any digits after it: its text and what
    follows. *)
Definition scan_integer (s : pystr) : option (pystr * pystr) :=
  let '(sign, s1) :=
    match s with
    | c :: r => if (c =? 45)%N then ([45%N], r) else ([], s)
    | [] => ([], s)
    end in
  match s1 with
  | c :: r =>
      if (c =? 48)%N then Some (sign ++ [c], r)
      else if is_digit c then
        let '(ds, rest) := span_digits r in Some (sign ++ c :: ds, rest)
      else None
  | [] => None
  end.

(** The fraction: a dot and at least one digit, or nothing. *)
Definition scan_frac (s : pystr) : pystr * pystr :=
  match s with
  | c :: r =>
      if (c =? 46)%N then
        match span_digits r with
        | ([], _) => ([], s)
        | (ds, rest) => (c :: ds, rest)
        end
      else ([], s)
  | [] => ([], s)
  end.

(** The exponent: [e] or [E], an optional sign and at least one digit, or
    nothing. *)
Definition scan_exp (s : pystr) : pystr * pystr :=
  match s with
  | c :: r =>
      if (c =? 101)%N || (c =? 69)%N then
        let '(sign, r1) :=
          match r with
          | d :: r' => if (d =? 45)%N || (d =? 43)%N then ([d], r') else ([], r)
          | [] => ([], r)
          end in
        match span_digits r1 with
        | ([], _) => ([], s)
        | (ds, rest) => (c :: sign ++ ds, rest)
        end
      else ([], s)
  | [] => ([], s)
  end.

Definition int_of_literal (lit : pystr) : Z :=
  match lit with
  | c :: ds => if (c =? 45)%N then (- nat_of_digits ds)%Z else nat_of_digits lit
  | [] => 0%Z
  end.

(** The default of [sys.get_int_max_str_digits()]: [int(text)] raises
    [ValueError] for a text of more digits, the sign not counted. *)
Definition MAX_STR_DIGITS : nat := 4300.

Definition int_digits (lit : pystr) : pystr :=
  match lit with
  | c :: ds => if (c =? 45)%N then ds else lit
  | [] => []
  end.

(** A number: [None] when no number starts here. A text without fraction
    and without exponent goes through [int], the others through [float]. *)
Definition scan_number (s : pystr) : option (result (value * pystr)) :=
  match scan_integer s with
  | None => None
  | Some (integer, r) =>
      let '(frac, r1) := scan_frac r in
      let '(exp, r2) := scan_exp r1 in
      match frac, exp with
      | [], [] =>
          if MAX_STR_DIGITS <? length (int_digits integer)
          then Some (Raise ValueError)
          else Some (Ok (JInt (int_of_literal integer), r2))
      | _, _ => Some (Ok (JFloat (integer ++ frac ++ exp), r2))
      end
  end.

Definition scan_constant (s : pystr) : option (value * pystr) :=
  match strip_prefix (py "null") s with
  | Some r => Some (JNull, r)
  | None =>
  match strip_prefix (py "true") s with
  | Some r => Some (JBool true, r)
  | None =>
  match strip_prefix (py "false") s with
  | Some r => Some (JBool false, r)
  | None => None
  end end end.

Definition scan_float_constant (s : pystr) : option (value * pystr) :=
  match strip_prefix (py "NaN") s with
  | Some r => Some (JFloat (py "NaN"), r)
  | None =>
  match strip_prefix (py "Infinity") s with
  | Some r => Some (JFloat (py "Infinity"), r)
  | None =>
  match strip_prefix (py "-Infinity") s with
  | Some r => Some (JFloat (py "-Infinity"), r)
  | None => None
  end end end.

(** [scan_once], with [JSONArray] and [JSONObject]. The three functions call
    one another. [depth] is the number of nested arrays and objects that may
    still be entered: entering one more raises [RecursionError]. [fuel] bounds
    the calls of the model; [loads] gives enough of it ([loads_fuel]), so that
    [FuelExhausted], which is no exception of Python, is never its answer.
    [array_items] and [object_members] start where a value, respectively a
    key, is expected. *)
Fixpoint scan_once (fuel depth : nat) (s : pystr) : result (value * pystr) :=
  match fuel with
  | O => Raise FuelExhausted
  | S fuel' =>
      match s with
      | [] => Raise JSONDecodeError
      | c :: r =>
          if (c =? 34)%N then
            match scanstring r with
            | Ok (str, rest) => Ok (JStr str, rest)
            | Raise e => Raise e
            end
          else if (c =? 123)%N then
            match depth with
            | O => Raise RecursionError
            | S depth' =>
                match skip_ws r with
                | c' :: r' =>
                    if (c' =? 125)%N then Ok (JObj [], r')
                    else if (c' =? 34)%N then object_members fuel' depth' [] r'
                    else Raise JSONDecodeError
                | [] => Raise JSONDecodeError
                end
            end
          else if (c =? 91)%N then
            match depth with
            | O => Raise RecursionError
            | S depth' =>
                match skip_ws r with
                | c' :: r' =>
                    if (c' =? 93)%N then Ok (JArr [], r')
                    else array_items fuel' depth' [] (c' :: r')
                | [] => Raise JSONDecodeError
                end
            end
          else
            match scan_constant s with
            | Some vr => Ok vr
            | None =>
            match scan_number s with
            | Some x => x
            | None =>
            match scan_float_constant s with
            | Some vr => Ok vr
            | None => Raise JSONDecodeError
            end end end
      end
  end
with array_items (fuel depth : nat) (acc : list value) (s : pystr)
    : result (value * pystr) :=
  match fuel with
  | O => Raise FuelExhausted
  | S fuel' =>
      match scan_once fuel' depth s with
      | Raise e => Raise e
      | Ok (v, r) =>
          match skip_ws r with
          | c :: r' =>
              if (c =? 93)%N then Ok (JArr (rev (v :: acc)), r')
              else if (c =? 44)%N
              then array_items fuel' depth (v :: acc) (skip_ws r')
              else Raise JSONDecodeError
          | [] => Raise JSONDecodeError
          end
      end
  end
with object_members (fuel depth : nat) (acc : list (pystr * value)) (s : pystr)
    : result (value * pystr) :=
  match fuel with
  | O => Raise FuelExhausted
  | S fuel' =>
      match scanstring s with
      | Raise e => Raise e
      | Ok (key, r) =>
          match skip_ws r with
          | c :: r1 =>
              if (c =? 58)%N then
                match scan_once fuel' depth (skip_ws r1) with
                | Raise e => Raise e
                | Ok (v, r2) =>
                    match skip_ws r2 with
                    | c' :: r3 =>
                        if (c' =? 125)%N then
                          Ok (JObj (dict_of_pairs (rev ((key, v) :: acc))), r3)
                        else if (c' =? 44)%N then
                          match skip_ws r3 with
                          | q :: r4 =>
                              if (q =? 34)%N
                              then object_members fuel' depth ((key, v) :: acc) r4
                              else Raise JSONDecodeError
                          | [] => Raise JSONDecodeError
                          end
                        else Raise JSONDecodeError
                    | [] => Raise JSONDecodeError
                    end
                end
              else Raise JSONDecodeError
          | [] => Raise JSONDecodeError
          end
      end
  end.

Definition loads_fuel (s : pystr) : nat := 2 * length s + 2.

(** [json.loads(s)]: one value, white space around it, nothing else. *)
Definition loads (depth : nat) (s : pystr) : result value :=
  match scan_once (loads_fuel s) depth (skip_ws s) with
  | Raise e => Raise e
  | Ok (v, r) =>
      match skip_ws r with
      | [] => Ok v
      | _ :: _ => Raise JSONDecodeError
      end
  end.

(** *** The encoder, with the default [ensure_ascii=True] and separators *)

Definition hex_char (d : N) : N :=
  if (d <? 10)%N then (48 + d)%N else (87 + d)%N.

(** [\uXXXX], four lower-case hexadecimal digits *)
Definition escape_u (n : N) : pystr :=
  [ 92%N; 117%N;
    hex_char (N.land (N.shiftr n 12) 15);
    hex_char (N.land (N.shiftr n 8) 15);
    hex_char (N.land (N.shiftr n 4) 15);
    hex_char (N.land n 15) ].

Definition escape_char (c : N) : pystr :=
  if (c =? 34)%N then [92; 34]%N
  else if (c =? 92)%N then [92; 92]%N
  else if (c =? 10)%N then [92; 110]%N
  else if (c =? 13)%N then [92; 114]%N
  else if (c =? 9)%N then [92; 116]%N
  else if (c =? 8)%N then [92; 98]%N
  else if (c =? 12)%N then [92; 102]%N
  else if printable c then [c]
  else if (c <? 65536)%N then escape_u c
  else
    let n := (c - 65536)%N in
    escape_u (N.lor 55296 (N.land (N.shiftr n 10) 1023))
    ++ escape_u (N.lor 56320 (N.land n 1023)).

Definition encode_basestring_ascii (s : pystr) : pystr :=
  34%N :: concat (escape_char <$> s) ++ [34%N].

(** [", ".join(parts)] *)
Fixpoint join (sep : pystr) (parts : list pystr) : pystr :=
  match parts with
  | [] => []
  | [p] => p
  | p :: ps => p ++ sep ++ join sep ps
  end.

Section Encoder.

(** The text [json.dumps] prints for the float read from a literal: the
    shortest [repr] of the nearest double, or [NaN], [Infinity], [-Infinity]. *)
Variable float_repr : pystr → pystr.

Fixpoint dumps (v : value) : pystr :=
  match v with
  | JNull => py "null"
  | JBool true => py "true"
  | JBool false => py "false"
  | JInt n => str_of_int n
  | JFloat lit => float_repr lit
  | JStr s => encode_basestring_ascii s
  | JArr items => 91%N :: join (py ", ") (List.map dumps items) ++ [93%N]
  | JObj items =>
      123%N
      :: join (py ", ")
           (List.map (λ kv, encode_basestring_ascii kv.1 ++ py ": " ++ dumps kv.2)
              items)
      ++ [125%N]
  end.

End Encoder.

End Json.

(** ** [process_jsonl_line] *)

Module Topic.
Import Text Json.

(** [obj[key]] for a key written in the source *)
Definition getitem (obj : value) (key : string) : result value :=
  match obj with
  | JObj d =>
      match dict_get d (py key) with
      | Some v => Ok v
      | None => Raise (KeyError key)
      end
  | _ => Raise TypeError
  end.

Section Line.
Variable float_repr : pystr → pystr.

(** What is left of the recursion limit where the decoder is called. *)
Variable max_depth : nat.

Definition process_jsonl_line (line : pystr) : result pystr :=
  bind_result (loads max_depth line) (λ obj,
  bind_result (getitem obj "id") (λ id,
  bind_result (getitem obj "contents") (λ contents,
  Ok (dumps float_repr
        (JObj (dict_of_pairs [(py "id", id); (py "title", contents)])))))).

End Line.

End Topic.

(** ** [multiprocessing.Pool.map] *)

Module Pool.

Section Map.
Context {A B : Type}.

(** [chunksize, extra = divmod(len(iterable), len(self._pool) * 4)], one more
    when there is a remainder, and zero for an empty iterable. *)
Definition chunksize (len processes : nat) : nat :=
  let q := len / (processes * 4) in
  let extra := len mod (processes * 4) in
  let cs := if extra =? 0 then q else q + 1 in
  if len =? 0 then 0 else cs.

(** [Pool._get_tasks]: the iterable cut into batches of [size] items, the
    last one possibly shorter; it stops at the first empty batch. *)
Fixpoint get_tasks_go (fuel size : nat) (xs : list A) : list (list A) :=
  match fuel with
  | O => []
  | S fuel' =>
      match take size xs with
      | [] => []
      | batch => batch :: get_tasks_go fuel' size (drop size xs)
      end
  end.

Definition get_tasks (size : nat) (xs : list A) : list (list A) :=
  get_tasks_go (length xs) size xs.

(** [mapstar]: a worker applies the function to a batch, item by item. *)
Fixpoint mapstar (func : A → result B) (batch : list A) : result (list B) :=
  match batch with
  | [] => Ok []
  | x :: rest =>
      match func x with
      | Raise e => Raise e
      | Ok y =>
          match mapstar func rest with
          | Ok ys => Ok (y :: ys)
          | Raise e => Raise e
          end
      end
  end.

(** [MapResult]: [inl] is [_success] with the list [_value], which starts as
    [[None] * length]; [inr] is the first exception that came in. *)
Definition map_result : Type := list (option B) + exn.

(** [MapResult._set(i, (success, result))]: a batch that went well is stored
    by [self._value[i*chunksize:(i+1)*chunksize] = result]. *)
Definition set_result (cs i : nat) (r : result (list B)) (st : map_result)
    : map_result :=
  match st, r with
  | inl value, Ok ys =>
      inl (take (i * cs) value ++ (Some <$> ys) ++ drop ((i + 1) * cs) value)
  | inl _, Raise e => inr e
  | inr e, _ => inr e
  end.

(** [pool.map(func, iterable)] for a pool of [processes] workers. The batches
    are computed by the workers in any order: [schedule] lists the batch
    numbers in the order their results come back. [get()] returns [_value], or
    raises it, once every batch is back. *)
Definition pool_map (processes : nat) (schedule : list nat)
    (func : A → result B) (iterable : list A) : result (list (option B)) :=
  if processes =? 0 then Raise ValueError
  else
    let cs := chunksize (length iterable) processes in
    let task_batches := get_tasks cs iterable in
    let final :=
      fold_left (λ st i, set_result cs i (mapstar func (nth i task_batches [])) st)
        schedule (inl (replicate (length iterable) None)) in
    match final with
    | inl value => Ok value
    | inr e => Raise e
    end.

(** A schedule brings every batch back once. *)
Definition complete_schedule (processes : nat) (iterable : list A)
    (schedule : list nat) : Prop :=
  schedule ≡ₚ seq 0 (length (get_tasks (chunksize (length iterable) processes)
                               iterable)).

End Map.

End Pool.

(** ** [convert_jsonl_for_search] *)

Module Search.
Import Fs Text.

Section Convert.
Variable float_repr : pystr → pystr.
Variable max_depth : nat.

(** [f_out.write(row + "\n")] *)
Definition write_row (f_out : path) (row : option pystr) : M FS unit :=
  match row with
  | Some r => write f_out (r ++ [LF])
  | None => raise TypeError
  end.

(** The function with the size of the pool as a parameter. *)
Definition convert_with_pool (processes : nat) (schedule : list nat)
    (jsonl_file output_path : path) : M FS unit :=
  (let* f_in := open_r jsonl_file in
   let* f_out := open_w output_path in
   let* lines := read_lines f_in in
   let* results :=
     lift (Pool.pool_map processes schedule
             (Topic.process_jsonl_line float_repr max_depth) lines) in
   for_each results (write_row f_out))%M.

Definition convert_jsonl_for_search : list nat → path → path → M FS unit :=
  convert_with_pool 16.

End Convert.

End Search.

(** ** [prep_qrels] *)

Module Qrels.
Import Fs Text.

Inductive cell :=
| CStr (s : pystr)
| CInt (n : Z).

(** A dataset: its columns in their own order, and rows of as many cells. *)
Record dataset := {
  column_names : list string;
  rows : list (list cell)
}.

Definition SEP : N := 32.
Definition QUOTE : N := 34.

(** Minimal quoting: a field is quoted when it holds the separator, the quote
    character or a character of the line terminator, which is the line feed
    here, and its quotes are doubled. A carriage return is written as it
    is. *)
Definition special (c : N) : bool :=
  (c =? SEP)%N || (c =? QUOTE)%N || (c =? LF)%N.

Definition quoted (s : pystr) : pystr :=
  QUOTE :: concat ((λ c, if (c =? QUOTE)%N then [QUOTE; QUOTE] else [c]) <$> s)
  ++ [QUOTE].

Definition csv_field (c : cell) : pystr :=
  match c with
  | CInt n => str_of_int n
  | CStr s => if existsb special s then quoted s else s
  end.

(** One row: the fields, the separator between them, and the line end. A row
    that is one empty field is written as two quotes. *)
Definition csv_line (fields : list cell) : pystr :=
  match fields with
  | [CStr []] => [QUOTE; QUOTE; LF]
  | _ => Json.join [SEP] (csv_field <$> fields) ++ [LF]
  end.

Fixpoint column_index (names : list string) (name : string) : option nat :=
  match names with
  | [] => None
  | n :: names' =>
      if String.eqb n name then Some 0
      else S <$> column_index names' name
  end.

(** The cells of [row] under the columns [wanted], in that order. *)
Fixpoint select_columns (names : list string) (wanted : list string)
    (row : list cell) : result (list cell) :=
  match wanted with
  | [] => Ok []
  | w :: wanted' =>
      match column_index names w with
      | None => Raise (KeyError w)
      | Some i =>
          match row !! i with
          | None => Raise (KeyError w)
          | Some c =>
              match select_columns names wanted' row with
              | Ok cs => Ok (c :: cs)
              | Raise e => Raise e
              end
          end
      end
  end.

Fixpoint project (names wanted : list string) (rs : list (list cell))
    : result (list (list cell)) :=
  match rs with
  | [] => Ok []
  | r :: rs' =>
      match select_columns names wanted r with
      | Raise e => Raise e
      | Ok cs =>
          match project names wanted rs' with
          | Ok css => Ok (cs :: css)
          | Raise e => Raise e
          end
      end
  end.

(** The text of [ds.to_csv(path, columns=columns, header=None, sep=" ",
    index=False)] *)
Definition csv_text (ds : dataset) (columns : option (list string))
    : result pystr :=
  match columns with
  | None => Ok (concat (csv_line <$> rows ds))
  | Some wanted =>
      match project (column_names ds) wanted (rows ds) with
      | Ok rs => Ok (concat (csv_line <$> rs))
      | Raise e => Raise e
      end
  end.

Definition to_csv (ds : dataset) (p : path) (columns : option (list string))
    : M FS unit :=
  (let* f := open_w p in
   let* text := lift (csv_text ds columns) in
   write f text)%M.

(** [qrels_dir / f"{split}.qrels.t2i.projected.trec"] and its [i2t] twin *)
Definition t2i_path (split : string) : path :=
  ("qrels", split +:+ ".qrels.t2i.projected.trec").
Definition i2t_path (split : string) : path :=
  ("qrels", split +:+ ".qrels.i2t.projected.trec").

Section Prep.

(** [load_dataset(qrels_ds, split=split)]: the download. *)
Variable load_dataset : string → string → result dataset.

Definition prep_qrels (qrels_ds split : string) : M FS unit :=
  (mkdir_exist_ok "qrels" ;;;
   let* qrel_ds := lift (load_dataset qrels_ds split) in
   to_csv qrel_ds (t2i_path split) None ;;;
   to_csv qrel_ds (i2t_path split)
     (Some ["image_id"; "Q0"; "text_id"; "rel"]))%M.

End Prep.

End Qrels.

(** ** [search_anserini] and [main] *)

Module Driver.
Import Fs Index.

Definition ENCODING_FIELDS : list string := ["text"; "image_caption"].

Section Driver.

Variable path_str : string → string.
Variable resolved_str : string → string.
Variable absolute : bool.
Variable IndexCollection_main : list string → FS → FS * bool.

(** [SearchCollection.main(args)]: the external engine again. *)
Variable SearchCollection_main : list string → FS → FS * bool.

Variable float_repr : pystr → pystr.
Variable max_depth : nat.
Variable load_dataset : string → string → result Qrels.dataset.

(** [encode(split, encoding_field, qrels, images, texts, output_path)], of
    the module [convert_jsonl]. *)
Variable encode : string → string → string → string → string → M FS unit.

(** The order in which the batches of one conversion come back, by the file
    that is converted. *)
Variable schedule_of : path → list nat.

Definition anserini_search (search_args : list string) : M FS unit :=
  λ fs, match SearchCollection_main search_args fs with
        | (fs', true) => (fs', Ok tt)
        | (fs', false) => (fs', Raise JavaException)
        end.

(** The paths of one search, below [output_path]. *)
Definition index_dir (modality setting pf : string) : string :=
  "indexes/lucene-index.atomic." +:+ modality +:+ ".flat." +:+ setting +:+ pf.

Definition run_file (direction setting : string) (split : option string)
    : string :=
  "runs/run." +:+ format_split split +:+ ".bm25-anserini-default."
  +:+ direction +:+ "." +:+ setting +:+ ".trec".

Definition topics_file (collection tag setting pf : string)
    (split : option string) : string :=
  collection +:+ "." +:+ setting +:+ pf +:+ "/" +:+ format_split split
  +:+ "." +:+ tag +:+ ".search.jsonl".

Definition search_args (index topics output : string) : list string :=
  [ "-index"; resolved_str index;
    "-topics"; resolved_str topics;
    "-topicreader"; "JsonString";
    "-topicfield"; "title";
    "-output"; resolved_str output;
    "-bm25"; "-hits"; "1000"; "-parallelism"; "64"; "-threads"; "64" ].

Definition i2t_search_args (setting pf : string) (split : option string)
    : list string :=
  search_args (index_dir "text" setting pf)
    (topics_file "image-collection" "image-caption" setting pf split)
    (run_file "i2t" setting split).

Definition t2i_search_args (setting pf : string) (split : option string)
    : list string :=
  search_args (index_dir "image" setting pf)
    (topics_file "text-collection" "text" setting pf split)
    (run_file "t2i" setting split).

Definition search_anserini (split : option string) (setting : string)
    : M FS unit :=
  (let* pf := lift (postfix setting split) in
   mkdir_exist_ok "runs" ;;;
   anserini_search (i2t_search_args setting pf split) ;;;
   anserini_search (t2i_search_args setting pf split))%M.

Definition convert (jsonl_file output_path : path) : M FS unit :=
  Search.convert_jsonl_for_search float_repr max_depth (schedule_of jsonl_file)
    jsonl_file output_path.

(** The body of the fourth loop of [main], for one setting and one split. *)
Definition reformat (setting split : string) : M FS unit :=
  if negb (String.eqb setting "small") && String.eqb split "test" then ret tt
  else
    let postfix := if String.eqb setting "small" then "." +:+ split else "" in
    let text_dir := "text-collection." +:+ setting +:+ postfix in
    let image_dir := "image-collection." +:+ setting +:+ postfix in
    (convert (text_dir, split +:+ ".text.jsonl")
       (text_dir, split +:+ ".text.search.jsonl") ;;;
     convert (image_dir, split +:+ ".image-caption.jsonl")
       (image_dir, split +:+ ".image-caption.search.jsonl"))%M.

(** The five loops of [main], one after the other. *)
Definition prep_stage (qrels : string) : M FS unit :=
  for_each SPLITS (λ split,
    if String.eqb split "other" then ret tt
    else Qrels.prep_qrels load_dataset qrels split).

Definition encode_stage (qrels images texts : string) : M FS unit :=
  for_each SPLITS (λ split,
    for_each ENCODING_FIELDS (λ encoding_field,
      encode split encoding_field qrels images texts)).

Definition index_stage : M FS unit :=
  for_each SETTINGS (λ setting,
    if String.eqb setting "small" then
      (create_index path_str resolved_str absolute IndexCollection_main
         setting (Some "validation") ;;;
       create_index path_str resolved_str absolute IndexCollection_main
         setting (Some "test"))%M
    else
      create_index path_str resolved_str absolute IndexCollection_main setting None).

Definition reformat_stage : M FS unit :=
  for_each SETTINGS (λ setting,
    for_each ["validation"; "test"] (λ split, reformat setting split)).

Definition search_stage : M FS unit :=
  for_each SETTINGS (λ setting, search_anserini (Some "validation") setting).

Definition main (qrels images texts : string) : M FS unit :=
  (prep_stage qrels ;;;
   encode_stage qrels images texts ;;;
   index_stage ;;;
   reformat_stage ;;;
   search_stage)%M.

End Driver.

End Driver.

(** ** A small output tree, to run the functions on *)

Module Example.
Import Fs Text.

Definition text_shard : pystr :=
  py "{'id': 'x1', 'contents': 'a caption'}" ++ [LF]
  ++ py "{'id': 'x2', 'contents': 'one more', 'extra': [1, 2.5]}" ++ [LF].

Definition bad_shard : pystr :=
  py "{'id': 'x1', 'contents': 'a caption'}" ++ [LF]
  ++ py "{'id': 'x2'}" ++ [LF].

Definition text_shards : gmap string leaf :=
  list_to_map
    [ ("train.text.jsonl", Regular text_shard);
      ("validation.text.jsonl", Regular text_shard);
      ("test.text.jsonl", Regular bad_shard);
      ("other.text.jsonl", Regular text_shard) ].

Definition image_shards : gmap string leaf :=
  list_to_map
    [ ("train.image-caption.jsonl", Regular text_shard);
      ("validation.image-caption.jsonl", Regular text_shard);
      ("test.image-caption.jsonl", Regular text_shard);
      ("other.image-caption.jsonl", Regular text_shard) ].

(** The tree once the shards are encoded. *)
Definition encoded : FS :=
  <["text-collection" := EDir text_shards]>
    (<["image-collection" := EDir image_shards]> ∅).

Definition path_str (rel : string) : string := "/data/" +:+ rel.

(** The output path of the examples is absolute. *)
Definition absolute : bool := true.

(** Room for a hundred nested arrays and objects. *)
Definition max_depth : nat := 100.

(** An engine that builds nothing. *)
Definition idle_indexer (args : list string) (fs : FS) : FS * bool := (fs, true).

(** The tree once the [base] index is built. *)
Definition staged : FS :=
  (Index.create_index path_str path_str absolute idle_indexer "base" None encoded).1.

(** A stand-in for the printing of floats: the literal as it was read, but
    for what is not plain text. It is the true printing only of a literal
    that is its own [repr], such as [2.5]; the examples print no float. *)
Definition float_repr (lit : pystr) : pystr :=
  filter (λ c, printable c = true) lit.

Definition qrels : Qrels.dataset :=
  {| Qrels.column_names := ["text_id"; "Q0"; "image_id"; "rel"];
     Qrels.rows := [ [Qrels.CStr (py "t1"); Qrels.CStr (py "Q0");
                      Qrels.CStr (py "i1"); Qrels.CInt 1] ] |}.

Definition load_dataset (qrels_ds split : string) : result Qrels.dataset :=
  Ok qrels.

End Example.

(** ** The vocabulary of the properties *)

Section Vocabulary.
Import Fs Glob Index Text Json Qrels.

(** The naming convention of the encoded shards: the split's name first,
    [.jsonl] last. *)
Definition shard_name (n : string) : Prop :=
  ends_with ".jsonl" n = true ∧ ∃ s, s ∈ SPLITS ∧ String.prefix s n = true.

(** A computation that never raises the bare [Exception]. *)
Definition never_usage {S A} (m : M S A) : Prop :=
  ∀ s msg, (m s).2 ≠ Raise (Exception msg).

(** [n] is an entry of the directory [d]. *)
Definition present (fs : FS) (d n : string) : Prop :=
  ∃ l, fs !! d = Some (EDir l) ∧ is_Some (l !! n).

(** The engine writes below [indexes/] only, and leaves it a directory. *)
Definition indexer_frame
    (IndexCollection_main : list string → FS → FS * bool) : Prop :=
  ∀ args fs d, d ≠ "indexes" → (IndexCollection_main args fs).1 !! d = fs !! d.
Definition indexer_keeps_indexes
    (IndexCollection_main : list string → FS → FS * bool) : Prop :=
  ∀ args fs l, fs !! "indexes" = Some (EDir l) →
    ∃ l', (IndexCollection_main args fs).1 !! "indexes" = Some (EDir l').


(** A row without a line break inside. *)
Definition no_break (r : pystr) : Prop := Forall (λ c, c ≠ LF ∧ c ≠ CR) r.

(** Text made of the characters from space to tilde. *)
Definition ascii_text (s : pystr) : Prop := Forall (λ c, printable c = true) s.

(** A directory that is missing, or that holds no symbolic link. *)
Definition plain_dir (fs : FS) (d : string) : Prop :=
  match fs !! d with
  | None => True
  | Some (EDir l) => ∀ n t, l !! n ≠ Some (Link t)
  | Some EFile => False
  end.

(** A record of four cells with its first and third cells exchanged. *)
Definition swap_ids (row : list cell) : list cell :=
  match row with
  | [a; q; b; r] => [b; q; a; r]
  | _ => row
  end.

End Vocabulary.

(** ** More vocabulary: what a computation may touch *)

Section Footprint.
Import Fs.

(** A computation that changes no top-level entry outside [D], whether it
    ends well or raises. *)
Definition touches_only {A} (D : string → Prop) (m : M FS A) : Prop :=
  ∀ fs d, ¬ D d → (m fs).1 !! d = fs !! d.

(** The listing of a directory, empty when it is none. *)
Definition listing (fs : FS) (d : string) : gmap string leaf :=
  match fs !! d with
  | Some (EDir l) => l
  | _ => ∅
  end.

(** The search engine writes below [runs/] only. *)
Definition searcher_frame
    (SearchCollection_main : list string → FS → FS * bool) : Prop :=
  ∀ args fs d, d ≠ "runs" → (SearchCollection_main args fs).1 !! d = fs !! d.

(** A name that the system takes as one component of a path: it holds no
    separator and no null character, it is neither empty nor a dot nor two
    dots, and it is no longer than a name may be. *)
Fixpoint plain_chars (name : string) : bool :=
  match name with
  | EmptyString => true
  | String c name' =>
      negb (Ascii.eqb c "/") && negb (Ascii.eqb c "000") && plain_chars name'
  end.

Definition component (name : string) : bool :=
  plain_chars name && negb (String.eqb name "") && negb (String.eqb name ".")
  && negb (String.eqb name "..") && (String.length name <=? 255).

(** The calls of [create_index] that [main] makes, in their order. *)
Definition index_calls : list (string * option string) :=
  [("small", Some "validation"); ("small", Some "test");
   ("base", None); ("large", None)].

End Footprint.

(** ** More vocabulary: well-formed text *)

Section Scalars.

(** A Unicode scalar value: a code point that is no surrogate. *)
Definition scalar (c : N) : Prop :=
  ((c < 55296)%N ∨ (57343 < c)%N) ∧ (c < 1114112)%N.

Definition scalar_text (s : pystr) : Prop := Forall scalar s.

End Scalars.

(** * Properties *)

(** ** Strings and patterns *)

Section StringFacts.

Lemma append_nil (t : string) : "" +:+ t = t.
Proof. reflexivity. Qed.

Lemma append_cons (c : ascii) (s t : string) :
  String c s +:+ t = String c (s +:+ t).
Proof. reflexivity. Qed.

Lemma append_nil_r (s : string) : s +:+ "" = s.
Proof.
  induction s as [|c s IH]; [done|]. by rewrite append_cons, IH.
Qed.

Lemma append_assoc (s t u : string) : (s +:+ t) +:+ u = s +:+ t +:+ u.
Proof.
  induction s as [|c s IH]; [done|].
  by rewrite !append_cons, IH.
Qed.

Lemma prefix_spec (p s : string) :
  String.prefix p s = true ↔ ∃ rest, s = p +:+ rest.
Proof.
  revert s. induction p as [|c p IH]; intros [|d s]; simpl.
  - split; [|done]. intros _. by exists "".
  - split; [|done]. intros _. by exists (String d s).
  - split; [done|]. intros [rest Hr]. by rewrite append_cons in Hr.
  - destruct (ascii_dec c d) as [->|Hne].
    + rewrite IH. split; intros [rest Hr]; exists rest.
      * by rewrite append_cons, Hr.
      * rewrite append_cons in Hr. by simplify_eq.
    + split; [done|]. intros [rest Hr].
      rewrite append_cons in Hr. by simplify_eq.
Qed.

Lemma ends_with_spec (suffix s : string) :
  Glob.ends_with suffix s = true ↔ ∃ front, s = front +:+ suffix.
Proof.
  induction s as [|c s IH].
  - change (Glob.ends_with suffix "") with (String.eqb "" suffix || false).
    rewrite orb_false_r, String.eqb_eq. split.
    + intros <-. by exists "".
    + intros [[|d front] Hf]; [done|]. by rewrite append_cons in Hf.
  - change (Glob.ends_with suffix (String c s))
      with (String.eqb (String c s) suffix || Glob.ends_with suffix s).
    rewrite orb_true_iff, String.eqb_eq, IH. split.
    + intros [<-|[front ->]]; [by exists ""|].
      exists (String c front). by rewrite append_cons.
    + intros [[|d front] Hf]; [by left|].
      rewrite append_cons in Hf. simplify_eq. right. by exists front.
Qed.

End StringFacts.

Section GlobFacts.
Import Glob.

Lemma matches_star (q : list tok) (s : string) :
  matches (TStar :: q) s = true ↔ ∃ a b, s = a +:+ b ∧ matches q b = true.
Proof.
  induction s as [|c s IH].
  - simpl. rewrite orb_false_r. split.
    + intros H. by exists "", "".
    + intros (a & b & Hab & Hm). destruct a as [|d a].
      * rewrite append_nil in Hab. by subst.
      * by rewrite append_cons in Hab.
  - change (matches (TStar :: q) (String c s))
      with (matches q (String c s) || matches (TStar :: q) s).
    rewrite orb_true_iff, IH. split.
    + intros [H|(a & b & -> & Hm)].
      * by exists "", (String c s).
      * exists (String c a), b. by rewrite append_cons.
    + intros (a & b & Hab & Hm). destruct a as [|d a].
      * left. by rewrite append_nil in Hab; subst.
      * right. rewrite append_cons in Hab. simplify_eq. by exists a, b.
Qed.

Lemma compile_app (p q : string) :
  compile (p +:+ q) = compile p ++ compile q.
Proof.
  induction p as [|c p IH]; [done|].
  rewrite append_cons. simpl. by rewrite IH.
Qed.

Lemma literal_name_cons (c : ascii) (s : string) :
  literal_name (String c s) = true →
  compile (String c s) = TLit c :: compile s ∧ literal_name s = true.
Proof.
  simpl. rewrite !andb_true_iff, !negb_true_iff.
  intros [[[[[-> ->] _] _] _] ?]. done.
Qed.

Lemma matches_literal_prefix (p : string) (q : list tok) (s : string) :
  literal_name p = true →
  matches (compile p ++ q) s = true ↔ ∃ rest, s = p +:+ rest ∧ matches q rest = true.
Proof.
  revert s. induction p as [|c p IH]; intros s Hp.
  - simpl. split; [by exists s|]. by intros (rest & -> & ?).
  - apply literal_name_cons in Hp as [-> Hp]. simpl.
    destruct s as [|d s].
    + split; [done|]. intros (rest & Hr & _). by rewrite append_cons in Hr.
    + rewrite andb_true_iff, IH by done. split.
      * intros [Hcd (rest & -> & Hm)]. exists rest.
        apply Ascii.eqb_eq in Hcd as ->. by rewrite append_cons.
      * intros (rest & Hr & Hm). rewrite append_cons in Hr. simplify_eq.
        split; [apply Ascii.eqb_refl|by exists rest].
Qed.

Lemma matches_literal (p s : string) :
  literal_name p = true → matches (compile p) s = true ↔ s = p.
Proof.
  intros Hp. rewrite <-(app_nil_r (compile p)), matches_literal_prefix by done.
  split.
  - intros (rest & -> & Hm). destruct rest; [|done]. apply append_nil_r.
  - intros ->. exists "". by rewrite append_nil_r.
Qed.

(** [f"{split}*.jsonl"] matches the names made of [split], anything, and
    [.jsonl]. *)
Lemma fnmatch_split_star (split name : string) :
  literal_name split = true →
  fnmatch (split +:+ "*.jsonl") name = true
  ↔ ∃ mid, name = split +:+ mid +:+ ".jsonl".
Proof.
  intros Hs. unfold fnmatch. rewrite compile_app.
  change (compile "*.jsonl") with (TStar :: compile ".jsonl").
  rewrite matches_literal_prefix by done. split.
  - intros (rest & -> & (a & b & -> & Hb)%matches_star).
    apply matches_literal in Hb as ->; [|done]. by exists a.
  - intros [mid ->]. exists (mid +:+ ".jsonl"). split; [done|].
    apply matches_star. exists mid, ".jsonl". split; [done|].
    by apply matches_literal.
Qed.

Lemma fnmatch_star_jsonl (name : string) :
  fnmatch "*.jsonl" name = true ↔ ends_with ".jsonl" name = true.
Proof.
  rewrite ends_with_spec.
  pose proof (fnmatch_split_star "" name eq_refl) as H.
  rewrite append_nil in H. rewrite H. by setoid_rewrite append_nil.
Qed.

End GlobFacts.

(** ** Which shards [create_index] selects *)

Section Selection.
Import Fs Glob Index.

Lemma NoDup_listdir (fs : FS) (d : string) : NoDup (listdir fs d).
Proof.
  unfold listdir. destruct (fs !! d) as [[|l]|]; try constructor.
  apply NoDup_fst_map_to_list.
Qed.

Lemma elem_of_glob (fs : FS) (d pat n : string) :
  n ∈ glob fs d pat ↔ n ∈ listdir fs d ∧ fnmatch pat n = true.
Proof. unfold glob. rewrite list_elem_of_filter. tauto. Qed.

Lemma NoDup_glob (fs : FS) (d pat : string) : NoDup (glob fs d pat).
Proof. apply NoDup_filter, NoDup_listdir. Qed.

Lemma glob_all (fs : FS) (d pat : string) :
  (∀ n, n ∈ listdir fs d → fnmatch pat n = true) → glob fs d pat = listdir fs d.
Proof.
  unfold glob. induction (listdir fs d) as [|x l IH]; intros H; [done|].
  rewrite filter_cons_True by (apply H; left). f_equal.
  apply IH. intros y Hy. apply H. by right.
Qed.

Lemma fnmatch_train (n : string) :
  fnmatch "train*.jsonl" n = true
  ↔ String.prefix "train" n = true ∧ ends_with ".jsonl" n = true.
Proof.
  rewrite (fnmatch_split_star "train" n eq_refl), prefix_spec, ends_with_spec.
  split.
  - intros [mid ->]. split; [by eexists|].
    exists ("train" +:+ mid). by rewrite append_assoc.
  - intros [[rest ->] He%ends_with_spec].
    rewrite !append_cons, append_nil in He. simpl in He.
    apply ends_with_spec in He as [mid ->]. by exists mid.
Qed.

Lemma fnmatch_validation (n : string) :
  fnmatch "validation*.jsonl" n = true
  ↔ String.prefix "validation" n = true ∧ ends_with ".jsonl" n = true.
Proof.
  rewrite (fnmatch_split_star "validation" n eq_refl), prefix_spec, ends_with_spec.
  split.
  - intros [mid ->]. split; [by eexists|].
    exists ("validation" +:+ mid). by rewrite append_assoc.
  - intros [[rest ->] He%ends_with_spec].
    rewrite !append_cons, append_nil in He. simpl in He.
    apply ends_with_spec in He as [mid ->]. by exists mid.
Qed.

Lemma fnmatch_test (n : string) :
  fnmatch "test*.jsonl" n = true
  ↔ String.prefix "test" n = true ∧ ends_with ".jsonl" n = true.
Proof.
  rewrite (fnmatch_split_star "test" n eq_refl), prefix_spec, ends_with_spec.
  split.
  - intros [mid ->]. split; [by eexists|].
    exists ("test" +:+ mid). by rewrite append_assoc.
  - intros [[rest ->] He%ends_with_spec].
    rewrite !append_cons, append_nil in He. simpl in He.
    apply ends_with_spec in He as [mid ->]. by exists mid.
Qed.

(** No name begins with two of the three split names. *)
Lemma prefix_exclusive (n : string) :
  ¬ (String.prefix "train" n = true ∧ String.prefix "validation" n = true)
  ∧ ¬ (String.prefix "train" n = true ∧ String.prefix "test" n = true)
  ∧ ¬ (String.prefix "validation" n = true ∧ String.prefix "test" n = true).
Proof.
  repeat split; intros [[r1 ->]%prefix_spec [r2 H]%prefix_spec];
    rewrite !append_cons in H; discriminate.
Qed.

Lemma select_base (coll : string) (split : option string) (fs : FS) :
  select coll "base" split fs
  = Some (glob fs coll "train*.jsonl" ++ glob fs coll "validation*.jsonl"
          ++ glob fs coll "test*.jsonl").
Proof. unfold select. simpl. by rewrite app_nil_r. Qed.

Lemma select_large (coll : string) (split : option string) (fs : FS) :
  select coll "large" split fs = Some (glob fs coll "*.jsonl").
Proof. done. Qed.

Lemma select_small (coll split : string) (fs : FS) :
  select coll "small" (Some split) fs = Some (glob fs coll (split +:+ "*.jsonl")).
Proof. done. Qed.

(** C1. In a collection directory whose shards are named after their split and
    end in [.jsonl], setting [base] selects exactly the shards that begin with
    [train], [validation] or [test], each once; setting [large] selects the
    whole listing, additional shards included; setting [small] with split
    [validation] selects exactly the shards that begin with [validation]. *)
Theorem create_index_selects_shards (fs : FS) (coll : string) (split : option string) :
  (∀ n, n ∈ listdir fs coll → shard_name n) →
  (∃ sel, select coll "base" split fs = Some sel ∧ NoDup sel ∧
     ∀ n, n ∈ sel ↔
          n ∈ listdir fs coll ∧
          (String.prefix "train" n = true ∨ String.prefix "validation" n = true
           ∨ String.prefix "test" n = true))
  ∧ select coll "large" split fs = Some (listdir fs coll)
  ∧ (∃ sel, select coll "small" (Some "validation") fs = Some sel ∧ NoDup sel ∧
       ∀ n, n ∈ sel ↔ n ∈ listdir fs coll ∧ String.prefix "validation" n = true).
Proof.
  intros Hnames.
  assert (Hjsonl : ∀ n, n ∈ listdir fs coll → ends_with ".jsonl" n = true)
    by (intros n Hn; apply (Hnames n Hn)).
  split; [|split].
  - eexists. split; [apply select_base|]. split.
    + pose proof prefix_exclusive as Hex.
      rewrite !NoDup_app. repeat split; try apply NoDup_glob.
      * intros n [_ [Ht _]%fnmatch_train]%elem_of_glob [Hin|Hin]%elem_of_app;
          apply elem_of_glob in Hin as [_ Hm].
        -- apply fnmatch_validation in Hm as [Hv _].
           destruct (Hex n) as (H1 & _ & _). by apply H1.
        -- apply fnmatch_test in Hm as [Hv _].
           destruct (Hex n) as (_ & H2 & _). by apply H2.
      * intros n [_ [Ht _]%fnmatch_validation]%elem_of_glob
          [_ [Hv _]%fnmatch_test]%elem_of_glob.
        destruct (Hex n) as (_ & _ & H3). by apply H3.
    + intros n. rewrite !elem_of_app, !elem_of_glob,
        fnmatch_train, fnmatch_validation, fnmatch_test.
      specialize (Hjsonl n). tauto.
  - rewrite select_large. f_equal. apply glob_all.
    intros n Hn. by apply fnmatch_star_jsonl, Hjsonl.
  - eexists. split; [apply select_small|]. split; [apply NoDup_glob|].
    intros n. rewrite elem_of_glob, fnmatch_validation.
    specialize (Hjsonl n). tauto.
Qed.

End Selection.

(** ** The monad *)

Lemma Ok_inj {A} (a b : A) : Ok a = Ok b → a = b.
Proof. by intros [=]. Qed.

Section MonadFacts.
Context {S : Type}.

Lemma bind_ok_inv {A B} (m : M S A) (k : A → M S B) (s s' : S) (b : B) :
  bind m k s = (s', Ok b) → ∃ s1 a, m s = (s1, Ok a) ∧ k a s1 = (s', Ok b).
Proof.
  unfold bind. destruct (m s) as [s1 [a|e]]; [|done]. intros H. by exists s1, a.
Qed.

Lemma bind_ok {A B} (m : M S A) (k : A → M S B) (s s1 : S) (a : A) :
  m s = (s1, Ok a) → bind m k s = k a s1.
Proof. unfold bind. by intros ->. Qed.

Lemma bind_raise {A B} (m : M S A) (k : A → M S B) (s s1 : S) (e : exn) :
  m s = (s1, Raise e) → bind m k s = (s1, Raise e).
Proof. unfold bind. by intros ->. Qed.

Lemma lift_ok_inv {A} (r : result A) (s s' : S) (a : A) :
  lift r s = (s', Ok a) → s' = s ∧ r = Ok a.
Proof. unfold lift. intros [= ? ?]. by subst. Qed.

Lemma never_usage_bind {A B} (m : M S A) (k : A → M S B) :
  never_usage m → (∀ a, never_usage (k a)) → never_usage (bind m k).
Proof.
  intros Hm Hk s msg. unfold bind. specialize (Hm s msg).
  destruct (m s) as [s1 [a|e]]; [apply Hk|]. simpl in *. congruence.
Qed.

Lemma never_usage_ret {A} (a : A) : never_usage (S := S) (ret a).
Proof. by intros s msg. Qed.

Lemma never_usage_get : never_usage (S := S) get.
Proof. by intros s msg. Qed.

Lemma never_usage_for_each {A} (xs : list A) (body : A → M S unit) :
  (∀ x, never_usage (body x)) → never_usage (for_each xs body).
Proof.
  intros Hb. induction xs as [|x xs IH]; [apply never_usage_ret|].
  simpl. by apply never_usage_bind.
Qed.

End MonadFacts.

(** ** The file tree *)

Section FsFacts.
Import Fs.

Lemma present_ext (fs fs' : FS) (d n : string) :
  fs' !! d = fs !! d → present fs d n → present fs' d n.
Proof. unfold present. by intros ->. Qed.

Lemma mkdir_existing (fs : FS) (d : string) (l : gmap string leaf) :
  fs !! d = Some (EDir l) → mkdir_exist_ok d fs = (fs, Ok tt).
Proof. unfold mkdir_exist_ok. by intros ->. Qed.

Lemma mkdir_ok_inv (fs fs' : FS) (d : string) :
  mkdir_exist_ok d fs = (fs', Ok tt) →
  (∀ d', d' ≠ d → fs' !! d' = fs !! d')
  ∧ (∃ l, fs' !! d = Some (EDir l))
  ∧ (∀ n, present fs d n → present fs' d n).
Proof.
  unfold mkdir_exist_ok. destruct (fs !! d) as [[|l]|] eqn:Hd; intros [= <-].
  - repeat split; eauto.
  - split; [|split].
    + intros d' Hd'. by rewrite lookup_insert_ne.
    + exists ∅. by rewrite lookup_insert_eq.
    + intros n (l & Hl & _). congruence.
Qed.

Lemma never_usage_mkdir (d : string) : never_usage (mkdir_exist_ok d).
Proof.
  intros fs msg. unfold mkdir_exist_ok. by destruct (fs !! d) as [[|l]|].
Qed.

Lemma symlink_ok_inv (fs fs' : FS) (d n : string) (t : string * string) :
  symlink_to d n t fs = (fs', Ok tt) →
  ∃ l, fs !! d = Some (EDir l) ∧ l !! n = None
       ∧ fs' = <[d := EDir (<[n := Link t]> l)]> fs.
Proof.
  unfold symlink_to. destruct (fs !! d) as [[|l]|]; try done.
  destruct (l !! n) eqn:Hn; [done|]. intros [= <-]. by exists l.
Qed.

Lemma symlink_present (fs : FS) (d n : string) (t : string * string) :
  present fs d n → symlink_to d n t fs = (fs, Raise FileExistsError).
Proof.
  intros (l & Hl & [x Hx]). unfold symlink_to. by rewrite Hl, Hx.
Qed.

Lemma never_usage_symlink (d n : string) (t : string * string) :
  never_usage (symlink_to d n t).
Proof.
  intros fs msg. unfold symlink_to. destruct (fs !! d) as [[|l]|]; try done.
  by destruct (l !! n).
Qed.

(** A loop of [symlink_to] into [d] that ends well has touched [d] alone, has
    kept what was there, and has added every name of the list. *)
Lemma for_each_symlink_ok (d : string) (tgt : string → string * string)
    (ns : list string) (fs fs' : FS) :
  for_each ns (λ n, symlink_to d n (tgt n)) fs = (fs', Ok tt) →
  (∀ d', d' ≠ d → fs' !! d' = fs !! d')
  ∧ (∀ l, fs !! d = Some (EDir l) → ∃ l', fs' !! d = Some (EDir l'))
  ∧ (∀ n, n ∈ ns ∨ present fs d n → present fs' d n).
Proof.
  revert fs. induction ns as [|x ns IH]; intros fs H.
  - injection H as <-. split; [done|]. split; [by eauto|].
    intros n [Hn|Hn]; [|done]. by apply elem_of_nil in Hn.
  - simpl in H. apply bind_ok_inv in H as (fs1 & [] & Hx & Hrest).
    apply symlink_ok_inv in Hx as (l & Hl & Hfree & ->).
    apply IH in Hrest as (Hframe & Hdir & Hkeep). split; [|split].
    + intros d' Hd'. by rewrite Hframe, lookup_insert_ne.
    + intros _ _. eapply Hdir. apply lookup_insert_eq.
    + intros n Hn. apply Hkeep.
      destruct Hn as [[->|Hn]%elem_of_cons|(l' & Hl' & Hin)]; [|by left|]; right.
      * eexists. rewrite lookup_insert_eq. split; [done|].
        by rewrite lookup_insert_eq.
      * eexists. rewrite lookup_insert_eq. split; [done|].
        simplify_eq. destruct (decide (x = n)) as [->|Hne].
        -- by rewrite lookup_insert_eq.
        -- by rewrite lookup_insert_ne.
Qed.

Lemma for_each_symlink_present (d : string) (tgt : string → string * string)
    (x : string) (ns : list string) (fs : FS) :
  present fs d x →
  for_each (x :: ns) (λ n, symlink_to d n (tgt n)) fs = (fs, Raise FileExistsError).
Proof.
  intros Hx. simpl. by apply bind_raise, symlink_present.
Qed.

End FsFacts.

(** ** [create_index]: the usage check, the split argument, and re-runs *)

Section CreateIndexFacts.
Import Fs Glob Index.

Lemma check_usage_spec (setting : string) (split : option string) :
  check_usage setting split = Raise (Exception usage_message)
  ↔ setting = "small" ∧ (split = None ∨ split = Some "").
Proof.
  unfold check_usage, falsy.
  destruct (String.eqb_spec setting "small") as [->|Hne]; simpl.
  - destruct split as [s|]; [|by split; auto].
    destruct (String.eqb_spec s "") as [->|Hs]; [by split; auto|].
    split; [done|]. intros [_ [H|H]]; [done|]. by injection H.
  - split; [done|]. by intros [H _].
Qed.

Lemma check_usage_cases (setting : string) (split : option string) :
  check_usage setting split = Raise (Exception usage_message)
  ∨ check_usage setting split = Ok tt.
Proof. unfold check_usage. destruct (_ && _); auto. Qed.

Lemma never_usage_lift_postfix (setting : string) (split : option string) :
  never_usage (S := FS) (lift (postfix setting split)).
Proof.
  intros fs msg. unfold lift, postfix. simpl.
  destruct (String.eqb setting "small"); [|done]. by destruct split.
Qed.

Lemma bound_ok_inv {A} (o : option A) (fs fs' : FS) (a : A) :
  bound_or_unbound o fs = (fs', Ok a) → fs' = fs ∧ o = Some a.
Proof. destruct o; [|done]. intros [= ? ?]. by subst. Qed.

Lemma never_usage_bound {A} (o : option A) :
  never_usage (bound_or_unbound o).
Proof. intros fs msg. by destruct o. Qed.

Variable path_str : string → string.
Variable resolved_str : string → string.
Variable absolute : bool.
Variable IndexCollection_main : list string → FS → FS * bool.

Abbreviation create_index :=
  (Index.create_index path_str resolved_str absolute IndexCollection_main).
Abbreviation anserini_index := (Index.anserini_index IndexCollection_main).

Lemma never_usage_anserini (args : list string) :
  never_usage (anserini_index args).
Proof.
  intros fs msg. unfold Index.anserini_index.
  by destruct (IndexCollection_main args fs) as [fs' []].
Qed.

(** C2. [create_index] raises the usage error exactly when the setting is
    [small] and the split is missing or empty: the check itself fails only
    then, and nothing after the check raises it. *)
Theorem create_index_usage_error_iff (setting : string) (split : option string) (fs : FS) :
  (check_usage setting split = Raise (Exception usage_message)
   ↔ setting = "small" ∧ (split = None ∨ split = Some ""))
  ∧ (¬ (setting = "small" ∧ (split = None ∨ split = Some ""))
     ↔ check_usage setting split = Ok tt)
  ∧ ((create_index setting split fs).2 = Raise (Exception usage_message)
     ↔ setting = "small" ∧ (split = None ∨ split = Some ""))
  ∧ (∀ msg, (create_index setting split fs).2 = Raise (Exception msg) →
       msg = usage_message ∧ (create_index setting split fs).1 = fs).
Proof.
  pose proof (check_usage_spec setting split) as Hspec.
  assert (Hrest : check_usage setting split = Ok tt →
                  ∀ msg, (create_index setting split fs).2 ≠ Raise (Exception msg)).
  { intros Hok msg. unfold Index.create_index.
    rewrite (bind_ok _ _ fs fs tt) by (unfold lift; by rewrite Hok).
    revert fs msg.
    apply never_usage_bind; [apply never_usage_lift_postfix|intros pf].
    apply never_usage_bind; [apply never_usage_mkdir|intros _].
    apply never_usage_bind; [apply never_usage_mkdir|intros _].
    apply never_usage_bind; [apply never_usage_get|intros fs'].
    apply never_usage_bind; [apply never_usage_bound|intros ps].
    apply never_usage_bind;
      [apply never_usage_for_each; intros; apply never_usage_symlink|intros _].
    apply never_usage_bind; [apply never_usage_bound|intros ps'].
    apply never_usage_bind;
      [apply never_usage_for_each; intros; apply never_usage_symlink|intros _].
    apply never_usage_bind; [apply never_usage_mkdir|intros _].
    apply never_usage_bind; [apply never_usage_anserini|intros _].
    apply never_usage_anserini. }
  assert (Hfail : check_usage setting split = Raise (Exception usage_message) →
                  create_index setting split fs = (fs, Raise (Exception usage_message))).
  { intros Hr. unfold Index.create_index.
    apply bind_raise. unfold lift. by rewrite Hr. }
  split; [done|]. split; [|split].
  - destruct (check_usage_cases setting split) as [Hr|Hok].
    + rewrite Hr. split; [|done]. intros Hn. by apply Hspec in Hr.
    + split; [done|]. intros _ Hc. apply Hspec in Hc. congruence.
  - rewrite <-Hspec. split.
    + intros Hraise. destruct (check_usage_cases setting split) as [Hr|Hok]; [done|].
      by apply Hrest in Hraise.
    + intros Hr. by rewrite (Hfail Hr).
  - intros msg Hraise.
    destruct (check_usage_cases setting split) as [Hr|Hok].
    + rewrite (Hfail Hr) in Hraise |- *. simpl in *. by simplify_eq.
    + by apply Hrest in Hraise.
Qed.

(** C8. With setting [base] or [large] the split argument has no influence:
    the postfix is empty, so the staging directories and the index arguments
    are the same, the same shards are selected, and the whole run is the
    same, whatever the two split values are. *)
Theorem create_index_split_irrelevant (s1 s2 : option string) (fs : FS) :
  (postfix "base" s1 = Ok "" ∧ postfix "base" s2 = Ok ""
   ∧ select "text-collection" "base" s1 fs = select "text-collection" "base" s2 fs
   ∧ select "image-collection" "base" s1 fs = select "image-collection" "base" s2 fs
   ∧ create_index "base" s1 fs = create_index "base" s2 fs)
  ∧ (postfix "large" s1 = Ok "" ∧ postfix "large" s2 = Ok ""
     ∧ select "text-collection" "large" s1 fs = select "text-collection" "large" s2 fs
     ∧ select "image-collection" "large" s1 fs = select "image-collection" "large" s2 fs
     ∧ create_index "large" s1 fs = create_index "large" s2 fs).
Proof. repeat split. Qed.

Lemma staging_names (setting pf : string) :
  text_dir setting pf ≠ "text-collection"
  ∧ text_dir setting pf ≠ "image-collection"
  ∧ text_dir setting pf ≠ "indexes"
  ∧ image_dir setting pf ≠ "text-collection"
  ∧ image_dir setting pf ≠ "image-collection"
  ∧ image_dir setting pf ≠ "indexes"
  ∧ text_dir setting pf ≠ image_dir setting pf.
Proof.
  unfold text_dir, image_dir. rewrite !append_cons, !append_nil.
  repeat split; discriminate.
Qed.

Lemma select_ext (coll setting : string) (split : option string) (fs fs' : FS) :
  fs' !! coll = fs !! coll →
  select coll setting split fs' = select coll setting split fs.
Proof.
  intros H. unfold select, glob, listdir. simpl. by rewrite H.
Qed.

Lemma anserini_ok_inv (args : list string) (fs fs' : FS) :
  anserini_index args fs = (fs', Ok tt) →
  fs' = (IndexCollection_main args fs).1.
Proof.
  unfold Index.anserini_index.
  destruct (IndexCollection_main args fs) as [fs1 []]; [|done]. by intros [= <-].
Qed.

(** C7. Once [create_index] has run to its end, running it again with the
    same arguments on the tree it left finds the two staging directories and
    [indexes] in place, and creating them again succeeds and changes nothing;
    but as soon as one shard had been selected, the second run stops with
    [FileExistsError] at the first symbolic link, the tree untouched. *)
Theorem create_index_rerun (setting : string) (split : option string) (fs fs1 : FS) :
  indexer_frame IndexCollection_main →
  indexer_keeps_indexes IndexCollection_main →
  create_index setting split fs = (fs1, Ok tt) →
  ∃ pf sel_t sel_i,
    postfix setting split = Ok pf
    ∧ select "text-collection" setting split fs = Some sel_t
    ∧ select "image-collection" setting split fs = Some sel_i
    ∧ select "text-collection" setting split fs1 = Some sel_t
    ∧ select "image-collection" setting split fs1 = Some sel_i
    ∧ mkdir_exist_ok (text_dir setting pf) fs1 = (fs1, Ok tt)
    ∧ mkdir_exist_ok (image_dir setting pf) fs1 = (fs1, Ok tt)
    ∧ mkdir_exist_ok "indexes" fs1 = (fs1, Ok tt)
    ∧ (∀ n, n ∈ sel_t → present fs1 (text_dir setting pf) n)
    ∧ (∀ n, n ∈ sel_i → present fs1 (image_dir setting pf) n)
    ∧ (sel_t ++ sel_i ≠ [] →
       create_index setting split fs1 = (fs1, Raise FileExistsError)).
Proof.
  intros Hframe Hkeep Hrun.
  unfold Index.create_index in Hrun.
  apply bind_ok_inv in Hrun as (? & [] & [-> Hcheck]%lift_ok_inv & Hrun).
  apply bind_ok_inv in Hrun as (? & pf & [-> Hpf]%lift_ok_inv & Hrun).
  apply bind_ok_inv in Hrun as (fsA & [] & HmkT & Hrun).
  apply bind_ok_inv in Hrun as (fsB & [] & HmkI & Hrun).
  apply bind_ok_inv in Hrun as (? & ? & [= <- <-] & Hrun).
  cbv zeta in Hrun.
  apply bind_ok_inv in Hrun as (? & sel_t & [-> HselT]%bound_ok_inv & Hrun).
  apply bind_ok_inv in Hrun as (fsC & [] & HlinkT & Hrun).
  apply bind_ok_inv in Hrun as (? & sel_i & [-> HselI]%bound_ok_inv & Hrun).
  apply bind_ok_inv in Hrun as (fsD & [] & HlinkI & Hrun).
  apply bind_ok_inv in Hrun as (fsE & [] & HmkX & Hrun).
  apply bind_ok_inv in Hrun as (fsF & [] & ->%anserini_ok_inv & ->%anserini_ok_inv).
  destruct (staging_names setting pf) as (T1 & T2 & T3 & I1 & I2 & I3 & TI).
  apply mkdir_ok_inv in HmkT as (FA & [lA DA] & _).
  apply mkdir_ok_inv in HmkI as (FB & [lB DB] & _).
  apply for_each_symlink_ok in HlinkT as (FC & DC & PC).
  apply for_each_symlink_ok in HlinkI as (FD & DD & PD).
  apply mkdir_ok_inv in HmkX as (FE & [lE DE] & _).
  set (fsF := (IndexCollection_main _ fsE).1) in *.
  set (fs1 := (IndexCollection_main _ fsF).1) in *.
  (* what every directory but [indexes] holds at the end *)
  assert (Hend : ∀ d, d ≠ "indexes" → fs1 !! d = fsD !! d).
  { intros d Hd. unfold fs1, fsF. rewrite !Hframe by done. by apply FE. }
  assert (HcollT : fs1 !! "text-collection" = fs !! "text-collection").
  { rewrite Hend, FD, FC, FB, FA by done. done. }
  assert (HcollI : fs1 !! "image-collection" = fs !! "image-collection").
  { rewrite Hend, FD, FC, FB, FA by done. done. }
  assert (HcollTB : fsB !! "text-collection" = fs !! "text-collection").
  { rewrite FB, FA by done. done. }
  assert (HcollIB : fsB !! "image-collection" = fs !! "image-collection").
  { rewrite FB, FA by done. done. }
  assert (HpT : ∀ n, n ∈ sel_t → present fs1 (text_dir setting pf) n).
  { intros n Hn. apply (present_ext fsC).
    - rewrite Hend, FD by done. done.
    - apply PC. by left. }
  assert (HpI : ∀ n, n ∈ sel_i → present fs1 (image_dir setting pf) n).
  { intros n Hn. apply (present_ext fsD).
    - by rewrite Hend.
    - apply PD. by left. }
  assert (HdT : ∃ l, fs1 !! text_dir setting pf = Some (EDir l)).
  { rewrite Hend, FD by done. apply (DC lA). by rewrite FB. }
  assert (HdI : ∃ l, fs1 !! image_dir setting pf = Some (EDir l)).
  { rewrite Hend by done. apply (DD lB). by rewrite FC. }
  assert (HdX : ∃ l, fs1 !! "indexes" = Some (EDir l)).
  { unfold fs1. destruct (Hkeep (text_indexing_args path_str resolved_str setting pf)
                            fsE lE DE) as [l1 Hl1].
    fold fsF in Hl1. eapply Hkeep, Hl1. }
  destruct HdT as [lT HdT], HdI as [lI HdI], HdX as [lX HdX].
  rewrite (select_ext _ _ _ fs fsB HcollTB) in HselT.
  rewrite (select_ext _ _ _ fs fsB HcollIB) in HselI.
  pose proof (select_ext "text-collection" setting split fs fs1 HcollT) as S1T.
  pose proof (select_ext "image-collection" setting split fs fs1 HcollI) as S1I.
  exists pf, sel_t, sel_i. rewrite S1T, S1I.
  repeat split; try done; try by eapply mkdir_existing.
  intros Hne. unfold Index.create_index.
  rewrite (bind_ok _ _ fs1 fs1 tt) by (unfold lift; by rewrite Hcheck).
  rewrite (bind_ok _ _ fs1 fs1 pf) by (unfold lift; by rewrite Hpf).
  rewrite (bind_ok _ _ fs1 fs1 tt) by (by eapply mkdir_existing).
  rewrite (bind_ok _ _ fs1 fs1 tt) by (by eapply mkdir_existing).
  rewrite (bind_ok _ _ fs1 fs1 fs1) by done. cbv zeta.
  rewrite S1T, S1I, HselT, HselI.
  rewrite (bind_ok _ _ fs1 fs1 sel_t) by done.
  destruct sel_t as [|x sel_t].
  - rewrite (bind_ok _ _ fs1 fs1 tt) by done.
    rewrite (bind_ok _ _ fs1 fs1 sel_i) by done.
    destruct sel_i as [|y sel_i]; [done|].
    apply bind_raise, for_each_symlink_present, HpI. by left.
  - apply bind_raise, for_each_symlink_present, HpT. by left.
Qed.

End CreateIndexFacts.

(** ** The decoder always answers *)

Section DecoderFacts.
Import Text Json.


















End DecoderFacts.

(** ** The pool returns the results in the order of the input *)

Section PoolFacts.
Import Pool.
Context {A B : Type}.
Implicit Types (func : A → result B) (xs : list A) (ys : list B).

Lemma chunksize_pos (len processes : nat) :
  0 < len → 0 < processes → 0 < chunksize len processes.
Proof.
  intros Hl Hp. unfold chunksize.
  destruct (Nat.eqb_spec len 0) as [|_]; [lia|].
  destruct (Nat.eqb_spec (len mod (processes * 4)) 0) as [H0|_]; [|lia].
  pose proof (Nat.div_mod_eq len (processes * 4)). nia.
Qed.

Lemma chunksize_zero (processes : nat) : chunksize 0 processes = 0.
Proof. done. Qed.

Lemma div_range (cs i j : nat) :
  0 < cs → (i * cs ≤ j ∧ j < (i + 1) * cs) ↔ j / cs = i.
Proof.
  intros Hcs. split.
  - intros [H1 H2]. symmetry. apply (Nat.div_unique j cs i (j - i * cs)); lia.
  - intros <-. pose proof (Nat.div_mod_eq j cs).
    pose proof (Nat.mod_upper_bound j cs). nia.
Qed.

Lemma take_nil_inv {T} (n : nat) (l : list T) : 0 < n → take n l = [] → l = [].
Proof. destruct n, l; simpl; intros; done || lia. Qed.

Lemma get_tasks_go_nth (fuel cs : nat) xs (i : nat) :
  0 < cs → length xs ≤ fuel →
  nth i (get_tasks_go fuel cs xs) [] = take cs (drop (i * cs) xs).
Proof.
  intros Hcs. revert xs i. induction fuel as [|fuel IH]; intros xs i Hlen.
  - destruct xs; [|simpl in Hlen; lia]. rewrite drop_nil, take_nil. by destruct i.
  - cbn [get_tasks_go]. destruct (take cs xs) as [|b batch] eqn:Ht.
    + apply take_nil_inv in Ht as ->; [|done].
      rewrite drop_nil, take_nil. by destruct i.
    + destruct i as [|i]; [by rewrite Nat.mul_0_l, drop_0, Ht|]. cbn [nth].
      rewrite IH by (rewrite length_drop; lia).
      by rewrite drop_drop.
Qed.

Lemma get_tasks_go_length (fuel cs : nat) xs (i : nat) :
  0 < cs → length xs ≤ fuel →
  i < length (get_tasks_go fuel cs xs) ↔ i * cs < length xs.
Proof.
  intros Hcs. revert xs i. induction fuel as [|fuel IH]; intros xs i Hlen.
  - destruct xs; [|simpl in Hlen; lia]. simpl. lia.
  - cbn [get_tasks_go]. destruct (take cs xs) as [|b batch] eqn:Ht.
    + apply take_nil_inv in Ht as ->; [|done]. simpl. lia.
    + assert (0 < length xs) by (destruct xs; [by rewrite take_nil in Ht|simpl; lia]).
      destruct i as [|i]; [simpl; lia|]. cbn [length].
      rewrite <-Nat.succ_lt_mono, IH by (rewrite length_drop; lia).
      rewrite length_drop. lia.
Qed.

Lemma get_tasks_nth (cs : nat) xs (i : nat) :
  0 < cs → nth i (get_tasks cs xs) [] = take cs (drop (i * cs) xs).
Proof. intros. by apply get_tasks_go_nth. Qed.

Lemma get_tasks_length (cs : nat) xs (i : nat) :
  0 < cs → i < length (get_tasks cs xs) ↔ i * cs < length xs.
Proof. intros. by apply get_tasks_go_length. Qed.

Lemma mapstar_ok_iff func xs ys :
  mapstar func xs = Ok ys ↔ Forall2 (λ x y, func x = Ok y) xs ys.
Proof.
  revert ys. induction xs as [|x xs IH]; intros ys; simpl.
  - split; [intros [= <-]; constructor|by intros ->%Forall2_nil_inv_l].
  - split.
    + destruct (func x) as [y|e] eqn:Hx; [|done].
      destruct (mapstar func xs) as [ys'|e]; [|done].
      intros [= <-]. constructor; [done|]. by apply IH.
    + intros (y & ys' & Hx & Hys & ->)%Forall2_cons_inv_l.
      rewrite Hx. apply IH in Hys. by rewrite Hys.
Qed.

Lemma mapstar_raise_iff func xs :
  (∃ e, mapstar func xs = Raise e) ↔ (∃ x e, x ∈ xs ∧ func x = Raise e).
Proof.
  induction xs as [|x xs IH]; simpl.
  - split; [by intros [e ?]|]. intros (x & e & Hx & _). by apply elem_of_nil in Hx.
  - destruct (func x) as [y|e] eqn:Hx.
    + destruct (mapstar func xs) as [ys'|e'].
      * split; [by intros [e ?]|]. intros (x' & e & [->|Hin]%elem_of_cons & He).
        -- congruence.
        -- destruct IH as [_ IH]. destruct IH as [e' ?]; [by eauto|done].
      * split; [|by eauto]. intros _. destruct IH as [IH _].
        destruct IH as (x' & e & Hin & He); [by eauto|].
        exists x', e. split; [by right|done].
    + split; [|by eauto]. intros _. exists x, e. split; [by left|done].
Qed.

Lemma mapstar_raise_origin func xs (e : exn) :
  mapstar func xs = Raise e → ∃ x, x ∈ xs ∧ func x = Raise e.
Proof.
  induction xs as [|x xs IH]; simpl; [done|].
  destruct (func x) as [y|e'] eqn:Hx.
  - destruct (mapstar func xs) as [ys'|e'']; [done|].
    intros [= ->]. destruct IH as (x' & Hin & He); [done|].
    exists x'. split; [by right|done].
  - intros [= ->]. exists x. split; [by left|done].
Qed.

(** The slice assignment of [MapResult._set], read position by position. *)
Lemma slice_lookup (v : list (option B)) ys (cs i j : nat) :
  0 < cs → length v = length ys → i * cs < length ys →
  (take (i * cs) v ++ (Some <$> take cs (drop (i * cs) ys))
   ++ drop ((i + 1) * cs) v) !! j
  = if decide (j / cs = i) then (Some <$> ys) !! j else v !! j.
Proof.
  intros Hcs Hlen Hi.
  assert (Hta : length (take (i * cs) v) = i * cs) by (rewrite length_take; lia).
  assert (Hmid : length (Some <$> take cs (drop (i * cs) ys))
                 = cs `min` (length ys - i * cs))
    by (by rewrite length_fmap, length_take, length_drop).
  pose proof (div_range cs i j Hcs) as Hdiv.
  destruct (decide (j / cs = i)) as [Hj|Hj].
  - apply Hdiv in Hj as [H1 H2].
    rewrite lookup_app_r by lia. rewrite Hta.
    destruct (decide (j < length ys)) as [Hjn|Hjn].
    + rewrite lookup_app_l by lia.
      rewrite !list_lookup_fmap, lookup_take_lt, lookup_drop by lia.
      do 2 f_equal. lia.
    + rewrite lookup_app_r by lia.
      rewrite (lookup_ge_None_2 (Some <$> ys)) by (rewrite length_fmap; lia).
      apply lookup_ge_None_2. rewrite length_drop. lia.
  - destruct (decide (j < i * cs)) as [Hlt|Hge].
    + rewrite lookup_app_l by lia. by rewrite lookup_take_lt by lia.
    + assert (Hge2 : (i + 1) * cs ≤ j) by lia.
      rewrite lookup_app_r by lia. rewrite Hta.
      destruct (decide (j < length ys)) as [Hjn|Hjn].
      * rewrite lookup_app_r by lia. rewrite Hmid, lookup_drop.
        f_equal. lia.
      * rewrite (lookup_ge_None_2 v) by lia.
        apply lookup_ge_None_2.
        rewrite length_app, Hmid, length_drop. lia.
Qed.

Lemma slice_length (v : list (option B)) ys (cs i : nat) :
  0 < cs → length v = length ys → i * cs < length ys →
  length (take (i * cs) v ++ (Some <$> take cs (drop (i * cs) ys))
          ++ drop ((i + 1) * cs) v) = length ys.
Proof.
  intros Hcs Hlen Hi.
  rewrite !length_app, length_fmap, !length_take, !length_drop. lia.
Qed.

Lemma mapstar_batch func xs ys (cs i : nat) :
  0 < cs → mapstar func xs = Ok ys →
  mapstar func (nth i (get_tasks cs xs) []) = Ok (take cs (drop (i * cs) ys)).
Proof.
  intros Hcs Hys. rewrite get_tasks_nth by done.
  apply mapstar_ok_iff, Forall2_take, Forall2_drop. by apply mapstar_ok_iff.
Qed.

Lemma fold_set_ok func xs ys (cs : nat) (sched : list nat)
    (D : nat → Prop) (v : list (option B)) :
  0 < cs → mapstar func xs = Ok ys →
  (∀ i, i ∈ sched → i * cs < length ys) →
  length v = length ys →
  (∀ j, D (j / cs) → v !! j = (Some <$> ys) !! j) →
  ∃ v', fold_left
          (λ st i, set_result cs i (mapstar func (nth i (get_tasks cs xs) [])) st)
          sched (inl v) = inl v'
        ∧ length v' = length ys
        ∧ ∀ j, j / cs ∈ sched ∨ D (j / cs) → v' !! j = (Some <$> ys) !! j.
Proof.
  intros Hcs Hys. revert D v.
  induction sched as [|i sched IH]; intros D v Hval Hlen Hinv.
  - exists v. split; [done|]. split; [done|].
    intros j [Hj|Hj]; [by apply elem_of_nil in Hj|by apply Hinv].
  - cbn [fold_left]. rewrite (mapstar_batch _ _ ys) by done. cbn [set_result].
    assert (Hi : i * cs < length ys) by (apply Hval; left).
    destruct (IH (λ k, k = i ∨ D k)
                (take (i * cs) v ++ (Some <$> take cs (drop (i * cs) ys))
                 ++ drop ((i + 1) * cs) v)) as (v' & Hfold & Hlen' & Hinv').
    + intros k Hk. apply Hval. by right.
    + by apply slice_length.
    + intros j Hj. rewrite slice_lookup by done.
      destruct (decide (j / cs = i)) as [|Hne]; [done|].
      destruct Hj as [|Hj]; [done|]. by apply Hinv.
    + exists v'. split; [done|]. split; [done|].
      intros j Hj. apply Hinv'. rewrite elem_of_cons in Hj. tauto.
Qed.

(** Whatever the order in which the batches come back, [pool.map] returns the
    results in the order of the input. *)
Lemma pool_map_ordered (processes : nat) (schedule : list nat) func xs ys :
  0 < processes → complete_schedule processes xs schedule →
  mapstar func xs = Ok ys →
  pool_map processes schedule func xs = Ok (Some <$> ys).
Proof.
  intros Hp Hsched Hys. unfold pool_map, complete_schedule in *.
  destruct (Nat.eqb_spec processes 0) as [|_]; [lia|]. cbv zeta.
  assert (Hlen : length xs = length ys)
    by (by eapply Forall2_length, mapstar_ok_iff).
  destruct xs as [|x xs'].
  { destruct ys; [|done]. cbn in Hsched.
    apply Permutation_nil_r in Hsched as ->. done. }
  set (xs := x :: xs') in *.
  set (cs := chunksize (length xs) processes) in *.
  assert (Hcs : 0 < cs) by (apply chunksize_pos; [simpl; lia|done]).
  destruct (fold_set_ok func xs ys cs schedule (λ _, False)
              (replicate (length xs) None)) as (v & -> & Hv & Hall); try done.
  - intros i Hi. rewrite Hsched, elem_of_seq in Hi. rewrite <-Hlen.
    apply get_tasks_length; [done|lia].
  - by rewrite length_replicate.
  - f_equal. apply list_eq. intros j.
    destruct (decide (j < length ys)) as [Hj|Hj].
    + apply Hall. left. rewrite Hsched, elem_of_seq. split; [lia|].
      apply get_tasks_length; [done|]. rewrite Hlen.
      pose proof (Nat.div_mod_eq j cs). lia.
    + rewrite !lookup_ge_None_2; [done|rewrite length_fmap; lia|lia].
Qed.

Lemma fold_set_failed func (tasks : list (list A)) (cs : nat)
    (sched : list nat) (e : exn) :
  fold_left (λ st i, set_result cs i (mapstar func (nth i tasks [])) st)
    sched (inr e) = inr e.
Proof. by induction sched. Qed.

Lemma fold_set_raise func (tasks : list (list A)) (cs i0 : nat)
    (sched : list nat) (st : @map_result B) :
  i0 ∈ sched → (∃ e, mapstar func (nth i0 tasks []) = Raise e) →
  ∃ e, fold_left (λ st i, set_result cs i (mapstar func (nth i tasks [])) st)
         sched st = inr e.
Proof.
  intros Hin [e0 He0]. revert st.
  induction sched as [|i sched IH]; intros st; [by apply elem_of_nil in Hin|].
  cbn [fold_left]. apply elem_of_cons in Hin as [<-|Hin]; [|by apply IH].
  rewrite He0. destruct st as [v|e]; cbn [set_result];
    rewrite fold_set_failed; by eauto.
Qed.

Lemma fold_set_origin func (tasks : list (list A)) (cs : nat)
    (sched : list nat) (v : list (option B)) (e : exn) :
  fold_left (λ st i, set_result cs i (mapstar func (nth i tasks [])) st)
    sched (inl v) = inr e →
  ∃ i, mapstar func (nth i tasks []) = Raise e.
Proof.
  revert v. induction sched as [|i sched IH]; intros v; [done|].
  cbn [fold_left].
  destruct (mapstar func (nth i tasks [])) as [ys|e'] eqn:Hi; cbn [set_result].
  - apply IH.
  - rewrite fold_set_failed. intros [= <-]. by exists i.
Qed.

(** When the function fails on an item, [pool.map] raises, and what it raises
    is the failure of some item. *)
Lemma pool_map_raises (processes : nat) (schedule : list nat) func xs
    (x : A) (e0 : exn) :
  0 < processes → complete_schedule processes xs schedule →
  x ∈ xs → func x = Raise e0 →
  ∃ e, pool_map processes schedule func xs = Raise e
       ∧ ∃ x', x' ∈ xs ∧ func x' = Raise e.
Proof.
  intros Hp Hsched Hx He0. unfold pool_map, complete_schedule in *.
  destruct (Nat.eqb_spec processes 0) as [|_]; [lia|]. cbv zeta.
  set (cs := chunksize (length xs) processes) in *.
  assert (Hcs : 0 < cs).
  { apply chunksize_pos; [|done]. destruct xs; [by apply elem_of_nil in Hx|simpl; lia]. }
  apply list_elem_of_lookup in Hx as [j Hj].
  assert (Hjn : j < length xs) by (by eapply lookup_lt_Some).
  pose proof (Nat.div_mod_eq j cs) as Hdm.
  pose proof (Nat.mod_upper_bound j cs ltac:(lia)) as Hmod.
  destruct (fold_set_raise func (get_tasks cs xs) cs (j / cs) schedule
              (inl (replicate (length xs) None))) as [e He].
  - rewrite Hsched, elem_of_seq. split; [lia|].
    apply get_tasks_length; [done|]. lia.
  - apply mapstar_raise_iff. exists x, e0. split; [|done].
    rewrite get_tasks_nth by done.
    apply list_elem_of_lookup. exists (j mod cs).
    rewrite lookup_take_lt, lookup_drop by done. rewrite <-Hj. f_equal. lia.
  - exists e. rewrite He. split; [done|].
    apply fold_set_origin in He as [i Hi].
    apply mapstar_raise_origin in Hi as (x' & Hin & Hx').
    exists x'. split; [|done].
    destruct (decide (i < length (get_tasks cs xs))) as [Hlt|Hge].
    + rewrite get_tasks_nth in Hin by done.
      eapply elem_of_sublist; [done|].
      etrans; [apply sublist_take|apply sublist_drop].
    + rewrite nth_overflow in Hin by lia. by apply elem_of_nil in Hin.
Qed.

End PoolFacts.

(** ** Files *)

Section FileFacts.
Import Fs Text.

Lemma resolve_dir (fuel : nat) (fs : FS) (p q : path) :
  resolve fuel fs p = Ok q → ∃ l, fs !! q.1 = Some (EDir l).
Proof.
  revert p. induction fuel as [|fuel IH]; intros p; cbn [resolve];
    destruct (fs !! p.1) as [[|l]|] eqn:Hd; try done;
    destruct (l !! p.2) as [[c|target]|]; try done;
    try (intros [= <-]; by eauto).
  apply IH.
Qed.

Lemma open_r_inv (fs fs' : FS) (p q : path) :
  open_r p fs = (fs', Ok q) → fs' = fs ∧ is_regular fs q = true.
Proof.
  unfold open_r. destruct (resolve MAXSYMLINKS fs p) as [q'|e]; [|done].
  destruct (is_regular fs q') eqn:Hr; [|done]. intros [= <- <-]. done.
Qed.

Lemma open_w_inv (fs fs' : FS) (p q : path) :
  open_w p fs = (fs', Ok q) →
  fs' = set_content q [] fs ∧ ∃ l, fs !! q.1 = Some (EDir l).
Proof.
  unfold open_w. destruct (resolve MAXSYMLINKS fs p) as [q'|e] eqn:Hr; [|done].
  intros [= <- <-]. split; [done|]. by eapply resolve_dir.
Qed.

Lemma content_set_eq (fs : FS) (q : path) (c : pystr) (l : gmap string leaf) :
  fs !! q.1 = Some (EDir l) → content (set_content q c fs) q = c.
Proof.
  intros Hd. unfold content, set_content. rewrite Hd.
  by rewrite !lookup_insert_eq.
Qed.

Lemma content_set_ne (fs : FS) (q q' : path) (c : pystr) :
  q' ≠ q → content (set_content q c fs) q' = content fs q'.
Proof.
  intros Hne. unfold content, set_content.
  destruct (fs !! q.1) as [[|l]|] eqn:Hd; try done.
  destruct (decide (q'.1 = q.1)) as [Heq|Hdir].
  - rewrite Heq, lookup_insert_eq, Hd.
    rewrite lookup_insert_ne; [done|].
    intros Hn. apply Hne. destruct q, q'; simpl in *; congruence.
  - by rewrite lookup_insert_ne.
Qed.

Lemma set_content_dir (fs : FS) (q : path) (c : pystr) (l : gmap string leaf) :
  fs !! q.1 = Some (EDir l) →
  set_content q c fs !! q.1 = Some (EDir (<[q.2 := Regular c]> l)).
Proof. intros Hd. unfold set_content. by rewrite Hd, lookup_insert_eq. Qed.

Lemma set_content_twice (fs : FS) (q : path) (c1 c2 : pystr) :
  set_content q c2 (set_content q c1 fs) = set_content q c2 fs.
Proof.
  unfold set_content at 1 3.
  destruct (fs !! q.1) as [[|l]|] eqn:Hd.
  - unfold set_content. by rewrite Hd, Hd.
  - rewrite (set_content_dir _ _ _ l) by done.
    unfold set_content. rewrite Hd.
    by rewrite insert_insert_eq, insert_insert_eq.
  - unfold set_content. by rewrite Hd, Hd.
Qed.

(** Writing rows one after the other appends them, each with its line end. *)
Lemma write_rows (f : path) (rows : list pystr) (fs : FS) (l : gmap string leaf) :
  fs !! f.1 = Some (EDir l) →
  for_each (Some <$> rows) (Search.write_row f) fs
  = (match rows with
     | [] => fs
     | _ => set_content f (content fs f ++ concat ((λ r, r ++ [LF]) <$> rows)) fs
     end, Ok tt).
Proof.
  revert fs l. induction rows as [|r rows IH]; intros fs l Hd; [done|].
  cbn [fmap list_fmap for_each]. unfold bind at 1.
  cbn [Search.write_row]. unfold write at 1.
  rewrite (IH _ (<[f.2 := Regular (content fs f ++ r ++ [LF])]> l))
    by (by apply set_content_dir).
  destruct rows as [|r' rows]; [cbn [fmap list_fmap concat]; by rewrite app_nil_r|].
  rewrite set_content_twice, (content_set_eq _ _ _ l) by done.
  cbn [fmap list_fmap concat]. by rewrite <-!app_assoc.
Qed.

Lemma readlines_go_line (acc r rest : pystr) :
  no_break r →
  readlines_go acc (r ++ LF :: rest) = (rev acc ++ r ++ [LF]) :: readlines_go [] rest.
Proof.
  intros Hr. revert acc. induction Hr as [|c r [Hc1 Hc2] _ IH]; intros acc.
  - cbn [app readlines_go]. by rewrite N.eqb_refl.
  - cbn [app readlines_go].
    destruct (N.eqb_spec c LF) as [|_]; [done|].
    destruct (N.eqb_spec c CR) as [|_]; [done|].
    rewrite IH. cbn [rev]. by rewrite <-app_assoc.
Qed.

(** A text made of rows without line breaks inside reads back as those
    rows. *)
Lemma readlines_rows (rows : list pystr) :
  Forall no_break rows →
  readlines (concat ((λ r, r ++ [LF]) <$> rows)) = (λ r, r ++ [LF]) <$> rows.
Proof.
  unfold readlines. induction 1 as [|r rows Hr _ IH]; [done|].
  cbn [fmap list_fmap concat]. rewrite <-app_assoc. cbn [app].
  by rewrite readlines_go_line, IH.
Qed.

End FileFacts.

(** ** What the encoder prints *)

Section EncoderFacts.
Import Text Json.

Lemma ascii_text_no_break (s : pystr) : ascii_text s → no_break s.
Proof.
  intros Hs. eapply Forall_impl; [exact Hs|].
  intros c Hc. unfold printable, LF, CR in *.
  apply andb_true_iff in Hc as [H1%N.leb_le _]. lia.
Qed.

Lemma value_induction (P : value → Prop) :
  P JNull → (∀ b, P (JBool b)) → (∀ n, P (JInt n)) → (∀ lit, P (JFloat lit)) →
  (∀ s, P (JStr s)) →
  (∀ items, Forall P items → P (JArr items)) →
  (∀ items, Forall (λ kv, P kv.2) items → P (JObj items)) →
  ∀ v, P v.
Proof.
  intros Hnull Hbool Hint Hfloat Hstr Harr Hobj.
  exact (fix IH (v : value) : P v :=
    match v with
    | JNull => Hnull
    | JBool b => Hbool b
    | JInt n => Hint n
    | JFloat lit => Hfloat lit
    | JStr s => Hstr s
    | JArr items =>
        Harr items
          ((fix go (l : list value) : Forall P l :=
              match l with
              | [] => Forall_nil_2 P
              | x :: l' => Forall_cons_2 P x l' (IH x) (go l')
              end) items)
    | JObj items =>
        Hobj items
          ((fix go (l : list (pystr * value)) : Forall (λ kv, P kv.2) l :=
              match l with
              | [] => Forall_nil_2 _
              | kv :: l' => Forall_cons_2 (λ kv, P kv.2) kv l' (IH kv.2) (go l')
              end) items)
    end).
Qed.

Lemma land_15 (n : N) : (N.land n 15 < 16)%N.
Proof.
  change 15%N with (N.ones 4). rewrite N.land_ones. by apply N.mod_lt.
Qed.

Lemma hex_char_printable (d : N) : (d < 16)%N → printable (hex_char d) = true.
Proof.
  intros Hd. unfold hex_char, printable.
  destruct (N.ltb_spec d 10); apply andb_true_iff; rewrite !N.leb_le; lia.
Qed.

Lemma escape_u_ascii (n : N) : ascii_text (escape_u n).
Proof.
  unfold escape_u. repeat constructor; apply hex_char_printable, land_15.
Qed.

Lemma escape_char_ascii (c : N) : ascii_text (escape_char c).
Proof.
  unfold escape_char.
  repeat (match goal with |- ascii_text (if ?b then _ else _) =>
            destruct b eqn:?; [by repeat constructor|] end).
  destruct (c <? 65536)%N; [apply escape_u_ascii|].
  apply Forall_app. split; apply escape_u_ascii.
Qed.

Lemma encode_basestring_ascii_ascii (s : pystr) :
  ascii_text (encode_basestring_ascii s).
Proof.
  unfold encode_basestring_ascii. constructor; [done|].
  apply Forall_app. split; [|by repeat constructor].
  apply Forall_concat, Forall_fmap, Forall_true. apply escape_char_ascii.
Qed.

Lemma join_ascii (sep : pystr) (parts : list pystr) :
  ascii_text sep → Forall ascii_text parts → ascii_text (join sep parts).
Proof.
  intros Hsep. induction 1 as [|p ps Hp Hps IH]; [constructor|].
  cbn [join]. destruct ps as [|p' ps]; [done|].
  apply Forall_app. split; [done|]. apply Forall_app. by split.
Qed.

Lemma string_of_uint_ascii (d : Decimal.uint) :
  ascii_text (N_of_ascii <$> String.list_ascii_of_string
                                (DecimalString.NilEmpty.string_of_uint d)).
Proof. induction d; cbn; by repeat constructor. Qed.

Lemma str_of_int_ascii (n : Z) : ascii_text (str_of_int n).
Proof.
  unfold str_of_int, DecimalString.NilZero.string_of_int,
    DecimalString.NilZero.string_of_uint.
  destruct (Z.to_int n) as [d|d].
  - destruct d; try apply string_of_uint_ascii. by repeat constructor.
  - cbn [String.list_ascii_of_string fmap list_fmap].
    constructor; [done|].
    destruct d; try apply string_of_uint_ascii. by repeat constructor.
Qed.

Section Dumps.
Variable float_repr : pystr → pystr.
Variable max_depth : nat.
Hypothesis float_repr_ascii : ∀ lit, ascii_text (float_repr lit).

Lemma dumps_ascii (v : value) : ascii_text (dumps float_repr v).
Proof.
  induction v as [|[]| | | |items IH|items IH] using value_induction;
    cbn [dumps]; try by repeat constructor.
  - apply str_of_int_ascii.
  - apply encode_basestring_ascii_ascii.
  - constructor; [done|]. apply Forall_app. split; [|by repeat constructor].
    apply join_ascii; [by repeat constructor|].
    rewrite Forall_forall in IH. apply Forall_forall.
    intros p (x & <- & Hx)%list_elem_of_In%in_map_iff.
    apply IH. by apply list_elem_of_In.
  - constructor; [done|]. apply Forall_app. split; [|by repeat constructor].
    apply join_ascii; [by repeat constructor|].
    rewrite Forall_forall in IH. apply Forall_forall.
    intros p ([k x] & <- & Hx)%list_elem_of_In%in_map_iff. cbn [fst snd].
    apply Forall_app. split; [apply encode_basestring_ascii_ascii|].
    apply Forall_app. split; [by repeat constructor|].
    apply (IH (k, x)). by apply list_elem_of_In.
Qed.

Lemma process_jsonl_line_ascii (line row : pystr) :
  Topic.process_jsonl_line float_repr max_depth line = Ok row → ascii_text row.
Proof.
  unfold Topic.process_jsonl_line, bind_result.
  destruct (loads max_depth line) as [obj|]; [|done].
  destruct (Topic.getitem obj "id") as [id|]; [|done].
  destruct (Topic.getitem obj "contents") as [contents|]; [|done].
  intros <-%Ok_inj. apply dumps_ascii.
Qed.

End Dumps.

End EncoderFacts.

(** ** [process_jsonl_line] *)

Section TopicFacts.
Import Text Json Topic.
Variable float_repr : pystr → pystr.
Variable max_depth : nat.

Lemma getitem_some (d : list (pystr * value)) (key : string) (v : value) :
  dict_get d (py key) = Some v → getitem (JObj d) key = Ok v.
Proof. unfold getitem. by intros ->. Qed.


(** The dictionary [{"id": ..., "title": ...}] holds those two keys. *)
Lemma topic_dict (id contents : value) :
  dict_of_pairs [(py "id", id); (py "title", contents)]
  = [(py "id", id); (py "title", contents)].
Proof. reflexivity. Qed.



Lemma deep_brackets (d fuel : nat) (rest : pystr) :
  2 * d < fuel →
  scan_once fuel d (replicate (S d) 91%N ++ rest) = Raise RecursionError.
Proof.
  revert fuel. induction d as [|d IH]; intros fuel Hf.
  - destruct fuel as [|fuel]; [lia|]. reflexivity.
  - destruct fuel as [|[|fuel]]; [lia..|].
    cbn [replicate app scan_once].
    change (91 =? 34)%N with false. change (91 =? 123)%N with false.
    change (91 =? 91)%N with true. cbv iota.
    change (skip_ws (91%N :: ?r)) with (91%N :: r).
    change (91 =? 93)%N with false. cbv iota.
    cbn [array_items].
    change (91%N :: replicate d 91%N ++ rest)
      with (replicate (S d) 91%N ++ rest).
    rewrite IH by lia. reflexivity.
Qed.

End TopicFacts.

(** C9, as the specification states it, does not hold: whatever room the
    interpreter leaves for nesting, there is a line that is not JSON, one
    opening bracket more than the room, for which the transform raises
    [RecursionError], which is neither a decode error nor a missing key. *)
Lemma process_jsonl_line_deep_line :
  ¬ ∃ (float_repr : pystr → pystr) (max_depth : nat),
      ∀ (line : pystr) (e : exn),
        Topic.process_jsonl_line float_repr max_depth line = Raise e →
        e = JSONDecodeError ∨ ∃ key, e = KeyError key.
Proof.
  intros (float_repr & max_depth & Hclaim).
  destruct (Hclaim (replicate (S max_depth) 91%N) RecursionError)
    as [H|[key H]]; [|done..].
  unfold Topic.process_jsonl_line, Json.loads, Json.loads_fuel.
  change (Json.skip_ws (replicate (S max_depth) 91%N))
    with (replicate (S max_depth) 91%N).
  rewrite <-(app_nil_r (replicate (S max_depth) 91%N)) at 2.
  rewrite deep_brackets; [done|]. rewrite length_replicate. lia.
Qed.

(** ** [convert_jsonl_for_search] *)

Section SearchFacts.
Import Fs Text Pool Search.
Variable float_repr : pystr → pystr.
Variable max_depth : nat.

Abbreviation process := (Topic.process_jsonl_line float_repr max_depth).
Abbreviation convert := (convert_with_pool float_repr max_depth).
Abbreviation with_LF := (λ r : pystr, r ++ [LF]).

(** The output file right after it has been opened: there, and empty. *)
Lemma open_w_empty (fs fs1 : FS) (p f_out : path) :
  open_w p fs = (fs1, Ok f_out) →
  is_regular fs1 f_out = true ∧ content fs1 f_out = []
  ∧ ∃ l, fs1 !! f_out.1 = Some (EDir l).
Proof.
  intros [-> [l Hl]]%open_w_inv. split; [|split].
  - unfold is_regular. rewrite (set_content_dir _ _ _ l) by done.
    by rewrite lookup_insert_eq.
  - by eapply content_set_eq.
  - eexists. by apply set_content_dir.
Qed.

(** The run up to the call of the pool. *)
Lemma convert_unfold (processes : nat) (schedule : list nat)
    (jsonl_file output_path f_in f_out : path) (fs fs1 : FS) :
  (open_r jsonl_file fs).2 = Ok f_in →
  open_w output_path fs = (fs1, Ok f_out) →
  convert processes schedule jsonl_file output_path fs
  = match pool_map processes schedule process (readlines (content fs1 f_in)) with
    | Ok results => for_each results (write_row f_out) fs1
    | Raise e => (fs1, Raise e)
    end.
Proof.
  intros Hin Hout. unfold convert_with_pool.
  destruct (open_r jsonl_file fs) as [fs0 r] eqn:Hr. simpl in Hin. subst r.
  apply open_r_inv in Hr as Hfs. destruct Hfs as [-> _].
  rewrite (bind_ok _ _ fs fs f_in) by done.
  rewrite (bind_ok _ _ fs fs1 f_out) by done.
  rewrite (bind_ok _ _ fs1 fs1 (readlines (content fs1 f_in))) by done.
  unfold bind, lift. by destruct (pool_map _ _ _ _).
Qed.

(** When every line can be transformed, the rows are written in the order of
    the lines, whatever the pool and its schedule. *)
Lemma convert_all_lines (processes : nat) (schedule : list nat)
    (jsonl_file output_path f_in f_out : path) (fs fs1 : FS) (rows : list pystr) :
  0 < processes →
  (open_r jsonl_file fs).2 = Ok f_in →
  open_w output_path fs = (fs1, Ok f_out) →
  complete_schedule processes (readlines (content fs1 f_in)) schedule →
  mapstar process (readlines (content fs1 f_in)) = Ok rows →
  convert processes schedule jsonl_file output_path fs
  = (match rows with
     | [] => fs1
     | _ => set_content f_out (concat (with_LF <$> rows)) fs1
     end, Ok tt).
Proof.
  intros Hp Hin Hout Hsched Hrows.
  rewrite (convert_unfold _ _ _ _ f_in f_out fs fs1) by done.
  rewrite (pool_map_ordered _ _ _ _ rows) by done.
  apply open_w_empty in Hout as (_ & Hempty & [l Hl]).
  rewrite (write_rows _ _ _ l) by done. by rewrite Hempty.
Qed.

(** When a line cannot be transformed, the run stops before the first write. *)
Lemma convert_failing (processes : nat) (schedule : list nat)
    (jsonl_file output_path f_in f_out : path) (fs fs1 : FS)
    (x : pystr) (e0 : exn) :
  0 < processes →
  (open_r jsonl_file fs).2 = Ok f_in →
  open_w output_path fs = (fs1, Ok f_out) →
  complete_schedule processes (readlines (content fs1 f_in)) schedule →
  x ∈ readlines (content fs1 f_in) → process x = Raise e0 →
  ∃ e, convert processes schedule jsonl_file output_path fs = (fs1, Raise e)
       ∧ ∃ x', x' ∈ readlines (content fs1 f_in) ∧ process x' = Raise e.
Proof.
  intros Hp Hin Hout Hsched Hx He0.
  rewrite (convert_unfold _ _ _ _ f_in f_out fs fs1) by done.
  destruct (pool_map_raises processes schedule process
              (readlines (content fs1 f_in)) x e0)
    as (e & -> & Horigin); try done.
  by exists e.
Qed.


Lemma content_written (fs1 : FS) (f_out : path) (rows : list pystr) :
  content fs1 f_out = [] → (∃ l, fs1 !! f_out.1 = Some (EDir l)) →
  content (match rows with
           | [] => fs1
           | _ => set_content f_out (concat (with_LF <$> rows)) fs1
           end) f_out = concat (with_LF <$> rows).
Proof.
  intros Hempty [l Hl]. destruct rows; [done|]. by eapply content_set_eq.
Qed.


(** C6, as the code has it. The rows are written in the order of the lines
    they come from, for every size of the pool and every schedule: the output
    file is the rows of the input lines, one after the other, and its line
    number [i] is the transform of the input line number [i]. *)
Theorem convert_keeps_order (processes : nat) (schedule : list nat)
    (jsonl_file output_path f_in f_out : path) (fs fs1 fs2 : FS) :
  (∀ lit, ascii_text (float_repr lit)) →
  0 < processes →
  (open_r jsonl_file fs).2 = Ok f_in →
  open_w output_path fs = (fs1, Ok f_out) →
  complete_schedule processes (readlines (content fs1 f_in)) schedule →
  convert processes schedule jsonl_file output_path fs = (fs2, Ok tt) →
  ∃ rows,
    mapstar process (readlines (content fs1 f_in)) = Ok rows
    ∧ content fs2 f_out = concat (with_LF <$> rows)
    ∧ ∀ i l, readlines (content fs1 f_in) !! i = Some l →
        ∃ r, process l = Ok r
             ∧ readlines (content fs2 f_out) !! i = Some (r ++ [LF]).
Proof.
  intros Hfloat Hp Hin Hout Hsched Hrun.
  pose proof (open_w_empty _ _ _ _ Hout) as (_ & Hempty & Hdir).
  destruct (mapstar process (readlines (content fs1 f_in))) as [rows|e] eqn:Hrows.
  - exists rows. split; [done|].
    rewrite (convert_all_lines _ _ _ _ f_in f_out fs fs1 rows) in Hrun by done.
    injection Hrun as <-. rewrite content_written by done. split; [done|].
    apply mapstar_ok_iff in Hrows. intros i l Hl.
    destruct (Forall2_lookup_l _ _ _ _ _ Hrows Hl) as (r & Hr & Hlr).
    exists r. split; [done|]. rewrite readlines_rows.
    + by rewrite list_lookup_fmap, Hr.
    + apply Forall_forall. intros r' Hr'.
      apply list_elem_of_lookup in Hr' as [j Hj].
      destruct (Forall2_lookup_r _ _ _ _ _ Hrows Hj) as (l' & _ & Hl').
      by eapply ascii_text_no_break, process_jsonl_line_ascii.
  - apply mapstar_raise_origin in Hrows as (x & Hx & He).
    destruct (convert_failing processes schedule jsonl_file output_path
                f_in f_out fs fs1 x e) as (e' & Hfail & _); try done.
    congruence.
Qed.

(** C10. When a line cannot be transformed, the run raises, the exception
    being the failure of some line, and it leaves the tree as it was right
    after the output file was opened: that file is there and holds nothing. *)
Theorem convert_failure_writes_nothing (processes : nat) (schedule : list nat)
    (jsonl_file output_path f_in f_out : path) (fs fs1 : FS)
    (x : pystr) (e0 : exn) :
  0 < processes →
  (open_r jsonl_file fs).2 = Ok f_in →
  open_w output_path fs = (fs1, Ok f_out) →
  complete_schedule processes (readlines (content fs1 f_in)) schedule →
  x ∈ readlines (content fs1 f_in) → process x = Raise e0 →
  ∃ e, convert processes schedule jsonl_file output_path fs = (fs1, Raise e)
       ∧ (∃ x', x' ∈ readlines (content fs1 f_in) ∧ process x' = Raise e)
       ∧ is_regular fs1 f_out = true
       ∧ content fs1 f_out = []
       ∧ readlines (content fs1 f_out) = [].
Proof.
  intros Hp Hin Hout Hsched Hx He0.
  destruct (convert_failing processes schedule jsonl_file output_path
              f_in f_out fs fs1 x e0) as (e & Hfail & Horigin); try done.
  pose proof (open_w_empty _ _ _ _ Hout) as (Hreg & Hempty & _).
  exists e. rewrite Hempty. done.
Qed.

End SearchFacts.

(** C6, as the specification states it, does not hold: there is no input and
    no schedule of the pool for which the output file is anything but the
    rows of the input lines in the order of the input. *)
Lemma convert_order_never_differs :
  ¬ ∃ (float_repr : pystr → pystr) (max_depth processes : nat)
      (schedule : list nat)
      (jsonl_file output_path f_in f_out : Fs.path) (fs fs1 fs2 : Fs.FS)
      (rows : list pystr),
      0 < processes
      ∧ (Fs.open_r jsonl_file fs).2 = Ok f_in
      ∧ Fs.open_w output_path fs = (fs1, Ok f_out)
      ∧ Pool.complete_schedule processes
          (Text.readlines (Fs.content fs1 f_in)) schedule
      ∧ Forall2 (λ l r, Topic.process_jsonl_line float_repr max_depth l = Ok r)
          (Text.readlines (Fs.content fs1 f_in)) rows
      ∧ Search.convert_with_pool float_repr max_depth processes schedule
          jsonl_file output_path fs = (fs2, Ok tt)
      ∧ Fs.content fs2 f_out ≠ concat ((λ r, r ++ [Text.LF]) <$> rows).
Proof.
  intros (float_repr & max_depth & processes & schedule & jsonl_file
          & output_path & f_in
          & f_out & fs & fs1 & fs2 & rows & Hp & Hin & Hout & Hsched & Hrows
          & Hrun & Hdiff).
  apply Hdiff. apply mapstar_ok_iff in Hrows.
  pose proof (open_w_empty _ _ _ _ Hout) as (_ & Hempty & Hdir).
  rewrite (convert_all_lines float_repr max_depth _ _ _ _ f_in f_out fs fs1 rows) in Hrun
    by done.
  injection Hrun as <-. by apply content_written.
Qed.

(** C5, as the specification states it, does not hold for every input
    file: when the output path names the input file itself, here through a
    link of the staging directory, the two lines of the input can both be
    transformed and the run ends well, and yet the output file holds no line,
    the file having been emptied before it was read. *)
Lemma convert_line_count_same_file :
  let shard := ("text-collection", "validation.text.jsonl") in
  let staged_name := ("text-collection.base", "validation.text.jsonl") in
  let run :=
    Search.convert_jsonl_for_search Example.float_repr Example.max_depth [0]
      staged_name shard Example.staged in
  (Fs.open_r staged_name Example.staged).2 = Ok shard
  ∧ (Fs.open_w shard Example.staged).2 = Ok shard
  ∧ Forall (λ l, is_ok (Topic.process_jsonl_line Example.float_repr
                          Example.max_depth l) = true)
      (Text.readlines (Fs.content Example.staged shard))
  ∧ length (Text.readlines (Fs.content Example.staged shard)) = 2
  ∧ run.2 = Ok tt
  ∧ length (Text.readlines (Fs.content run.1 shard)) = 0
  ∧ length (Text.readlines (Fs.content run.1 shard))
    ≠ length (Text.readlines (Fs.content Example.staged shard)).
Proof.
  cbv zeta.
  split; [vm_compute; reflexivity|]. split; [vm_compute; reflexivity|].
  assert (Hlines :
    Text.readlines
      (Fs.content Example.staged ("text-collection", "validation.text.jsonl"))
    = [ Text.py "{'id': 'x1', 'contents': 'a caption'}" ++ [Text.LF];
        Text.py "{'id': 'x2', 'contents': 'one more', 'extra': [1, 2.5]}"
        ++ [Text.LF] ]) by (vm_compute; reflexivity).
  rewrite Hlines.
  split.
  { apply Forall_cons_2; [vm_compute; reflexivity|].
    apply Forall_cons_2; [vm_compute; reflexivity|]. apply Forall_nil_2. }
  split; [reflexivity|]. split; [vm_compute; reflexivity|].
  split; [vm_compute; reflexivity|]. vm_compute. discriminate.
Qed.

(** ** [prep_qrels] *)

Section QrelsFacts.
Import Fs Text Qrels.

Lemma csv_line_four (a b c d : cell) :
  csv_line [a; b; c; d]
  = csv_field a ++ [SEP] ++ csv_field b ++ [SEP] ++ csv_field c ++ [SEP]
    ++ csv_field d ++ [LF].
Proof. destruct a as [[|]|]; cbn [csv_line Json.join fmap list_fmap]; by rewrite <-!app_assoc. Qed.

Lemma project_swap (rs : list (list cell)) :
  Forall (λ row, length row = 4) rs →
  project ["text_id"; "Q0"; "image_id"; "rel"]
    ["image_id"; "Q0"; "text_id"; "rel"] rs = Ok (swap_ids <$> rs).
Proof.
  induction 1 as [|row rs Hrow _ IH]; [done|].
  destruct row as [|a [|q [|b [|r [|]]]]]; try done.
  cbn [project]. rewrite IH. reflexivity.
Qed.

Lemma to_csv_plain (ds : dataset) (p : path) (columns : option (list string))
    (text : pystr) (fs : FS) (l : gmap string leaf) :
  fs !! p.1 = Some (EDir l) → (∀ t, l !! p.2 ≠ Some (Link t)) →
  csv_text ds columns = Ok text →
  to_csv ds p columns fs = (set_content p text fs, Ok tt).
Proof.
  intros Hd Hl Htext. unfold to_csv.
  assert (Hopen : open_w p fs = (set_content p [] fs, Ok p)).
  { unfold open_w, MAXSYMLINKS. cbn [resolve]. rewrite Hd.
    destruct (l !! p.2) as [[c|t]|] eqn:Hn; try done. by destruct (Hl t). }
  rewrite (bind_ok _ _ _ _ _ Hopen).
  rewrite (bind_ok _ _ _ (set_content p [] fs) text)
    by (unfold lift; by rewrite Htext).
  unfold write. rewrite (content_set_eq _ _ _ l) by done.
  by rewrite set_content_twice.
Qed.

Lemma paths_differ (split : string) : i2t_path split ≠ t2i_path split.
Proof.
  unfold i2t_path, t2i_path. intros [= H].
  apply (inj (String.app split)) in H. discriminate.
Qed.

Variable load_dataset : string → string → result dataset.

(** C3, as the code has it. For a dataset whose columns are [text_id], [Q0],
    [image_id], [rel] in that order, the t2i file holds the records as they
    are, one header-less line of space-separated fields each, and the i2t
    file holds them with the columns picked as [image_id], [Q0], [text_id],
    [rel]: the same lines with the two identifiers exchanged. The record of
    the example gives [t1 Q0 i1 1] in the t2i file and [i1 Q0 t1 1] in the
    i2t file. *)
Theorem prep_qrels_projections (qrels_ds split : string) (fs : FS) (ds : dataset) :
  plain_dir fs "qrels" →
  load_dataset qrels_ds split = Ok ds →
  column_names ds = ["text_id"; "Q0"; "image_id"; "rel"] →
  Forall (λ row, length row = 4) (rows ds) →
  ∃ fs',
    prep_qrels load_dataset qrels_ds split fs = (fs', Ok tt)
    ∧ content fs' (t2i_path split) = concat (csv_line <$> rows ds)
    ∧ content fs' (i2t_path split)
      = concat ((λ row, csv_line (swap_ids row)) <$> rows ds)
    ∧ (∀ t q i r : cell,
         csv_line [t; q; i; r]
         = csv_field t ++ [SEP] ++ csv_field q ++ [SEP] ++ csv_field i
           ++ [SEP] ++ csv_field r ++ [LF]
         ∧ csv_line (swap_ids [t; q; i; r])
           = csv_field i ++ [SEP] ++ csv_field q ++ [SEP] ++ csv_field t
             ++ [SEP] ++ csv_field r ++ [LF])
    ∧ csv_line [CStr (py "t1"); CStr (py "Q0"); CStr (py "i1"); CInt 1]
      = py "t1 Q0 i1 1" ++ [LF]
    ∧ csv_line (swap_ids [CStr (py "t1"); CStr (py "Q0"); CStr (py "i1"); CInt 1])
      = py "i1 Q0 t1 1" ++ [LF].
Proof.
  intros Hplain Hload Hcols Hrows. unfold prep_qrels.
  assert (Hmk : ∃ fsA l, mkdir_exist_ok "qrels" fs = (fsA, Ok tt)
                         ∧ fsA !! "qrels" = Some (EDir l)
                         ∧ ∀ n t, l !! n ≠ Some (Link t)).
  { unfold plain_dir in Hplain. unfold mkdir_exist_ok.
    destruct (fs !! "qrels") as [[|l]|] eqn:Hq; [done|..].
    - exists fs, l. by rewrite Hq.
    - exists (<["qrels" := EDir ∅]> fs), ∅.
      rewrite lookup_insert_eq. split; [done|]. split; [done|].
      intros n t. by rewrite lookup_empty. }
  destruct Hmk as (fsA & l & Hmk & HdA & HlA).
  rewrite (bind_ok _ _ _ _ _ Hmk).
  rewrite (bind_ok _ _ fsA fsA ds) by (unfold lift; by rewrite Hload).
  rewrite (bind_ok _ _ fsA (set_content (t2i_path split)
                              (concat (csv_line <$> rows ds)) fsA) tt)
    by (by eapply to_csv_plain).
  set (text := concat (csv_line <$> rows ds)).
  set (fsB := set_content (t2i_path split) text fsA).
  assert (HdB : fsB !! "qrels"
                = Some (EDir (<[(t2i_path split).2 := Regular text]> l)))
    by (by apply (set_content_dir fsA (t2i_path split))).
  rewrite (to_csv_plain ds (i2t_path split) _
             (concat (csv_line <$> (swap_ids <$> rows ds))) fsB _ HdB).
  - eexists. split; [done|]. split; [|split; [|split; [|split]]].
    + rewrite content_set_ne by (intros H; by apply (paths_differ split)).
      by apply (content_set_eq fsA (t2i_path split) _ l).
    + rewrite (content_set_eq fsB (i2t_path split) _ _ HdB).
      by rewrite <-list_fmap_compose.
    + intros t q i r. split; apply csv_line_four.
    + reflexivity.
    + reflexivity.
  - intros t Ht. apply lookup_insert_Some in Ht as [[_ [=]]|[_ Ht]].
    by apply HlA in Ht.
  - unfold csv_text. by rewrite Hcols, project_swap.
Qed.

End QrelsFacts.

(** C3, as the specification states it, does not hold. For the record of the
    example, the t2i file would hold [i1 Q0 t1 1] and the i2t file the same
    line with the identifiers exchanged. With the columns of the dataset in
    the order [text_id], [Q0], [image_id], [rel], it is the i2t file that
    holds [i1 Q0 t1 1]; and were the columns in the order [image_id], [Q0],
    [text_id], [rel], both files would hold that same line. *)
Lemma prep_qrels_files_example :
  let t2i := Qrels.t2i_path "validation" in
  let i2t := Qrels.i2t_path "validation" in
  let one := Text.py in
  let ds_text_first :=
    {| Qrels.column_names := ["text_id"; "Q0"; "image_id"; "rel"];
       Qrels.rows := [[Qrels.CStr (one "t1"); Qrels.CStr (one "Q0");
                       Qrels.CStr (one "i1"); Qrels.CInt 1]] |} in
  let ds_image_first :=
    {| Qrels.column_names := ["image_id"; "Q0"; "text_id"; "rel"];
       Qrels.rows := [[Qrels.CStr (one "i1"); Qrels.CStr (one "Q0");
                       Qrels.CStr (one "t1"); Qrels.CInt 1]] |} in
  let run ds := (Qrels.prep_qrels (λ _ _, Ok ds) "qrels-dataset" "validation" ∅).1 in
  let as_stated fs :=
    Fs.content fs t2i = one "i1 Q0 t1 1" ++ [Text.LF]
    ∧ Fs.content fs i2t = one "t1 Q0 i1 1" ++ [Text.LF] in
  (Fs.content (run ds_text_first) t2i = one "t1 Q0 i1 1" ++ [Text.LF]
   ∧ Fs.content (run ds_text_first) i2t = one "i1 Q0 t1 1" ++ [Text.LF]
   ∧ ¬ as_stated (run ds_text_first))
  ∧ (Fs.content (run ds_image_first) t2i = one "i1 Q0 t1 1" ++ [Text.LF]
     ∧ Fs.content (run ds_image_first) i2t = one "i1 Q0 t1 1" ++ [Text.LF]
     ∧ ¬ as_stated (run ds_image_first)).
Proof.
  cbv zeta. repeat split; try (vm_compute; reflexivity).
  - intros [H _]. vm_compute in H. discriminate.
  - intros [_ H]. vm_compute in H. discriminate.
Qed.

(** ** The properties at work on the small tree *)

Section Instances.
Import Fs Glob Index Text Json Topic Pool Search Qrels Example.

Lemma float_repr_ascii (lit : pystr) : ascii_text (float_repr lit).
Proof.
  unfold float_repr, ascii_text. induction lit as [|c lit IH]; [constructor|].
  rewrite filter_cons. destruct (decide (printable c = true)); [by constructor|done].
Qed.

Lemma listdir_text :
  listdir encoded "text-collection"
  = ["other.text.jsonl"; "validation.text.jsonl"; "test.text.jsonl";
     "train.text.jsonl"].
Proof. vm_compute. reflexivity. Qed.

Lemma create_index_selects_shards_witness :
  (∀ n, n ∈ listdir encoded "text-collection" → shard_name n)
  ∧ select "text-collection" "large" None encoded
    = Some (listdir encoded "text-collection")
  ∧ select "text-collection" "small" (Some "validation") encoded
    = Some ["validation.text.jsonl"]
  ∧ select "text-collection" "base" None encoded
    = Some ["train.text.jsonl"; "validation.text.jsonl"; "test.text.jsonl"].
Proof.
  assert (H : ∀ n, n ∈ listdir encoded "text-collection" → shard_name n).
  { intros n Hn. rewrite listdir_text in Hn.
    apply elem_of_cons in Hn as [->|Hn];
      [split; [reflexivity|exists "other"; split; [|reflexivity]];
       vm_compute; repeat constructor|].
    apply elem_of_cons in Hn as [->|Hn];
      [split; [reflexivity|exists "validation"; split; [|reflexivity]];
       vm_compute; repeat constructor|].
    apply elem_of_cons in Hn as [->|Hn];
      [split; [reflexivity|exists "test"; split; [|reflexivity]];
       vm_compute; repeat constructor|].
    apply elem_of_cons in Hn as [->|Hn];
      [split; [reflexivity|exists "train"; split; [|reflexivity]];
       vm_compute; repeat constructor|].
    by apply elem_of_nil in Hn. }
  split; [exact H|].
  split; [exact (proj1 (proj2 (create_index_selects_shards encoded
                                 "text-collection" None H)))|].
  split; vm_compute; reflexivity.
Defined.

Lemma create_index_usage_error_iff_witness :
  (create_index path_str path_str absolute idle_indexer "small" None encoded).2
  = Raise (Exception usage_message)
  ∧ (create_index path_str path_str absolute idle_indexer "small" (Some "") encoded).2
    = Raise (Exception usage_message)
  ∧ check_usage "small" (Some "validation") = Ok tt
  ∧ check_usage "base" None = Ok tt.
Proof.
  split; [|split; [|split]].
  - apply (proj1 (proj2 (proj2 (create_index_usage_error_iff path_str path_str absolute
                                  idle_indexer "small" None encoded)))).
    split; [reflexivity|left; reflexivity].
  - apply (proj1 (proj2 (proj2 (create_index_usage_error_iff path_str path_str absolute
                                  idle_indexer "small" (Some "") encoded)))).
    split; [reflexivity|right; reflexivity].
  - apply (proj1 (proj2 (create_index_usage_error_iff path_str path_str absolute
                           idle_indexer "small" (Some "validation") encoded))).
    intros [_ [H|H]]; discriminate.
  - apply (proj1 (proj2 (create_index_usage_error_iff path_str path_str absolute
                           idle_indexer "base" None encoded))).
    intros [H _]; discriminate.
Defined.

Lemma create_index_rerun_witness :
  create_index path_str path_str absolute idle_indexer "base" None encoded = (staged, Ok tt)
  ∧ create_index path_str path_str absolute idle_indexer "base" None staged
    = (staged, Raise FileExistsError).
Proof.
  assert (Hrun : create_index path_str path_str absolute idle_indexer "base" None encoded
                 = (staged, Ok tt)) by (vm_compute; reflexivity).
  split; [exact Hrun|].
  destruct (create_index_rerun path_str path_str absolute idle_indexer "base" None
              encoded staged)
    as (pf & sel_t & sel_i & _ & Ht & _ & _ & _ & _ & _ & _ & _ & _ & Hagain).
  - intros args fs d _. reflexivity.
  - intros args fs l Hl. exists l. exact Hl.
  - exact Hrun.
  - apply Hagain. vm_compute in Ht. injection Ht as <-. discriminate.
Defined.



Lemma staged_lines :
  readlines (content (open_w ("text-collection.base", "validation.text.search.jsonl")
                        staged).1
               ("text-collection", "validation.text.jsonl"))
  = [ py "{'id': 'x1', 'contents': 'a caption'}" ++ [LF];
      py "{'id': 'x2', 'contents': 'one more', 'extra': [1, 2.5]}" ++ [LF] ].
Proof. vm_compute. reflexivity. Qed.



Lemma convert_keeps_order_witness :
  ∃ rows,
    mapstar (process_jsonl_line float_repr max_depth)
      (readlines (content
                    (open_w ("text-collection.base", "validation.text.search.jsonl")
                       staged).1
                    ("text-collection", "validation.text.jsonl")))
    = Ok rows
    ∧ rows = [ py "{'id': 'x1', 'title': 'a caption'}";
               py "{'id': 'x2', 'title': 'one more'}" ]
    ∧ content
        (convert_jsonl_for_search float_repr max_depth [1; 0]
           ("text-collection.base", "validation.text.jsonl")
           ("text-collection.base", "validation.text.search.jsonl") staged).1
        ("text-collection.base", "validation.text.search.jsonl")
      = concat ((λ r, r ++ [LF]) <$> rows).
Proof.
  destruct (convert_keeps_order float_repr max_depth 16 [1; 0]
              ("text-collection.base", "validation.text.jsonl")
              ("text-collection.base", "validation.text.search.jsonl")
              ("text-collection", "validation.text.jsonl")
              ("text-collection.base", "validation.text.search.jsonl")
              staged
              (open_w ("text-collection.base", "validation.text.search.jsonl")
                 staged).1
              (convert_jsonl_for_search float_repr max_depth [1; 0]
                 ("text-collection.base", "validation.text.jsonl")
                 ("text-collection.base", "validation.text.search.jsonl")
                 staged).1)
    as (rows & Hrows & Hcontent & _).
  - exact float_repr_ascii.
  - lia.
  - vm_compute. reflexivity.
  - vm_compute. reflexivity.
  - unfold complete_schedule. rewrite staged_lines. vm_compute.
    apply perm_swap.
  - vm_compute. reflexivity.
  - exists rows. split; [exact Hrows|]. split; [|exact Hcontent].
    rewrite staged_lines in Hrows. vm_compute in Hrows.
    injection Hrows as <-. vm_compute. reflexivity.
Defined.

Lemma convert_failure_writes_nothing_witness :
  ∃ e,
    convert_jsonl_for_search float_repr max_depth [0; 1]
      ("text-collection.base", "test.text.jsonl")
      ("text-collection.base", "test.text.search.jsonl") staged
    = ((open_w ("text-collection.base", "test.text.search.jsonl") staged).1,
       Raise e)
    ∧ content (open_w ("text-collection.base", "test.text.search.jsonl") staged).1
        ("text-collection.base", "test.text.search.jsonl") = [].
Proof.
  destruct (convert_failure_writes_nothing float_repr max_depth 16 [0; 1]
              ("text-collection.base", "test.text.jsonl")
              ("text-collection.base", "test.text.search.jsonl")
              ("text-collection", "test.text.jsonl")
              ("text-collection.base", "test.text.search.jsonl")
              staged
              (open_w ("text-collection.base", "test.text.search.jsonl") staged).1
              (py "{'id': 'x2'}" ++ [LF]) (KeyError "contents"))
    as (e & Hrun & _ & _ & Hempty & _).
  - lia.
  - vm_compute. reflexivity.
  - vm_compute. reflexivity.
  - unfold complete_schedule. vm_compute. reflexivity.
  - vm_compute. right. left.
  - vm_compute. reflexivity.
  - exists e. split; [exact Hrun|exact Hempty].
Defined.

Lemma prep_qrels_projections_witness :
  content (prep_qrels load_dataset "TREC-AToMiC/AToMiC-Qrels-v0.2" "validation"
             encoded).1 (t2i_path "validation")
  = py "t1 Q0 i1 1" ++ [LF]
  ∧ content (prep_qrels load_dataset "TREC-AToMiC/AToMiC-Qrels-v0.2" "validation"
               encoded).1 (i2t_path "validation")
    = py "i1 Q0 t1 1" ++ [LF].
Proof.
  destruct (prep_qrels_projections load_dataset "TREC-AToMiC/AToMiC-Qrels-v0.2"
              "validation" encoded qrels)
    as (fs' & Hrun & Ht2i & Hi2t & _).
  - vm_compute. exact I.
  - reflexivity.
  - reflexivity.
  - repeat constructor.
  - rewrite Hrun. cbn [fst]. rewrite Ht2i, Hi2t. split; vm_compute; reflexivity.
Defined.

End Instances.

(** * Further properties *)

(** ** What a computation touches *)

Section FootprintFacts.
Import Fs.


Lemma touches_only_raise {A} (D : string → Prop) (e : exn) :
  touches_only (A := A) D (raise e).
Proof. by intros fs d _. Qed.

Lemma touches_only_lift {A} (D : string → Prop) (r : result A) :
  touches_only D (lift r).
Proof. by intros fs d _. Qed.


Lemma touches_only_bind {A B} (D : string → Prop) (m : M FS A) (k : A → M FS B) :
  touches_only D m → (∀ a, touches_only D (k a)) → touches_only D (bind m k).
Proof.
  intros Hm Hk fs d Hd. unfold bind. specialize (Hm fs d Hd).
  destruct (m fs) as [fs1 [a|e]]; simpl in *; [|done].
  by rewrite (Hk a fs1 d Hd).
Qed.


Lemma touches_only_weaken {A} (D D' : string → Prop) (m : M FS A) :
  (∀ d, D d → D' d) → touches_only D m → touches_only D' m.
Proof. intros HD Hm fs d Hd. apply Hm. intros H. by apply Hd, HD. Qed.

Lemma touches_only_mkdir (D : string → Prop) (d : string) :
  D d → touches_only D (mkdir_exist_ok d).
Proof.
  intros HD fs d' Hd'. unfold mkdir_exist_ok.
  destruct (fs !! d) as [[|l]|]; simpl; try done.
  rewrite lookup_insert_ne; [done|]. by intros ->.
Qed.


Lemma set_content_other (fs : FS) (p : path) (c : pystr) (d : string) :
  d ≠ p.1 → set_content p c fs !! d = fs !! d.
Proof.
  intros Hd. unfold set_content. destruct (fs !! p.1) as [[|l]|]; try done.
  by rewrite lookup_insert_ne.
Qed.


Lemma resolve_stop (fuel : nat) (fs : FS) (d n : string) (l : gmap string leaf) :
  fs !! d = Some (EDir l) → (∀ t, l !! n ≠ Some (Link t)) →
  resolve fuel fs (d, n) = Ok (d, n).
Proof.
  intros Hd Hn. destruct fuel; cbn [resolve fst snd]; rewrite Hd;
    destruct (l !! n) as [[c|t]|] eqn:Hl; try done; by destruct (Hn t).
Qed.

Lemma touches_only_open_r (D : string → Prop) (p : path) :
  touches_only D (open_r p).
Proof.
  intros fs d _. unfold open_r.
  destruct (resolve MAXSYMLINKS fs p) as [q|e]; [|done].
  by destruct (is_regular fs q).
Qed.

Lemma touches_only_write (D : string → Prop) (f : path) (text : pystr) :
  D f.1 → touches_only D (write f text).
Proof.
  intros HD fs d Hd. unfold write. simpl.
  apply set_content_other. by intros ->.
Qed.

End FootprintFacts.

(** ** [create_index], further *)

Section CreateIndexMore.
Import Fs Glob Index.


(** A loop of [symlink_to] into a directory that holds none of the names yet
    ends well and adds the links, each under its own name. *)
Lemma for_each_symlink_fresh (d : string) (tgt : string → string * string)
    (ns : list string) (fs : FS) (l : gmap string leaf) :
  fs !! d = Some (EDir l) → NoDup ns → (∀ n, n ∈ ns → l !! n = None) →
  ∃ l', for_each ns (λ n, symlink_to d n (tgt n)) fs
        = (<[d := EDir l']> fs, Ok tt)
        ∧ ∀ n, l' !! n = if decide (n ∈ ns) then Some (Link (tgt n)) else l !! n.
Proof.
  intros Hd Hnd. revert fs l Hd.
  induction Hnd as [|x ns Hx Hnd IH]; intros fs l Hd Hfree.
  - exists l. split.
    + cbn [for_each]. unfold ret. by rewrite insert_id.
    + intros n. destruct (decide (n ∈ [])) as [H|_]; [|done].
      by apply elem_of_nil in H.
  - cbn [for_each].
    assert (Hstep : symlink_to d x (tgt x) fs
                    = (<[d := EDir (<[x := Link (tgt x)]> l)]> fs, Ok tt)).
    { unfold symlink_to. rewrite Hd, (Hfree x) by left. done. }
    rewrite (bind_ok _ _ _ _ _ Hstep).
    destruct (IH (<[d := EDir (<[x := Link (tgt x)]> l)]> fs)
                (<[x := Link (tgt x)]> l)) as (l' & Hrun & Hl').
    + apply lookup_insert_eq.
    + intros n Hn. rewrite lookup_insert_ne; [apply Hfree; by right|].
      intros ->. done.
    + exists l'. split; [by rewrite Hrun, insert_insert_eq|].
      intros n. rewrite Hl'.
      destruct (decide (n ∈ ns)) as [Hn|Hn].
      * rewrite decide_True; [done|by right].
      * destruct (decide (n = x)) as [->|Hne].
        -- rewrite lookup_insert_eq, decide_True; [done|by left].
        -- rewrite lookup_insert_ne by done.
           rewrite decide_False; [done|]. rewrite elem_of_cons. tauto.
Qed.

Lemma NoDup_select (coll setting : string) (split : option string) (fs : FS)
    (sel : list string) :
  select coll setting split fs = Some sel → NoDup sel.
Proof.
  unfold select.
  destruct (String.eqb setting "small"); [intros [= <-]; apply NoDup_glob|].
  destruct (String.eqb setting "base").
  - intros [= <-]. cbn [fmap list_fmap concat]. rewrite app_nil_r.
    pose proof prefix_exclusive as Hex.
    rewrite !NoDup_app. repeat split; try apply NoDup_glob.
    + intros n [_ [Ht _]%fnmatch_train]%elem_of_glob [Hin|Hin]%elem_of_app;
        apply elem_of_glob in Hin as [_ Hm].
      * apply fnmatch_validation in Hm as [Hv _].
        destruct (Hex n) as (H1 & _ & _). by apply H1.
      * apply fnmatch_test in Hm as [Hv _].
        destruct (Hex n) as (_ & H2 & _). by apply H2.
    + intros n [_ [Ht _]%fnmatch_validation]%elem_of_glob
        [_ [Hv _]%fnmatch_test]%elem_of_glob.
      destruct (Hex n) as (_ & _ & H3). by apply H3.
  - destruct (String.eqb setting "large"); [|done].
    intros [= <-]. apply NoDup_glob.
Qed.

Variable path_str : string → string.
Variable resolved_str : string → string.
Variable absolute : bool.
Variable IndexCollection_main : list string → FS → FS * bool.

Abbreviation create_index :=
  (Index.create_index path_str resolved_str absolute IndexCollection_main).
Abbreviation anserini_index := (Index.anserini_index IndexCollection_main).
Abbreviation link_target := (Index.link_target path_str absolute).




(** X2. A setting that is none of [small], [base] and [large] is found out
    late: when the two names made of it are path components,
    [create_index] first creates the two staging directories named after it,
    then raises [UnboundLocalError]; nothing is linked, [indexes] is not
    created and the engine is not run. *)
Theorem create_index_unknown_setting (setting : string) (split : option string)
    (fs : FS) :
  setting ∉ SETTINGS →
  component (text_dir setting "") = true →
  component (image_dir setting "") = true →
  fs !! text_dir setting "" ≠ Some EFile →
  fs !! image_dir setting "" ≠ Some EFile →
  ∃ fs',
    create_index setting split fs = (fs', Raise UnboundLocalError)
    ∧ fs' !! text_dir setting "" = Some (EDir (listing fs (text_dir setting "")))
    ∧ fs' !! image_dir setting ""
      = Some (EDir (listing fs (image_dir setting "")))
    ∧ ∀ d, d ≠ text_dir setting "" → d ≠ image_dir setting "" →
           fs' !! d = fs !! d.
Proof.
  intros Hset _ _ HT HI. unfold SETTINGS in Hset.
  rewrite !not_elem_of_cons in Hset. destruct Hset as (Hs & Hb & Hl & _).
  apply String.eqb_neq in Hs, Hb, Hl.
  destruct (staging_names setting "") as (_ & _ & _ & _ & _ & _ & TI).
  unfold Index.create_index, check_usage, postfix, select. rewrite Hs, Hb, Hl.
  cbn [andb]. rewrite (bind_ok _ _ fs fs tt) by done.
  rewrite (bind_ok _ _ fs fs "") by done.
  assert (HmT : ∃ fsA, mkdir_exist_ok (text_dir setting "") fs = (fsA, Ok tt)
            ∧ fsA !! text_dir setting ""
              = Some (EDir (listing fs (text_dir setting "")))
            ∧ ∀ d, d ≠ text_dir setting "" → fsA !! d = fs !! d).
  { unfold mkdir_exist_ok, listing.
    destruct (fs !! text_dir setting "") as [[|l]|] eqn:Hd; [done|..].
    - exists fs. by rewrite Hd.
    - eexists. split; [done|]. rewrite lookup_insert_eq. split; [done|].
      intros d Hne. by rewrite lookup_insert_ne. }
  destruct HmT as (fsA & HmT & HdT & HfT).
  rewrite (bind_ok _ _ _ _ _ HmT).
  assert (HmI : ∃ fsB, mkdir_exist_ok (image_dir setting "") fsA = (fsB, Ok tt)
            ∧ fsB !! image_dir setting ""
              = Some (EDir (listing fs (image_dir setting "")))
            ∧ ∀ d, d ≠ image_dir setting "" → fsB !! d = fsA !! d).
  { unfold mkdir_exist_ok, listing. rewrite <-(HfT (image_dir setting "")) by done.
    destruct (fsA !! image_dir setting "") as [[|l]|] eqn:Hd.
    - rewrite HfT in Hd by done. done.
    - exists fsA. by rewrite Hd.
    - eexists. split; [done|]. rewrite lookup_insert_eq. split; [done|].
      intros d Hne. by rewrite lookup_insert_ne. }
  destruct HmI as (fsB & HmI & HdI & HfI).
  rewrite (bind_ok _ _ _ _ _ HmI).
  rewrite (bind_ok _ _ fsB fsB fsB) by done.
  exists fsB. split; [done|]. split; [by rewrite HfI|].
  split; [done|]. intros d H1 H2. by rewrite HfI, HfT.
Qed.

Lemma anserini_succeeds (args : list string) (fs : FS) :
  (∀ args fs, (IndexCollection_main args fs).2 = true) →
  anserini_index args fs = ((IndexCollection_main args fs).1, Ok tt).
Proof.
  intros Hok. unfold Index.anserini_index. specialize (Hok args fs).
  by destruct (IndexCollection_main args fs) as [fs' []].
Qed.

(** The first run over fresh staging directories, step by step. *)
Lemma create_index_fresh_run (setting pf : string) (split : option string)
    (fs : FS) (sel_t sel_i : list string) :
  indexer_frame IndexCollection_main →
  (∀ args fs, (IndexCollection_main args fs).2 = true) →
  check_usage setting split = Ok tt →
  postfix setting split = Ok pf →
  fs !! text_dir setting pf = None →
  fs !! image_dir setting pf = None →
  fs !! "indexes" ≠ Some EFile →
  select "text-collection" setting split fs = Some sel_t →
  select "image-collection" setting split fs = Some sel_i →
  ∃ fs1 lt li,
    create_index setting split fs = (fs1, Ok tt)
    ∧ fs1 !! text_dir setting pf = Some (EDir lt)
    ∧ (∀ n, lt !! n
            = if decide (n ∈ sel_t)
              then Some (Link (link_target (text_dir setting pf)
                                 "text-collection" n))
              else None)
    ∧ fs1 !! image_dir setting pf = Some (EDir li)
    ∧ (∀ n, li !! n
            = if decide (n ∈ sel_i)
              then Some (Link (link_target (image_dir setting pf)
                                 "image-collection" n))
              else None)
    ∧ ∀ d, d ≠ text_dir setting pf → d ≠ image_dir setting pf →
           d ≠ "indexes" → fs1 !! d = fs !! d.
Proof.
  intros Hframe Hok Hcheck Hpf HT HI HX HselT HselI.
  destruct (staging_names setting pf) as (T1 & T2 & T3 & I1 & I2 & I3 & TI).
  unfold Index.create_index.
  rewrite (bind_ok _ _ fs fs tt) by (unfold lift; by rewrite Hcheck).
  rewrite (bind_ok _ _ fs fs pf) by (unfold lift; by rewrite Hpf).
  set (fsA := <[text_dir setting pf := EDir ∅]> fs).
  rewrite (bind_ok _ _ fs fsA tt) by (unfold mkdir_exist_ok; by rewrite HT).
  set (fsB := <[image_dir setting pf := EDir ∅]> fsA).
  rewrite (bind_ok _ _ fsA fsB tt)
    by (unfold mkdir_exist_ok, fsA; rewrite lookup_insert_ne by done;
        by rewrite HI).
  rewrite (bind_ok _ _ fsB fsB fsB) by done. cbv zeta.
  assert (HcT : fsB !! "text-collection" = fs !! "text-collection")
    by (unfold fsB, fsA; by rewrite !lookup_insert_ne).
  assert (HcI : fsB !! "image-collection" = fs !! "image-collection")
    by (unfold fsB, fsA; by rewrite !lookup_insert_ne).
  rewrite (select_ext _ _ _ fs fsB HcT), (select_ext _ _ _ fs fsB HcI).
  rewrite HselT, HselI.
  rewrite (bind_ok _ _ fsB fsB sel_t) by done.
  destruct (for_each_symlink_fresh (text_dir setting pf)
              (λ n, link_target (text_dir setting pf) "text-collection" n)
              sel_t fsB ∅)
    as (lt & HrunT & Hlt).
  { unfold fsB, fsA. rewrite lookup_insert_ne by done. apply lookup_insert_eq. }
  { by eapply NoDup_select. }
  { intros n _. apply lookup_empty. }
  rewrite (bind_ok _ _ _ _ _ HrunT).
  set (fsC := <[text_dir setting pf := EDir lt]> fsB).
  rewrite (bind_ok _ _ fsC fsC sel_i) by done.
  destruct (for_each_symlink_fresh (image_dir setting pf)
              (λ n, link_target (image_dir setting pf) "image-collection" n)
              sel_i fsC ∅)
    as (li & HrunI & Hli).
  { unfold fsC, fsB. rewrite lookup_insert_ne by done. apply lookup_insert_eq. }
  { by eapply NoDup_select. }
  { intros n _. apply lookup_empty. }
  rewrite (bind_ok _ _ _ _ _ HrunI).
  set (fsD := <[image_dir setting pf := EDir li]> fsC).
  assert (HmX : ∃ fsE, mkdir_exist_ok "indexes" fsD = (fsE, Ok tt)
                       ∧ ∀ d, d ≠ "indexes" → fsE !! d = fsD !! d).
  { unfold mkdir_exist_ok.
    assert (HdX : fsD !! "indexes" = fs !! "indexes")
      by (unfold fsD, fsC, fsB, fsA; by rewrite !lookup_insert_ne).
    rewrite HdX. destruct (fs !! "indexes") as [[|l]|]; [done|..].
    - by exists fsD.
    - eexists. split; [done|]. intros d Hd. by rewrite lookup_insert_ne. }
  destruct HmX as (fsE & HmX & HfE).
  rewrite (bind_ok _ _ _ _ _ HmX).
  rewrite (bind_ok _ _ _ _ _ (anserini_succeeds _ fsE Hok)).
  rewrite anserini_succeeds by done.
  set (fsF := (IndexCollection_main _ fsE).1).
  set (fs1 := (IndexCollection_main _ fsF).1).
  assert (Hend : ∀ d, d ≠ "indexes" → fs1 !! d = fsD !! d).
  { intros d Hd. unfold fs1, fsF. rewrite !Hframe by done. by apply HfE. }
  exists fs1, lt, li. split; [done|].
  split; [|split; [|split; [|split]]].
  - rewrite Hend by done. unfold fsD, fsC.
    rewrite lookup_insert_ne by done. apply lookup_insert_eq.
  - intros n. by rewrite Hlt, lookup_empty.
  - rewrite Hend by done. apply lookup_insert_eq.
  - intros n. by rewrite Hli, lookup_empty.
  - intros d H1 H2 H3. rewrite Hend by done.
    unfold fsD, fsC, fsB, fsA. by rewrite !lookup_insert_ne.
Qed.





End CreateIndexMore.

Section SelectionMore.
Import Fs Glob Index.

(** X5. The three settings are nested. For a split among [train],
    [validation] and [test], every shard that [small] selects is selected by
    [base], and every shard that [base] selects is selected by [large],
    whatever the names in the directory. *)
Theorem select_nested (coll split : string) (fs : FS)
    (sel_s sel_b sel_l : list string) :
  split ∈ ["train"; "validation"; "test"] →
  select coll "small" (Some split) fs = Some sel_s →
  select coll "base" None fs = Some sel_b →
  select coll "large" None fs = Some sel_l →
  (∀ n, n ∈ sel_s → n ∈ sel_b) ∧ (∀ n, n ∈ sel_b → n ∈ sel_l).
Proof.
  intros Hsplit. rewrite select_small, select_base, select_large.
  intros [= <-] [= <-] [= <-]. split.
  - intros n Hn. rewrite !elem_of_app.
    rewrite !elem_of_cons in Hsplit.
    destruct Hsplit as [->|[->|[->|H]]]; [by auto..|].
    by apply elem_of_nil in H.
  - intros n. rewrite !elem_of_app, !elem_of_glob, fnmatch_star_jsonl.
    rewrite fnmatch_train, fnmatch_validation, fnmatch_test. tauto.
Qed.

End SelectionMore.

(** ** [convert_jsonl_for_search], further *)

Section SearchMore.
Import Fs Text Pool Search.
Variable float_repr : pystr → pystr.
Variable max_depth : nat.

Abbreviation process := (Topic.process_jsonl_line float_repr max_depth).
Abbreviation convert := (convert_with_pool float_repr max_depth).
Abbreviation with_LF := (λ r : pystr, r ++ [LF]).

(** With nothing to map, the pool returns nothing, whatever the schedule. *)
Lemma pool_map_nil {A B} (processes : nat) (schedule : list nat)
    (func : A → result B) :
  0 < processes → pool_map processes schedule func [] = Ok [].
Proof.
  intros Hp. unfold pool_map.
  destruct (Nat.eqb_spec processes 0) as [|_]; [lia|]. cbv zeta.
  change (get_tasks (chunksize (length []) processes) (@nil A)) with (@nil (list A)).
  cbn [length replicate]. rewrite chunksize_zero.
  assert (H : ∀ sched, fold_left
            (λ (st : @map_result B) i, set_result 0 i (mapstar func (nth i [] [])) st)
            sched (inl []) = inl []).
  { induction sched as [|i sched IH]; [done|]. cbn [fold_left].
    replace (nth i [] []) with (@nil A) by (by destruct i).
    cbn [mapstar set_result]. by rewrite take_nil, drop_nil. }
  by rewrite H.
Qed.

(** In a tree where [f] is no symbolic link, writing to [f] changes the file
    no path leads to. *)
Lemma resolve_set_content (fuel : nat) (fs : FS) (f p : path) (c : pystr)
    (l : gmap string leaf) :
  fs !! f.1 = Some (EDir l) → (∀ t, l !! f.2 ≠ Some (Link t)) →
  resolve fuel (set_content f c fs) p = resolve fuel fs p.
Proof.
  intros Hd Hf. revert p. induction fuel as [|fuel IH]; intros p;
    cbn [resolve]; unfold set_content; rewrite Hd;
    (destruct (decide (p.1 = f.1)) as [Hp|Hp];
     [rewrite Hp, lookup_insert_eq, Hd;
      destruct (decide (p.2 = f.2)) as [Hn|Hn];
      [rewrite Hn, lookup_insert_eq;
       destruct (l !! f.2) as [[c'|t]|] eqn:Hl; try done; by destruct (Hf t)
      |rewrite lookup_insert_ne by done]
     |rewrite lookup_insert_ne by done]); try done.
  - destruct (l !! p.2) as [[c'|t]|]; try done.
    fold (set_content f c fs). unfold set_content in IH. rewrite Hd in IH.
    apply IH.
  - destruct (fs !! p.1) as [[|l']|]; try done.
    destruct (l' !! p.2) as [[c'|t]|]; try done.
    unfold set_content in IH. rewrite Hd in IH. apply IH.
Qed.

Lemma resolve_terminal (fuel : nat) (fs : FS) (p q : path) :
  resolve fuel fs p = Ok q →
  ∃ l, fs !! q.1 = Some (EDir l) ∧ ∀ t, l !! q.2 ≠ Some (Link t).
Proof.
  revert p. induction fuel as [|fuel IH]; intros p; cbn [resolve];
    destruct (fs !! p.1) as [[|l]|] eqn:Hd; try done;
    destruct (l !! p.2) as [[c|target]|] eqn:Hl; try done;
    try (intros [= <-]; exists l; split; [done|]; intros t; by rewrite Hl).
  apply IH.
Qed.

Lemma is_regular_set_ne (fs : FS) (q q' : path) (c : pystr) :
  q' ≠ q → is_regular (set_content q c fs) q' = is_regular fs q'.
Proof.
  intros Hne. unfold is_regular, set_content.
  destruct (fs !! q.1) as [[|l]|] eqn:Hd; try done.
  destruct (decide (q'.1 = q.1)) as [Heq|Hdir].
  - rewrite Heq, lookup_insert_eq, Hd.
    rewrite lookup_insert_ne; [done|].
    intros Hn. apply Hne. destruct q, q'; simpl in *; congruence.
  - by rewrite lookup_insert_ne.
Qed.

(** Writing rows to [f] changes no other file. *)
Lemma for_each_write_row_other (f q : path) (results : list (option pystr))
    (fs : FS) :
  q ≠ f →
  content (for_each results (write_row f) fs).1 q = content fs q
  ∧ is_regular (for_each results (write_row f) fs).1 q = is_regular fs q.
Proof.
  intros Hq. revert fs. induction results as [|r results IH]; intros fs; [done|].
  cbn [for_each]. unfold bind. destruct r as [r|]; cbn [write_row]; [|done].
  unfold write.
  destruct (IH (set_content f (content fs f ++ r ++ [LF]) fs)) as [Hc Hr].
  destruct (for_each results (write_row f) _) as [fs' res]. cbn [fst] in *.
  rewrite content_set_ne in Hc by done. rewrite is_regular_set_ne in Hr by done.
  by destruct res.
Qed.

Lemma open_r_fs (p : path) (fs fs' : FS) (r' : result path) :
  open_r p fs = (fs', r') → fs' = fs.
Proof.
  unfold open_r. destruct (resolve MAXSYMLINKS fs p) as [q|e]; [|by intros [= <-]].
  destruct (is_regular fs q); by intros [= <-].
Qed.

(** X6. A shard that cannot be opened is reported before anything is
    written: the error of [open] is the error of the call and the tree is
    left as it was, so that an output file of an earlier run is neither
    emptied nor removed. A shard that is not there gives
    [FileNotFoundError]. *)
Theorem convert_unreadable_input (processes : nat) (schedule : list nat)
    (jsonl_file output_path : path) (fs : FS) :
  (∀ e, (open_r jsonl_file fs).2 = Raise e →
        convert processes schedule jsonl_file output_path fs = (fs, Raise e))
  ∧ (∀ l, fs !! jsonl_file.1 = Some (EDir l) → l !! jsonl_file.2 = None →
          convert processes schedule jsonl_file output_path fs
          = (fs, Raise FileNotFoundError)).
Proof.
  assert (H : ∀ e, (open_r jsonl_file fs).2 = Raise e →
            convert processes schedule jsonl_file output_path fs = (fs, Raise e)).
  { intros e He. unfold convert_with_pool. apply bind_raise.
    destruct (open_r jsonl_file fs) as [fs' r] eqn:Hr. simpl in He. subst r.
    by apply open_r_fs in Hr as ->. }
  split; [exact H|]. intros l Hd Hn. apply H.
  unfold open_r. destruct jsonl_file as [d n]. cbn [fst snd] in *.
  rewrite (resolve_stop _ _ _ _ l) by (by rewrite ?Hn).
  unfold is_regular. cbn [fst snd]. by rewrite Hd, Hn.
Qed.

(** X7. Converting a file onto itself loses it: when the input path and the
    output path name the same file, the file is emptied by the second
    [open] before a line has been read, so that no line is transformed, the
    call ends well and the file is left empty. *)
Theorem convert_onto_itself (schedule : list nat)
    (jsonl_file output_path f : path) (fs : FS) :
  (open_r jsonl_file fs).2 = Ok f →
  (open_w output_path fs).2 = Ok f →
  convert_jsonl_for_search float_repr max_depth schedule jsonl_file output_path fs
  = (set_content f [] fs, Ok tt)
  ∧ is_regular (set_content f [] fs) f = true
  ∧ content (set_content f [] fs) f = [].
Proof.
  intros Hin Hout.
  destruct (open_w output_path fs) as [fs1 r] eqn:Hw. simpl in Hout. subst r.
  pose proof (open_w_inv _ _ _ _ Hw) as [-> _].
  pose proof (open_w_empty _ _ _ _ Hw) as (Hreg & Hempty & _).
  split; [|done]. unfold convert_jsonl_for_search.
  rewrite (convert_unfold float_repr max_depth _ _ _ _ f f fs (set_content f [] fs))
    by done.
  rewrite Hempty. change (readlines []) with (@nil pystr).
  by rewrite pool_map_nil by lia.
Qed.

(** X8. The call changes one file at most. Whatever the outcome, every file
    other than the one the output path names holds what it held, and every
    directory other than the directory of that file is as it was; in
    particular the input shard, when it is another file. *)
Theorem convert_changes_output_only (processes : nat) (schedule : list nat)
    (jsonl_file output_path : path) (fs : FS) (q : path) :
  (∀ f, resolve MAXSYMLINKS fs output_path = Ok f → q ≠ f) →
  content (convert processes schedule jsonl_file output_path fs).1 q
  = content fs q
  ∧ is_regular (convert processes schedule jsonl_file output_path fs).1 q
    = is_regular fs q.
Proof.
  intros Hq. unfold convert_with_pool.
  destruct (open_r jsonl_file fs) as [fs0 [f_in|e]] eqn:Hr;
    pose proof (open_r_fs _ _ _ _ Hr) as ->;
    [rewrite (bind_ok _ _ _ _ _ Hr)|by rewrite (bind_raise _ _ _ _ _ Hr)].
  destruct (open_w output_path fs) as [fs1 [f_out|e]] eqn:Hw.
  2:{ rewrite (bind_raise _ _ _ _ _ Hw). unfold open_w in Hw.
      destruct (resolve MAXSYMLINKS fs output_path); by injection Hw as <-. }
  rewrite (bind_ok _ _ _ _ _ Hw).
  assert (Hne : q ≠ f_out).
  { apply Hq. unfold open_w in Hw.
    destruct (resolve MAXSYMLINKS fs output_path); [|done]. by injection Hw as _ <-. }
  apply open_w_inv in Hw as [-> _].
  rewrite (bind_ok _ _ _ (set_content f_out [] fs)
             (readlines (content (set_content f_out [] fs) f_in))) by done.
  unfold bind, lift.
  destruct (pool_map _ _ _ _) as [results|e]; cbn [fst].
  - destruct (for_each_write_row_other f_out q results (set_content f_out [] fs) Hne)
      as [Hc Hr'].
    by rewrite Hc, Hr', content_set_ne, is_regular_set_ne.
  - by rewrite content_set_ne, is_regular_set_ne.
Qed.

Lemma open_r_resolve (p f : path) (fs : FS) :
  (open_r p fs).2 = Ok f ↔
  resolve MAXSYMLINKS fs p = Ok f ∧ is_regular fs f = true.
Proof.
  unfold open_r. destruct (resolve MAXSYMLINKS fs p) as [q|e]; simpl.
  - destruct (is_regular fs q) eqn:Hr; simpl; split.
    + by intros [= <-].
    + by intros [[= <-] _].
    + done.
    + intros [[= <-] H]. congruence.
  - split; [done|]. by intros [? _].
Qed.

Lemma open_w_resolve (p f : path) (fs fs1 : FS) :
  open_w p fs = (fs1, Ok f) ↔
  resolve MAXSYMLINKS fs p = Ok f ∧ fs1 = set_content f [] fs.
Proof.
  unfold open_w. destruct (resolve MAXSYMLINKS fs p) as [q|e].
  - split; [by intros [= <- <-]|]. by intros [[= <-] ->].
  - split; [done|]. by intros [? _].
Qed.

(** X9. Running a conversion that went well a second time changes nothing:
    the output file is written anew with the same rows, not appended to,
    whatever the pools and the schedules of the two runs. *)
Theorem convert_again (processes processes' : nat) (schedule schedule' : list nat)
    (jsonl_file output_path f_in f_out : path) (fs fs1 fs2 : FS) :
  0 < processes → 0 < processes' →
  (open_r jsonl_file fs).2 = Ok f_in →
  open_w output_path fs = (fs1, Ok f_out) →
  f_in ≠ f_out →
  complete_schedule processes (readlines (content fs1 f_in)) schedule →
  complete_schedule processes' (readlines (content fs1 f_in)) schedule' →
  convert processes schedule jsonl_file output_path fs = (fs2, Ok tt) →
  convert processes' schedule' jsonl_file output_path fs2 = (fs2, Ok tt).
Proof.
  intros Hp Hp' Hin Hout Hne Hsched Hsched' Hrun.
  destruct (mapstar process (readlines (content fs1 f_in))) as [rows|e] eqn:Hrows.
  2:{ apply mapstar_raise_origin in Hrows as (x & Hx & He).
      destruct (convert_failing float_repr max_depth processes schedule jsonl_file
                  output_path f_in f_out fs fs1 x e) as (e' & Hfail & _);
        try done. congruence. }
  rewrite (convert_all_lines float_repr max_depth _ _ _ _ f_in f_out fs fs1 rows) in Hrun
    by done.
  apply open_r_resolve in Hin as [Hrin Hreg].
  apply open_w_resolve in Hout as [Hrout ->].
  destruct (resolve_terminal _ _ _ _ Hrout) as (l & Hl & Hterm).
  assert (Hfs2 : fs2 = set_content f_out (concat (with_LF <$> rows)) fs).
  { injection Hrun as <-. destruct rows; [done|]. by rewrite set_content_twice. }
  assert (Hin2 : (open_r jsonl_file fs2).2 = Ok f_in).
  { apply open_r_resolve. rewrite Hfs2.
    rewrite (resolve_set_content _ _ _ _ _ l) by done.
    by rewrite is_regular_set_ne. }
  assert (Hout2 : open_w output_path fs2 = (set_content f_out [] fs, Ok f_out)).
  { apply open_w_resolve. rewrite Hfs2.
    rewrite (resolve_set_content _ _ _ _ _ l) by done.
    by rewrite set_content_twice. }
  rewrite (convert_all_lines float_repr max_depth _ _ _ _ f_in f_out fs2
             (set_content f_out [] fs) rows) by done.
  by rewrite Hrun.
Qed.

End SearchMore.

(** ** [process_jsonl_line], further *)

Section TopicMore.
Import Text Json Topic.
Variable float_repr : pystr → pystr.
Variable max_depth : nat.

(** X10. A line that is JSON but not an object has no keys to look up: an
    array, a string, a number, [true], [false] or [null] makes the transform
    raise [TypeError], at the look-up of [id]. *)
Theorem process_jsonl_line_not_object (line : pystr) (v : value) :
  loads max_depth line = Ok v → (∀ d, v ≠ JObj d) →
  process_jsonl_line float_repr max_depth line = Raise TypeError.
Proof.
  intros Hline Hv. unfold process_jsonl_line. rewrite Hline.
  cbn [bind_result]. destruct v; try done. by destruct (Hv items).
Qed.

(** X11. Whatever the input line holds, line breaks and characters outside
    ASCII in the strings included, a row that the transform returns is one
    line of printable ASCII: written with its line end, it reads back as
    exactly one line. *)
Theorem process_jsonl_line_one_line (line row : pystr) :
  (∀ lit, ascii_text (float_repr lit)) →
  process_jsonl_line float_repr max_depth line = Ok row →
  ascii_text row ∧ (LF ∉ row) ∧ (CR ∉ row)
  ∧ readlines (row ++ [LF]) = [row ++ [LF]].
Proof.
  intros Hfloat Hrow.
  pose proof (process_jsonl_line_ascii float_repr max_depth Hfloat _ _ Hrow) as Hascii.
  pose proof (ascii_text_no_break _ Hascii) as Hnb.
  split; [done|]. unfold no_break in Hnb. rewrite Forall_forall in Hnb.
  split; [intros H; by destruct (Hnb _ H)|].
  split; [intros H; by destruct (Hnb _ H)|].
  pose proof (readlines_rows [row]) as Hread.
  cbn [fmap list_fmap concat] in Hread. rewrite app_nil_r in Hread.
  apply Hread. constructor; [|constructor]. by apply ascii_text_no_break.
Qed.

End TopicMore.

(** ** The encoder and the decoder, back and forth on strings *)

Section StringRoundTrip.
Import Text Json.

Lemma hex_digit_hex_char (d : N) : (d < 16)%N → hex_digit (hex_char d) = Some d.
Proof.
  intros Hd. unfold hex_char, hex_digit, is_digit.
  destruct (N.ltb_spec d 10) as [Hlt|Hge].
  - replace ((48 <=? 48 + d)%N && (48 + d <=? 57)%N) with true
      by (symmetry; apply andb_true_iff; rewrite !N.leb_le; lia).
    f_equal. lia.
  - replace ((48 <=? 87 + d)%N && (87 + d <=? 57)%N) with false
      by (symmetry; apply andb_false_iff; right; apply N.leb_gt; lia).
    replace ((97 <=? 87 + d)%N && (87 + d <=? 102)%N) with true
      by (symmetry; apply andb_true_iff; rewrite !N.leb_le; lia).
    f_equal. lia.
Qed.

Lemma nibbles (n : N) :
  (n < 65536)%N →
  ((((N.land (N.shiftr n 12) 15 * 16 + N.land (N.shiftr n 8) 15) * 16
     + N.land (N.shiftr n 4) 15) * 16 + N.land n 15)%N = n).
Proof.
  intros Hn. change 15%N with (N.ones 4).
  rewrite !N.land_ones, !N.shiftr_div_pow2.
  change (2 ^ 4)%N with 16%N. change (2 ^ 8)%N with 256%N.
  change (2 ^ 12)%N with 4096%N.
  pose proof (N.div_mod n 16 ltac:(done)) as H0.
  pose proof (N.div_mod (n / 16) 16 ltac:(done)) as H1.
  pose proof (N.div_mod (n / 16 / 16) 16 ltac:(done)) as H2.
  pose proof (N.mod_lt n 16 ltac:(done)).
  pose proof (N.mod_lt (n / 16) 16 ltac:(done)).
  pose proof (N.mod_lt (n / 16 / 16) 16 ltac:(done)).
  replace (n / 256)%N with (n / 16 / 16)%N by (rewrite N.Div0.div_div; done).
  replace (n / 4096)%N with (n / 16 / 16 / 16)%N
    by (rewrite !N.Div0.div_div; done).
  assert (n / 16 / 16 / 16 < 16)%N.
  { rewrite !N.Div0.div_div. apply N.Div0.div_lt_upper_bound. simpl. lia. }
  rewrite (N.mod_small (n / 16 / 16 / 16) 16) by done.
  pose proof (N.div_mod (n / 16 / 16) 16 ltac:(done)). lia.
Qed.

Lemma hex4_escape (n : N) :
  (n < 65536)%N →
  hex4 (hex_char (N.land (N.shiftr n 12) 15)) (hex_char (N.land (N.shiftr n 8) 15))
    (hex_char (N.land (N.shiftr n 4) 15)) (hex_char (N.land n 15)) = Some n.
Proof.
  intros Hn. unfold hex4.
  rewrite !hex_digit_hex_char by apply land_15. f_equal. by apply nibbles.
Qed.

Lemma scanstring_plain (c : N) (r : pystr) :
  (c =? 34)%N = false → (c =? 92)%N = false → (c <? 32)%N = false →
  scanstring (c :: r) = push c (scanstring r).
Proof. intros H1 H2 H3. cbn [scanstring]. by rewrite H1, H2, H3. Qed.

Lemma scanstring_backslash (esc d : N) (r : pystr) :
  (esc =? 117)%N = false → backslash esc = Some d →
  scanstring (92%N :: esc :: r) = push d (scanstring r).
Proof.
  intros H1 H2. cbn [scanstring].
  change (92 =? 34)%N with false. change (92 =? 92)%N with true. cbv iota.
  by rewrite H1, H2.
Qed.

Lemma scanstring_u (h1 h2 h3 h4 uni : N) (r : pystr) :
  hex4 h1 h2 h3 h4 = Some uni → is_high_surrogate uni = false →
  scanstring (92%N :: 117%N :: h1 :: h2 :: h3 :: h4 :: r)
  = push uni (scanstring r).
Proof.
  intros H1 H2. cbn [scanstring].
  change (92 =? 34)%N with false. change (92 =? 92)%N with true.
  change (117 =? 117)%N with true. cbv iota. by rewrite H1, H2.
Qed.

Lemma scanstring_pair (h1 h2 h3 h4 g1 g2 g3 g4 hi lo : N) (r : pystr) :
  hex4 h1 h2 h3 h4 = Some hi → is_high_surrogate hi = true →
  hex4 g1 g2 g3 g4 = Some lo → is_low_surrogate lo = true →
  scanstring (92%N :: 117%N :: h1 :: h2 :: h3 :: h4
              :: 92%N :: 117%N :: g1 :: g2 :: g3 :: g4 :: r)
  = push (join_surrogates hi lo) (scanstring r).
Proof.
  intros H1 H2 H3 H4. cbn [scanstring].
  change (92 =? 34)%N with false. change (92 =? 92)%N with true.
  change (117 =? 117)%N with true. cbv iota. rewrite H1, H2.
  cbn [andb]. by rewrite H3, H4.
Qed.

Lemma lor_low (a b : N) :
  (b < 1024)%N → N.lor (a * 1024) b = (a * 1024 + b)%N.
Proof.
  intros Hb. rewrite <-N.lxor_lor, <-N.add_nocarry_lxor; [done|..];
    (apply N.bits_inj_0; intros i; rewrite N.land_spec;
     change 1024%N with (2 ^ 10)%N;
     destruct (N.lt_ge_cases i 10) as [Hi|Hi];
     [by rewrite N.mul_pow2_bits_low|];
     destruct (N.eq_dec b 0) as [->|Hb0];
     [by rewrite N.bits_0, andb_false_r|];
     rewrite (N.bits_above_log2 b i), andb_false_r; [done|];
     eapply N.lt_le_trans; [|exact Hi];
     apply N.log2_lt_pow2; [lia|done]).
Qed.

Lemma surrogate_pair (c : N) :
  (65536 <= c)%N → (c < 1114112)%N →
  let n := (c - 65536)%N in
  let hi := N.lor 55296 (N.land (N.shiftr n 10) 1023) in
  let lo := N.lor 56320 (N.land n 1023) in
  is_high_surrogate hi = true ∧ is_low_surrogate lo = true
  ∧ (hi < 65536)%N ∧ (lo < 65536)%N ∧ join_surrogates hi lo = c.
Proof.
  intros H1 H2 n hi lo.
  assert (Hn : (n < 1048576)%N) by (unfold n; lia).
  assert (Hq : (n / 1024 < 1024)%N)
    by (apply N.Div0.div_lt_upper_bound; simpl; lia).
  pose proof (N.mod_lt n 1024 ltac:(done)) as Hr.
  pose proof (N.div_mod n 1024 ltac:(done)) as Hdm.
  assert (Hhi : hi = (55296 + n / 1024)%N).
  { unfold hi. change 1023%N with (N.ones 10).
    rewrite N.land_ones, N.shiftr_div_pow2. change (2 ^ 10)%N with 1024%N.
    rewrite (N.mod_small (n / 1024) 1024) by done.
    change 55296%N with (54 * 1024)%N. by apply lor_low. }
  assert (Hlo : lo = (56320 + n mod 1024)%N).
  { unfold lo. change 1023%N with (N.ones 10).
    rewrite N.land_ones. change (2 ^ 10)%N with 1024%N.
    change 56320%N with (55 * 1024)%N. by apply lor_low. }
  rewrite Hhi, Hlo. clear Hhi Hlo. clearbody hi lo.
  assert (Hc : c = (65536 + n)%N) by (unfold n; lia). clearbody n.
  set (q := (n / 1024)%N) in *. set (m := (n mod 1024)%N) in *.
  clearbody q m.
  unfold is_high_surrogate, is_low_surrogate, join_surrogates.
  split; [apply andb_true_iff; rewrite !N.leb_le; lia|].
  split; [apply andb_true_iff; rewrite !N.leb_le; lia|].
  split; [lia|]. split; [lia|].
  replace (55296 + q - 55296)%N with q by lia.
  replace (56320 + m - 56320)%N with m by lia.
  rewrite N.shiftl_mul_pow2. change (2 ^ 10)%N with 1024%N.
  rewrite lor_low by done. lia.
Qed.

(** Decoding what the encoder wrote for one character gives the character. *)
Lemma scanstring_escape_char (c : N) (r : pystr) :
  scalar c → scanstring (escape_char c ++ r) = push c (scanstring r).
Proof.
  intros [Hsur Hmax]. unfold escape_char.
  destruct (N.eqb_spec c 34) as [->|H34]; [by apply scanstring_backslash|].
  destruct (N.eqb_spec c 92) as [->|H92]; [by apply scanstring_backslash|].
  destruct (N.eqb_spec c 10) as [->|H10]; [by apply scanstring_backslash|].
  destruct (N.eqb_spec c 13) as [->|H13]; [by apply scanstring_backslash|].
  destruct (N.eqb_spec c 9) as [->|H9]; [by apply scanstring_backslash|].
  destruct (N.eqb_spec c 8) as [->|H8]; [by apply scanstring_backslash|].
  destruct (N.eqb_spec c 12) as [->|H12]; [by apply scanstring_backslash|].
  destruct (printable c) eqn:Hp.
  { unfold printable in Hp. apply andb_true_iff in Hp as [Hlo%N.leb_le _].
    apply scanstring_plain; [by apply N.eqb_neq..|by apply N.ltb_ge]. }
  destruct (N.ltb_spec c 65536) as [Hlt|Hge].
  - cbn [escape_u app]. apply scanstring_u; [by apply hex4_escape|].
    unfold is_high_surrogate. apply andb_false_iff.
    destruct Hsur; [left; apply N.leb_gt|right; apply N.leb_gt]; lia.
  - destruct (surrogate_pair c Hge Hmax) as (Hhi & Hlo & Hh & Hl & Hjoin).
    cbv zeta in *. rewrite <-app_assoc. cbn [escape_u app].
    erewrite scanstring_pair;
      [by rewrite Hjoin|by apply hex4_escape|done|by apply hex4_escape|done].
Qed.

(** Decoding what the encoder wrote for a string gives the string. *)
Lemma scanstring_encode (s r : pystr) :
  scalar_text s →
  scanstring (concat (escape_char <$> s) ++ 34%N :: r) = Ok (s, r).
Proof.
  induction 1 as [|c s Hc Hs IH]; [done|].
  cbn [fmap list_fmap concat]. rewrite <-app_assoc.
  by rewrite scanstring_escape_char, IH.
Qed.

Lemma scan_once_string (fuel depth : nat) (v rest : pystr) :
  scalar_text v →
  scan_once (S fuel) depth (34%N :: concat (escape_char <$> v) ++ 34%N :: rest)
  = Ok (JStr v, rest).
Proof.
  intros Hv. cbn [scan_once]. change (34 =? 34)%N with true. cbv iota.
  by rewrite scanstring_encode.
Qed.

(** One member of an object, its value a string, as the encoder writes it:
    the key, a colon, a space, the value. *)
Lemma object_members_string (fuel depth : nat) (acc : list (pystr * value))
    (k v rest : pystr) :
  scalar_text k → scalar_text v →
  object_members (S (S fuel)) depth acc
    (concat (escape_char <$> k)
     ++ 34%N :: 58%N :: 32%N :: 34%N :: concat (escape_char <$> v)
     ++ 34%N :: rest)
  = match skip_ws rest with
    | c' :: r3 =>
        if (c' =? 125)%N then
          Ok (JObj (dict_of_pairs (rev ((k, JStr v) :: acc))), r3)
        else if (c' =? 44)%N then
          match skip_ws r3 with
          | q :: r4 =>
              if (q =? 34)%N
              then object_members (S fuel) depth ((k, JStr v) :: acc) r4
              else Raise JSONDecodeError
          | [] => Raise JSONDecodeError
          end
        else Raise JSONDecodeError
    | [] => Raise JSONDecodeError
    end.
Proof.
  intros Hk Hv.
  change (object_members (S (S fuel)) depth acc ?s)
    with (match scanstring s with
          | Raise e => Raise e
          | Ok (key, r) =>
              match skip_ws r with
              | c :: r1 =>
                  if (c =? 58)%N then
                    match scan_once (S fuel) depth (skip_ws r1) with
                    | Raise e => Raise e
                    | Ok (v, r2) =>
                        match skip_ws r2 with
                        | c' :: r3 =>
                            if (c' =? 125)%N then
                              Ok (JObj (dict_of_pairs (rev ((key, v) :: acc))), r3)
                            else if (c' =? 44)%N then
                              match skip_ws r3 with
                              | q :: r4 =>
                                  if (q =? 34)%N
                                  then object_members (S fuel) depth ((key, v) :: acc) r4
                                  else Raise JSONDecodeError
                              | [] => Raise JSONDecodeError
                              end
                            else Raise JSONDecodeError
                        | [] => Raise JSONDecodeError
                        end
                    end
                  else Raise JSONDecodeError
              | [] => Raise JSONDecodeError
              end
          end).
  rewrite scanstring_encode by done.
  change (skip_ws (58%N :: 32%N :: 34%N :: ?r))
    with (58%N :: 32%N :: 34%N :: r).
  change (58 =? 58)%N with true. cbv iota.
  change (skip_ws (32%N :: 34%N :: ?r)) with (34%N :: r).
  by rewrite scan_once_string.
Qed.

(** What the encoder writes for a topic with strings decodes to that topic. *)
Lemma loads_topic (float_repr : pystr → pystr) (max_depth : nat) (a b : pystr) :
  0 < max_depth →
  scalar_text a → scalar_text b →
  loads max_depth (dumps float_repr (JObj [(py "id", JStr a); (py "title", JStr b)]))
  = Ok (JObj [(py "id", JStr a); (py "title", JStr b)]).
Proof.
  intros Hdepth Ha Hb.
  destruct max_depth as [|depth]; [lia|]. clear Hdepth.
  assert (Hid : scalar_text (py "id")) by (repeat constructor; cbv; lia).
  assert (Htitle : scalar_text (py "title")) by (repeat constructor; cbv; lia).
  assert (Hshape :
    dumps float_repr (JObj [(py "id", JStr a); (py "title", JStr b)])
    = 123%N :: 34%N
      :: concat (escape_char <$> py "id")
      ++ 34%N :: 58%N :: 32%N :: 34%N :: concat (escape_char <$> a)
      ++ 34%N :: 44%N :: 32%N :: 34%N
      :: concat (escape_char <$> py "title")
      ++ 34%N :: 58%N :: 32%N :: 34%N :: concat (escape_char <$> b)
      ++ [34%N; 125%N]).
  { cbn [dumps List.map join fst snd]. unfold encode_basestring_ascii.
    change (py ": ") with [58%N; 32%N]. change (py ", ") with [44%N; 32%N].
    cbn [app]. repeat (rewrite <-?app_assoc; cbn [app]; f_equal). }
  rewrite Hshape. unfold loads.
  set (body := concat (escape_char <$> py "id") ++ _).
  change (skip_ws (123%N :: 34%N :: body)) with (123%N :: 34%N :: body).
  assert (Hfuel : ∃ f, loads_fuel (123%N :: 34%N :: body) = S (S (S (S f)))).
  { exists (2 * length body + 2). unfold loads_fuel. cbn [length]. lia. }
  destruct Hfuel as [f ->].
  change (scan_once (S ?f) (S depth) (123%N :: 34%N :: body))
    with (object_members f depth [] body).
  unfold body.
  rewrite object_members_string by done.
  change (skip_ws (44%N :: 32%N :: 34%N :: ?r)) with (44%N :: 32%N :: 34%N :: r).
  change (44 =? 125)%N with false. change (44 =? 44)%N with true. cbv iota.
  change (skip_ws (32%N :: 34%N :: ?r)) with (34%N :: r).
  change (34 =? 34)%N with true. cbv iota.
  rewrite object_members_string by done.
  reflexivity.
Qed.

(** An object is decoded only where one more level may be entered. *)
Lemma loads_object_depth (depth : nat) (s : pystr) (d : list (pystr * value)) :
  loads depth s = Ok (JObj d) → 0 < depth.
Proof.
  destruct depth as [|depth]; [|lia]. unfold loads, loads_fuel.
  replace (2 * length s + 2) with (S (2 * length s + 1)) by lia.
  cbn [scan_once]. destruct (skip_ws s) as [|c r]; [done|].
  destruct (c =? 34)%N.
  { destruct (scanstring r) as [[str rest]|]; [|done].
    by destruct (skip_ws rest). }
  destruct (c =? 123)%N; [done|]. destruct (c =? 91)%N; [done|].
  unfold scan_constant, scan_number, scan_float_constant.
  repeat match goal with
         | |- context [strip_prefix ?p ?t] =>
             destruct (strip_prefix p t);
             [match goal with |- context [skip_ws ?x] => by destruct (skip_ws x) end|]
         end.
  destruct (scan_integer (c :: r)) as [[integer r0]|].
  - destruct (scan_frac r0) as [frac r1]. destruct (scan_exp r1) as [exp r2].
    destruct frac, exp;
      repeat match goal with
             | |- context [if ?b then _ else _] => destruct b
             end;
      try done; by destruct (skip_ws r2).
  - repeat match goal with
           | |- context [strip_prefix ?p ?t] =>
               destruct (strip_prefix p t);
               [match goal with |- context [skip_ws ?x] => by destruct (skip_ws x) end|]
           end.
    done.
Qed.

End StringRoundTrip.

Section TopicRoundTrip.
Import Text Json Topic.
Variable float_repr : pystr → pystr.
Variable max_depth : nat.

Lemma process_topic (line : pystr) (d : list (pystr * value)) (id contents : value) :
  loads max_depth line = Ok (JObj d) →
  dict_get d (py "id") = Some id →
  dict_get d (py "contents") = Some contents →
  process_jsonl_line float_repr max_depth line
  = Ok (dumps float_repr (JObj [(py "id", id); (py "title", contents)])).
Proof.
  intros Hline Hid Hcontents. unfold process_jsonl_line. rewrite Hline.
  cbn [bind_result]. rewrite (getitem_some _ _ _ Hid). cbn [bind_result].
  rewrite (getitem_some _ _ _ Hcontents). cbn [bind_result].
  by rewrite topic_dict.
Qed.

(** X12. The row written for a line whose [id] and [contents] are strings
    is itself JSON: decoded again, it is the object with the two keys [id]
    and [title] and no other, bound to the very strings of the input,
    whatever characters they hold. *)
Theorem process_jsonl_line_round_trip (line : pystr) (d : list (pystr * value))
    (a b : pystr) :
  loads max_depth line = Ok (JObj d) →
  dict_get d (py "id") = Some (JStr a) →
  dict_get d (py "contents") = Some (JStr b) →
  scalar_text a → scalar_text b →
  ∃ row,
    process_jsonl_line float_repr max_depth line = Ok row
    ∧ loads max_depth row = Ok (JObj [(py "id", JStr a); (py "title", JStr b)]).
Proof.
  intros Hline Hid Hcontents Ha Hb. eexists.
  split; [by eapply process_topic|].
  apply loads_topic; [by eapply loads_object_depth|done..].
Qed.

(** X13. The transform cannot be applied to its own output: a row it wrote
    has the key [title] where it reads [contents], so that transforming the
    row raises [KeyError] for [contents]. A reformatted file is not
    reformatted twice. *)
Theorem process_jsonl_line_not_twice (line row : pystr)
    (d : list (pystr * value)) (a b : pystr) :
  loads max_depth line = Ok (JObj d) →
  dict_get d (py "id") = Some (JStr a) →
  dict_get d (py "contents") = Some (JStr b) →
  scalar_text a → scalar_text b →
  process_jsonl_line float_repr max_depth line = Ok row →
  process_jsonl_line float_repr max_depth row = Raise (KeyError "contents").
Proof.
  intros Hline Hid Hcontents Ha Hb Hrow.
  rewrite (process_topic _ _ _ _ Hline Hid Hcontents) in Hrow.
  apply Ok_inj in Hrow as <-.
  unfold process_jsonl_line.
  rewrite loads_topic by (done || by eapply loads_object_depth).
  reflexivity.
Qed.

End TopicRoundTrip.

(** ** [prep_qrels], further *)

Section QrelsMore.
Import Fs Text Qrels.

Lemma set_content_same (fs : FS) (p : path) (c : pystr) (l : gmap string leaf) :
  fs !! p.1 = Some (EDir l) → l !! p.2 = Some (Regular c) →
  set_content p c fs = fs.
Proof.
  intros Hd Hn. unfold set_content. rewrite Hd.
  by rewrite (insert_id l), (insert_id fs).
Qed.

(** Making a directory that is missing or plain gives a plain directory with
    the listing it had. *)
Lemma mkdir_plain (fs : FS) (d : string) :
  plain_dir fs d →
  ∃ fsA, mkdir_exist_ok d fs = (fsA, Ok tt)
         ∧ fsA !! d = Some (EDir (listing fs d))
         ∧ (∀ n t, listing fs d !! n ≠ Some (Link t))
         ∧ (∀ d', d' ≠ d → fsA !! d' = fs !! d').
Proof.
  unfold plain_dir, mkdir_exist_ok, listing.
  destruct (fs !! d) as [[|l]|] eqn:Hd; [done|..]; intros Hplain.
  - exists fs. by rewrite Hd.
  - exists (<[d := EDir ∅]> fs). rewrite lookup_insert_eq.
    split; [done|]. split; [done|]. split.
    + intros n t. by rewrite lookup_empty.
    + intros d' Hd'. by rewrite lookup_insert_ne.
Qed.

Lemma to_csv_raises (ds : dataset) (p : path) (columns : option (list string))
    (e : exn) (fs : FS) (l : gmap string leaf) :
  fs !! p.1 = Some (EDir l) → (∀ t, l !! p.2 ≠ Some (Link t)) →
  csv_text ds columns = Raise e →
  to_csv ds p columns fs = (set_content p [] fs, Raise e).
Proof.
  intros Hd Hl Htext. unfold to_csv.
  assert (Hopen : open_w p fs = (set_content p [] fs, Ok p)).
  { unfold open_w. destruct p as [d n].
    by rewrite (resolve_stop _ _ _ _ l). }
  rewrite (bind_ok _ _ _ _ _ Hopen).
  apply bind_raise. unfold lift. by rewrite Htext.
Qed.

Variable load_dataset : string → string → result dataset.

(** The run of [prep_qrels] on a tree whose [qrels] is missing or plain, once
    the dataset is there. *)
Lemma prep_qrels_run (qrels_ds split : string) (fs fsA : FS) (ds : dataset) :
  plain_dir fs "qrels" →
  load_dataset qrels_ds split = Ok ds →
  mkdir_exist_ok "qrels" fs = (fsA, Ok tt) →
  prep_qrels load_dataset qrels_ds split fs
  = let fsB := set_content (t2i_path split) (concat (csv_line <$> rows ds)) fsA in
    match csv_text ds (Some ["image_id"; "Q0"; "text_id"; "rel"]) with
    | Ok text => (set_content (i2t_path split) text fsB, Ok tt)
    | Raise e => (set_content (i2t_path split) [] fsB, Raise e)
    end.
Proof.
  intros Hplain Hload Hmk.
  destruct (mkdir_plain _ _ Hplain) as (fsA' & Hmk' & HdA & HlA & _).
  rewrite Hmk in Hmk'. injection Hmk' as <-.
  unfold prep_qrels.
  rewrite (bind_ok _ _ _ _ _ Hmk).
  rewrite (bind_ok _ _ fsA fsA ds) by (unfold lift; by rewrite Hload).
  rewrite (bind_ok _ _ fsA (set_content (t2i_path split)
                              (concat (csv_line <$> rows ds)) fsA) tt)
    by (by eapply to_csv_plain).
  cbv zeta.
  set (fsB := set_content (t2i_path split) _ fsA).
  assert (HdB : fsB !! "qrels"
                = Some (EDir (<[(t2i_path split).2
                                := Regular (concat (csv_line <$> rows ds))]>
                                (listing fs "qrels"))))
    by (by apply (set_content_dir fsA (t2i_path split))).
  assert (HlB : ∀ t, <[(t2i_path split).2
                       := Regular (concat (csv_line <$> rows ds))]>
                       (listing fs "qrels") !! (i2t_path split).2
                     ≠ Some (Link t)).
  { intros t Ht. apply lookup_insert_Some in Ht as [[_ [=]]|[_ Ht]].
    by apply HlA in Ht. }
  destruct (csv_text ds (Some _)) as [text|e] eqn:Htext.
  - by apply (to_csv_plain ds (i2t_path split) _ text fsB _ HdB).
  - by apply (to_csv_raises ds (i2t_path split) _ e fsB _ HdB).
Qed.

(** A download that fails, step by step. *)
Lemma prep_qrels_no_dataset (qrels_ds split : string) (fs : FS) (e : exn) :
  fs !! "qrels" ≠ Some EFile →
  load_dataset qrels_ds split = Raise e →
  ∃ fs',
    prep_qrels load_dataset qrels_ds split fs = (fs', Raise e)
    ∧ fs' !! "qrels" = Some (EDir (listing fs "qrels"))
    ∧ ∀ d, d ≠ "qrels" → fs' !! d = fs !! d.
Proof.
  intros Hfile Hload. unfold prep_qrels, listing.
  destruct (fs !! "qrels") as [[|l]|] eqn:Hq; [done|..].
  - exists fs. rewrite (bind_ok _ _ fs fs tt) by (by eapply mkdir_existing).
    split; [|done]. apply bind_raise. unfold lift. by rewrite Hload.
  - exists (<["qrels" := EDir ∅]> fs).
    rewrite (bind_ok _ _ fs (<["qrels" := EDir ∅]> fs) tt)
      by (unfold mkdir_exist_ok; by rewrite Hq).
    split; [|split].
    + apply bind_raise. unfold lift. by rewrite Hload.
    + by rewrite lookup_insert_eq.
    + intros d Hd. by rewrite lookup_insert_ne.
Qed.

(** X14. When the download of the relevance judgements fails, the error
    goes to the caller and no file is written: the directory [qrels] is
    there, made if it was missing, with the listing it had, and nothing else
    of the tree has changed. *)
Theorem prep_qrels_download_fails (qrels_ds split : string) (fs : FS) (e : exn) :
  fs !! "qrels" ≠ Some EFile →
  load_dataset qrels_ds split = Raise e →
  ∃ fs',
    prep_qrels load_dataset qrels_ds split fs = (fs', Raise e)
    ∧ fs' !! "qrels" = Some (EDir (listing fs "qrels"))
    ∧ ∀ d, d ≠ "qrels" → fs' !! d = fs !! d.
Proof. apply prep_qrels_no_dataset. Qed.

Lemma column_index_lt (names : list string) (w : string) (i : nat) :
  column_index names w = Some i → i < length names.
Proof.
  revert i. induction names as [|n names IH]; intros i; [done|].
  cbn [column_index length]. destruct (String.eqb n w).
  - intros [= <-]. lia.
  - destruct (column_index names w) as [j|]; [|done].
    intros [= <-]. specialize (IH j eq_refl). lia.
Qed.

(** The first wanted column that the dataset does not have. *)
Lemma select_columns_missing (names wanted : list string) (row : list cell)
    (w : string) :
  length row = length names →
  w ∈ wanted → column_index names w = None →
  ∃ w', select_columns names wanted row = Raise (KeyError w')
        ∧ w' ∈ wanted ∧ column_index names w' = None.
Proof.
  intros Hlen Hw Hnone. induction wanted as [|x wanted IH].
  - by apply elem_of_nil in Hw.
  - cbn [select_columns].
    destruct (column_index names x) as [i|] eqn:Hx.
    + assert (Hw' : w ∈ wanted).
      { apply elem_of_cons in Hw as [->|Hw]; [congruence|done]. }
      destruct (IH Hw') as (w' & Hsel & Hin & Hmiss).
      apply column_index_lt in Hx. rewrite <-Hlen in Hx.
      apply lookup_lt_is_Some_2 in Hx as [c ->].
      exists w'. rewrite Hsel. split; [done|]. split; [by right|done].
    + exists x. split; [done|]. split; [by left|done].
Qed.

(** X15. A dataset with records but without one of the four columns that
    the second file picks: the call raises [KeyError] for a column that is
    missing, after the first file has been written in full. The run is cut
    between the two files. *)
Theorem prep_qrels_missing_column (qrels_ds split w : string) (fs : FS)
    (ds : dataset) :
  plain_dir fs "qrels" →
  load_dataset qrels_ds split = Ok ds →
  rows ds ≠ [] →
  Forall (λ row, length row = length (column_names ds)) (rows ds) →
  w ∈ ["image_id"; "Q0"; "text_id"; "rel"] →
  column_index (column_names ds) w = None →
  ∃ fs' w',
    prep_qrels load_dataset qrels_ds split fs = (fs', Raise (KeyError w'))
    ∧ w' ∈ ["image_id"; "Q0"; "text_id"; "rel"]
    ∧ column_index (column_names ds) w' = None
    ∧ content fs' (t2i_path split) = concat (csv_line <$> rows ds).
Proof.
  intros Hplain Hload Hrows Hlen Hw Hnone.
  destruct (mkdir_plain _ _ Hplain) as (fsA & Hmk & HdA & HlA & _).
  rewrite (prep_qrels_run _ _ _ _ _ Hplain Hload Hmk). cbv zeta.
  destruct (rows ds) as [|row rs] eqn:Hds; [done|].
  apply Forall_cons in Hlen as [Hrow _].
  destruct (select_columns_missing _ _ _ _ Hrow Hw Hnone)
    as (w' & Hsel & Hin & Hmiss).
  unfold csv_text. rewrite Hds. cbn [project]. rewrite Hsel.
  eexists _, w'. split; [done|]. split; [done|]. split; [done|].
  rewrite content_set_ne by (intros H; by apply (paths_differ split)).
  by apply (content_set_eq fsA (t2i_path split) _ (listing fs "qrels")).
Qed.

Lemma select_columns_four (names : list string) (row : list cell)
    (i q t r : nat) :
  length row = length names →
  column_index names "image_id" = Some i →
  column_index names "Q0" = Some q →
  column_index names "text_id" = Some t →
  column_index names "rel" = Some r →
  ∃ a b c d,
    row !! i = Some a ∧ row !! q = Some b ∧ row !! t = Some c
    ∧ row !! r = Some d
    ∧ select_columns names ["image_id"; "Q0"; "text_id"; "rel"] row
      = Ok [a; b; c; d].
Proof.
  intros Hlen Hi Hq Ht Hr.
  pose proof (column_index_lt _ _ _ Hi) as Hi'.
  pose proof (column_index_lt _ _ _ Hq) as Hq'.
  pose proof (column_index_lt _ _ _ Ht) as Ht'.
  pose proof (column_index_lt _ _ _ Hr) as Hr'.
  rewrite <-Hlen in Hi', Hq', Ht', Hr'.
  apply lookup_lt_is_Some_2 in Hi' as [a Ha], Hq' as [b Hb],
    Ht' as [c Hc], Hr' as [d Hd].
  exists a, b, c, d. cbn [select_columns].
  by rewrite Hi, Hq, Ht, Hr, Ha, Hb, Hc, Hd.
Qed.

Lemma project_four (names : list string) (rs : list (list cell))
    (i q t r : nat) :
  Forall (λ row, length row = length names) rs →
  column_index names "image_id" = Some i →
  column_index names "Q0" = Some q →
  column_index names "text_id" = Some t →
  column_index names "rel" = Some r →
  ∃ picked,
    project names ["image_id"; "Q0"; "text_id"; "rel"] rs = Ok picked
    ∧ Forall2 (λ row p, ∃ a b c d,
                 row !! i = Some a ∧ row !! q = Some b ∧ row !! t = Some c
                 ∧ row !! r = Some d ∧ p = [a; b; c; d]) rs picked.
Proof.
  intros Hlen Hi Hq Ht Hr. induction Hlen as [|row rs Hrow _ (picked & IH & IH2)].
  - exists []. split; [done|constructor].
  - destruct (select_columns_four _ _ _ _ _ _ Hrow Hi Hq Ht Hr)
      as (a & b & c & d & Ha & Hb & Hc & Hd & Hsel).
    exists ([a; b; c; d] :: picked). cbn [project]. rewrite Hsel, IH.
    split; [done|]. constructor; [|done]. by exists a, b, c, d.
Qed.

(** X16. The two files do not read the dataset alike. The first holds every
    record as it is, all its columns in the order of the dataset. The second
    goes by the names of the columns: wherever [image_id], [Q0], [text_id] and
    [rel] stand among the columns, and whatever columns there are besides,
    each of its lines is the four cells under those names, in that order. *)
Theorem prep_qrels_by_name (qrels_ds split : string) (fs : FS) (ds : dataset)
    (i q t r : nat) :
  plain_dir fs "qrels" →
  load_dataset qrels_ds split = Ok ds →
  Forall (λ row, length row = length (column_names ds)) (rows ds) →
  column_index (column_names ds) "image_id" = Some i →
  column_index (column_names ds) "Q0" = Some q →
  column_index (column_names ds) "text_id" = Some t →
  column_index (column_names ds) "rel" = Some r →
  ∃ fs' picked,
    prep_qrels load_dataset qrels_ds split fs = (fs', Ok tt)
    ∧ Forall2 (λ row p, ∃ a b c d,
                 row !! i = Some a ∧ row !! q = Some b ∧ row !! t = Some c
                 ∧ row !! r = Some d ∧ p = [a; b; c; d]) (rows ds) picked
    ∧ content fs' (i2t_path split) = concat (csv_line <$> picked)
    ∧ content fs' (t2i_path split) = concat (csv_line <$> rows ds).
Proof.
  intros Hplain Hload Hlen Hi Hq Ht Hr.
  destruct (mkdir_plain _ _ Hplain) as (fsA & Hmk & HdA & HlA & _).
  rewrite (prep_qrels_run _ _ _ _ _ Hplain Hload Hmk). cbv zeta.
  destruct (project_four _ _ _ _ _ _ Hlen Hi Hq Ht Hr) as (picked & Hp & Hpicked).
  unfold csv_text. rewrite Hp.
  eexists _, picked. split; [done|]. split; [done|]. split.
  - eapply content_set_eq. by apply (set_content_dir fsA (t2i_path split)).
  - rewrite content_set_ne by (intros H; by apply (paths_differ split)).
    by apply (content_set_eq fsA (t2i_path split) _ (listing fs "qrels")).
Qed.

(** X17. Writing the relevance files is repeatable: after a run that ended
    well, a second run for the same split, the download giving the same
    records, ends well too and leaves the tree as it found it. *)
Theorem prep_qrels_again (qrels_ds split : string) (fs fs' : FS) :
  plain_dir fs "qrels" →
  prep_qrels load_dataset qrels_ds split fs = (fs', Ok tt) →
  prep_qrels load_dataset qrels_ds split fs' = (fs', Ok tt).
Proof.
  intros Hplain Hrun.
  destruct (mkdir_plain _ _ Hplain) as (fsA & Hmk & HdA & HlA & _).
  destruct (load_dataset qrels_ds split) as [ds|e] eqn:Hload; cycle 1.
  { unfold prep_qrels in Hrun. rewrite (bind_ok _ _ _ _ _ Hmk) in Hrun.
    rewrite (bind_raise _ _ fsA fsA e) in Hrun; [done|].
    unfold lift. by rewrite Hload. }
  rewrite (prep_qrels_run _ _ _ _ _ Hplain Hload Hmk) in Hrun. cbv zeta in Hrun.
  destruct (csv_text ds (Some _)) as [text|e] eqn:Htext; [|done].
  injection Hrun as Hfs'.
  set (text1 := concat (csv_line <$> rows ds)) in *.
  set (l' := <[(i2t_path split).2 := Regular text]>
               (<[(t2i_path split).2 := Regular text1]> (listing fs "qrels"))).
  assert (Hd' : fs' !! "qrels" = Some (EDir l')).
  { rewrite <-Hfs'. apply (set_content_dir _ (i2t_path split)).
    by apply (set_content_dir fsA (t2i_path split)). }
  assert (Hplain' : plain_dir fs' "qrels").
  { unfold plain_dir. rewrite Hd'. intros n t Hn. unfold l' in Hn.
    apply lookup_insert_Some in Hn as [[_ [=]]|[_ Hn]].
    apply lookup_insert_Some in Hn as [[_ [=]]|[_ Hn]].
    by apply HlA in Hn. }
  rewrite (prep_qrels_run _ _ fs' fs' ds Hplain' Hload)
    by (by eapply mkdir_existing).
  cbv zeta. rewrite Htext. fold text1.
  rewrite (set_content_same fs' (t2i_path split) text1 l'); [|done|].
  - by rewrite (set_content_same fs' (i2t_path split) text l');
      [|done|apply lookup_insert_eq].
  - unfold l'. rewrite lookup_insert_ne; [apply lookup_insert_eq|].
    intros H. apply (paths_differ split). unfold i2t_path, t2i_path in *.
    simpl in H. by rewrite H.
Qed.

End QrelsMore.

(** ** [search_anserini], further *)

Section SearchAnseriniMore.
Import Fs Index Driver.

Variable resolved_str : string → string.
Variable SearchCollection_main : list string → FS → FS * bool.

Abbreviation anserini_search := (Driver.anserini_search SearchCollection_main).
Abbreviation search_anserini :=
  (Driver.search_anserini resolved_str SearchCollection_main).

Lemma touches_only_search (D : string → Prop) (args : list string) :
  searcher_frame SearchCollection_main → D "runs" →
  touches_only D (anserini_search args).
Proof.
  intros Hframe HD fs d Hd. unfold Driver.anserini_search.
  pose proof (Hframe args fs d) as H.
  destruct (SearchCollection_main args fs) as [fs' []]; simpl in *;
    apply H; by intros ->.
Qed.

Lemma anserini_search_raises (args : list string) (fs : FS) (e : exn) :
  (anserini_search args fs).2 = Raise e → e = JavaException.
Proof.
  unfold Driver.anserini_search.
  destruct (SearchCollection_main args fs) as [fs' []]; simpl; [done|].
  by intros [= <-].
Qed.

Lemma mkdir_raises (d : string) (fs : FS) (e : exn) :
  (mkdir_exist_ok d fs).2 = Raise e → e = FileExistsError.
Proof.
  unfold mkdir_exist_ok. destruct (fs !! d) as [[|l]|]; simpl; try done.
  by intros [= <-].
Qed.

Lemma bind_raises {S A B} (m : M S A) (k : A → M S B) (s : S) (e : exn) :
  (bind m k s).2 = Raise e →
  (m s).2 = Raise e ∨ ∃ s1 a, (k a s1).2 = Raise e.
Proof.
  unfold bind. destruct (m s) as [s1 [a|e']] eqn:Hm; simpl; intros H.
  - right. by exists s1, a.
  - left. by injection H as ->.
Qed.

(** X18. However it is called and however it ends, [search_anserini]
    changes nothing of the output directory but [runs]: the indexes, the
    staging directories and the topic files are read, never written. *)
Theorem search_anserini_footprint (split : option string) (setting d : string)
    (fs : FS) :
  searcher_frame SearchCollection_main →
  d ≠ "runs" →
  (search_anserini split setting fs).1 !! d = fs !! d.
Proof.
  intros Hframe Hd.
  assert (H : touches_only (λ d, d = "runs") (search_anserini split setting)).
  { unfold Driver.search_anserini.
    apply touches_only_bind; [apply touches_only_lift|intros pf].
    apply touches_only_bind; [by apply touches_only_mkdir|intros _].
    apply touches_only_bind; [by apply touches_only_search|intros _].
    by apply touches_only_search. }
  by apply H.
Qed.

(** X19. [search_anserini] has no check of its own on the split: called for
    [small] without one, it raises [TypeError] where the postfix is built,
    before [runs] is created, and that is the only way it raises
    [TypeError]; it never raises the usage error of [create_index]. *)
Theorem search_anserini_no_split (split : option string) (setting : string)
    (fs : FS) :
  ((search_anserini split setting fs).2 = Raise TypeError
   ↔ setting = "small" ∧ split = None)
  ∧ (search_anserini None "small" fs = (fs, Raise TypeError))
  ∧ ∀ msg, (search_anserini split setting fs).2 ≠ Raise (Exception msg).
Proof.
  assert (Hrest : ∀ pf e fs,
            (bind (mkdir_exist_ok "runs") (λ _,
               bind (anserini_search
                       (i2t_search_args resolved_str setting pf split)) (λ _,
                 anserini_search
                   (t2i_search_args resolved_str setting pf split))) fs).2
            = Raise e → e = FileExistsError ∨ e = JavaException).
  { intros pf e fs0 H.
    apply bind_raises in H as [H|(fs1 & [] & H)];
      [left; by eapply mkdir_raises|right].
    apply bind_raises in H as [H|(fs2 & [] & H)];
      by eapply anserini_search_raises. }
  split; [|split; [done|]].
  - split.
    + unfold Driver.search_anserini, postfix.
      destruct (String.eqb_spec setting "small") as [->|Hne].
      * destruct split as [s|]; [|done].
        rewrite (bind_ok _ _ fs fs ("." +:+ s)) by done.
        intros H. by apply Hrest in H as [|].
      * rewrite (bind_ok _ _ fs fs "") by done.
        intros H. by apply Hrest in H as [|].
    + by intros [-> ->].
  - intros msg. unfold Driver.search_anserini, postfix.
    destruct (String.eqb_spec setting "small") as [->|Hne].
    + destruct split as [s|]; [|done].
      rewrite (bind_ok _ _ fs fs ("." +:+ s)) by done.
      intros H. by apply Hrest in H as [|].
    + rewrite (bind_ok _ _ fs fs "") by done.
      intros H. by apply Hrest in H as [|].
Qed.

Variable path_str : string → string.
Variable float_repr : pystr → pystr.
Variable max_depth : nat.
Variable schedule_of : path → list nat.

(** X20. The searches are given what the stages before them made. For a
    setting and a split that [main] reformats, the index of the search from
    images to texts is the text index that [create_index] had the engine
    build, and its topics are the file that the reformatting wrote in the
    staging directory of the images; and the other way round for the search
    from texts to images. *)
Theorem search_reads_what_was_built (setting s pf : string) :
  postfix setting (Some s) = Ok pf →
  setting = "small" ∨ s ≠ "test" →
  text_indexing_args path_str resolved_str setting pf !! 5
  = Some (path_str (index_dir "text" setting pf))
  ∧ image_indexing_args path_str resolved_str setting pf !! 5
    = Some (path_str (index_dir "image" setting pf))
  ∧ i2t_search_args resolved_str setting pf (Some s) !! 1
    = Some (resolved_str (index_dir "text" setting pf))
  ∧ t2i_search_args resolved_str setting pf (Some s) !! 1
    = Some (resolved_str (index_dir "image" setting pf))
  ∧ i2t_search_args resolved_str setting pf (Some s) !! 3
    = Some (resolved_str (image_dir setting pf +:+ "/"
                          +:+ s +:+ ".image-caption.search.jsonl"))
  ∧ t2i_search_args resolved_str setting pf (Some s) !! 3
    = Some (resolved_str (text_dir setting pf +:+ "/"
                          +:+ s +:+ ".text.search.jsonl"))
  ∧ reformat float_repr max_depth schedule_of setting s
    = (convert float_repr max_depth schedule_of
         (text_dir setting pf, s +:+ ".text.jsonl")
         (text_dir setting pf, s +:+ ".text.search.jsonl") ;;;
       convert float_repr max_depth schedule_of
         (image_dir setting pf, s +:+ ".image-caption.jsonl")
         (image_dir setting pf, s +:+ ".image-caption.search.jsonl"))%M.
Proof.
  intros Hpf Hs.
  split; [done|]. split; [done|]. split; [done|]. split; [done|].
  split; [|split].
  - cbn [i2t_search_args search_args lookup list_lookup]. f_equal. f_equal.
    unfold topics_file, image_dir, format_split.
    by rewrite !append_assoc.
  - cbn [t2i_search_args search_args lookup list_lookup]. f_equal. f_equal.
    unfold topics_file, text_dir, format_split.
    by rewrite !append_assoc.
  - unfold reformat, postfix in *.
    destruct (String.eqb_spec setting "small") as [->|Hne]; cbn [negb andb].
    + by injection Hpf as <-.
    + injection Hpf as <-. destruct Hs as [|Hs]; [done|].
      apply String.eqb_neq in Hs. by rewrite Hs.
Qed.

End SearchAnseriniMore.

(** ** [main] *)

Section MainMore.
Import Fs Glob Index Driver.

Lemma for_each_ext {S A} (xs : list A) (f g : A → M S unit) :
  (∀ x, x ∈ xs → f x = g x) → for_each xs f = for_each xs g.
Proof.
  induction xs as [|x xs IH]; intros H; [done|].
  cbn [for_each]. rewrite (H x) by (by left).
  rewrite IH; [done|]. intros y Hy. apply H. by right.
Qed.

Variable path_str : string → string.
Variable resolved_str : string → string.
Variable absolute : bool.
Variable IndexCollection_main : list string → FS → FS * bool.
Variable SearchCollection_main : list string → FS → FS * bool.
Variable float_repr : pystr → pystr.
Variable max_depth : nat.
Variable load_dataset : string → string → result Qrels.dataset.
Variable encode : string → string → string → string → string → M FS unit.
Variable schedule_of : path → list nat.

Abbreviation create_index :=
  (Index.create_index path_str resolved_str absolute IndexCollection_main).
Abbreviation index_stage :=
  (Driver.index_stage path_str resolved_str absolute IndexCollection_main).
Abbreviation main_with := (λ load_dataset,
  Driver.main path_str resolved_str absolute IndexCollection_main
    SearchCollection_main float_repr max_depth load_dataset encode schedule_of).

(** X21. [main] asks for the relevance judgements of [train], [validation]
    and [test], and never for those of [other]: what the download would give
    for [other] has no bearing on the run. *)
Theorem main_never_loads_other
    (load_dataset' : string → string → result Qrels.dataset)
    (qrels images texts : string) :
  (∀ split, split ≠ "other" →
            load_dataset' qrels split = load_dataset qrels split) →
  main_with load_dataset' qrels images texts
  = main_with load_dataset qrels images texts.
Proof.
  intros Hsame. unfold Driver.main. f_equal. unfold prep_stage.
  apply for_each_ext. intros split _.
  destruct (String.eqb_spec split "other") as [|Hne]; [done|].
  unfold Qrels.prep_qrels. by rewrite Hsame.
Qed.

(** X22. When the very first download fails, [main] stops there with the
    error of the download: the directory [qrels] has been made, and nothing
    has been encoded, indexed, reformatted or searched. *)
Theorem main_download_failure_stops (qrels images texts : string) (fs : FS)
    (e : exn) :
  fs !! "qrels" ≠ Some EFile →
  load_dataset qrels "train" = Raise e →
  ∃ fs',
    main_with load_dataset qrels images texts fs = (fs', Raise e)
    ∧ fs' !! "qrels" = Some (EDir (listing fs "qrels"))
    ∧ ∀ d, d ≠ "qrels" → fs' !! d = fs !! d.
Proof.
  intros Hfile Hload.
  destruct (prep_qrels_no_dataset load_dataset qrels "train" fs e Hfile Hload)
    as (fs' & Hrun & Hq & Hother).
  exists fs'. split; [|done].
  unfold Driver.main. apply bind_raise.
  unfold prep_stage, SPLITS. cbn [for_each].
  change (String.eqb "train" "other") with false. cbv iota.
  by apply bind_raise.
Qed.

Lemma never_usage_lift_ok {A} (r : result A) (a : A) :
  r = Ok a → never_usage (S := FS) (lift r).
Proof. intros -> fs msg. done. Qed.

Lemma never_usage_anserini_index (args : list string) :
  never_usage (Index.anserini_index IndexCollection_main args).
Proof.
  intros fs msg. unfold Index.anserini_index.
  by destruct (IndexCollection_main args fs) as [fs' []].
Qed.

Lemma create_index_checked (setting : string) (split : option string) :
  check_usage setting split = Ok tt →
  never_usage (create_index setting split).
Proof.
  intros Hcheck. unfold Index.create_index.
  apply never_usage_bind; [by eapply never_usage_lift_ok|intros _].
  apply never_usage_bind; [apply never_usage_lift_postfix|intros pf].
  apply never_usage_bind; [apply never_usage_mkdir|intros _].
  apply never_usage_bind; [apply never_usage_mkdir|intros _].
  apply never_usage_bind; [apply never_usage_get|intros fs'].
  apply never_usage_bind; [apply never_usage_bound|intros ps].
  apply never_usage_bind;
    [apply never_usage_for_each; intros; apply never_usage_symlink|intros _].
  apply never_usage_bind; [apply never_usage_bound|intros ps'].
  apply never_usage_bind;
    [apply never_usage_for_each; intros; apply never_usage_symlink|intros _].
  apply never_usage_bind; [apply never_usage_mkdir|intros _].
  apply never_usage_bind; [apply never_usage_anserini_index|intros _].
  apply never_usage_anserini_index.
Qed.

(** X23. The indexing loop of [main] never trips the usage check of
    [create_index]: it names a split whenever the setting is [small], so
    that, whatever the tree and the engine, the loop never raises the usage
    error. *)
Theorem index_stage_never_usage (fs : FS) (msg : string) :
  (index_stage fs).2 ≠ Raise (Exception msg).
Proof.
  revert fs msg. change (never_usage index_stage). unfold Driver.index_stage.
  apply never_usage_for_each. intros setting.
  destruct (String.eqb_spec setting "small") as [->|Hne].
  - apply never_usage_bind; [|intros _]; by apply create_index_checked.
  - apply create_index_checked. unfold check_usage.
    apply String.eqb_neq in Hne. by rewrite Hne.
Qed.

End MainMore.

(** ** The indexing loop of [main] *)

Section IndexStage.
Import Fs Glob Index Driver.

Variable path_str : string → string.
Variable resolved_str : string → string.
Variable absolute : bool.
Variable IndexCollection_main : list string → FS → FS * bool.

Abbreviation create_index :=
  (Index.create_index path_str resolved_str absolute IndexCollection_main).
Abbreviation index_stage :=
  (Driver.index_stage path_str resolved_str absolute IndexCollection_main).
Abbreviation link_target := (Index.link_target path_str absolute).

Hypothesis Hframe : indexer_frame IndexCollection_main.
Hypothesis Hkeep : indexer_keeps_indexes IndexCollection_main.
Hypothesis Hok : ∀ args fs, (IndexCollection_main args fs).2 = true.

Lemma create_index_ok_indexes (setting : string) (split : option string)
    (fs fs1 : FS) :
  create_index setting split fs = (fs1, Ok tt) →
  ∃ l, fs1 !! "indexes" = Some (EDir l).
Proof.
  intros Hrun. unfold Index.create_index in Hrun.
  apply bind_ok_inv in Hrun as (? & [] & _ & Hrun).
  apply bind_ok_inv in Hrun as (? & pf & _ & Hrun).
  apply bind_ok_inv in Hrun as (fsA & [] & _ & Hrun).
  apply bind_ok_inv in Hrun as (fsB & [] & _ & Hrun).
  apply bind_ok_inv in Hrun as (? & ? & _ & Hrun).
  cbv zeta in Hrun.
  apply bind_ok_inv in Hrun as (? & sel_t & _ & Hrun).
  apply bind_ok_inv in Hrun as (fsC & [] & _ & Hrun).
  apply bind_ok_inv in Hrun as (? & sel_i & _ & Hrun).
  apply bind_ok_inv in Hrun as (fsD & [] & _ & Hrun).
  apply bind_ok_inv in Hrun as (fsE & [] & HmkX & Hrun).
  apply bind_ok_inv in Hrun as (fsF & [] & H1 & H2).
  apply (anserini_ok_inv IndexCollection_main) in H1 as ->.
  apply (anserini_ok_inv IndexCollection_main) in H2 as ->.
  apply mkdir_ok_inv in HmkX as (_ & [lE DE] & _).
  destruct (Hkeep (text_indexing_args path_str resolved_str setting pf)
              fsE lE DE) as [l1 Hl1].
  eapply Hkeep, Hl1.
Qed.

(** One call of the loop, on a tree whose collections are those of [fs0]. *)
Lemma create_index_step (setting pf : string) (split : option string)
    (fs0 fs : FS) (sel_t sel_i : list string) :
  check_usage setting split = Ok tt →
  postfix setting split = Ok pf →
  fs !! text_dir setting pf = None →
  fs !! image_dir setting pf = None →
  fs !! "indexes" ≠ Some EFile →
  fs !! "text-collection" = fs0 !! "text-collection" →
  fs !! "image-collection" = fs0 !! "image-collection" →
  select "text-collection" setting split fs0 = Some sel_t →
  select "image-collection" setting split fs0 = Some sel_i →
  ∃ fs1,
    create_index setting split fs = (fs1, Ok tt)
    ∧ (∀ n, listing fs1 (text_dir setting pf) !! n
            = if decide (n ∈ sel_t)
              then Some (Link (link_target (text_dir setting pf)
                                 "text-collection" n))
              else None)
    ∧ (∀ n, listing fs1 (image_dir setting pf) !! n
            = if decide (n ∈ sel_i)
              then Some (Link (link_target (image_dir setting pf)
                                 "image-collection" n))
              else None)
    ∧ (∀ d, d ≠ text_dir setting pf → d ≠ image_dir setting pf →
            d ≠ "indexes" → fs1 !! d = fs !! d)
    ∧ fs1 !! "indexes" ≠ Some EFile.
Proof.
  intros Hcheck Hpf HT HI HX HcT HcI HselT HselI.
  rewrite <-(select_ext _ _ _ _ _ HcT) in HselT.
  rewrite <-(select_ext _ _ _ _ _ HcI) in HselI.
  destruct (create_index_fresh_run path_str resolved_str absolute IndexCollection_main
              setting pf split fs sel_t sel_i)
    as (fs1 & lt & li & Hrun & HdT & Hlt & HdI & Hli & Hother); try done.
  exists fs1. split; [done|]. unfold listing. rewrite HdT, HdI.
  split; [done|]. split; [done|]. split; [done|].
  destruct (create_index_ok_indexes _ _ _ _ Hrun) as [l ->]. done.
Qed.

Ltac distinct := apply String.eqb_neq; reflexivity.

(** X24. The indexing loop of [main] on a fresh tree: when none of the
    eight staging directories is there yet, [indexes] is not a file, and the
    engine does not fail and keeps to [indexes], the four calls of
    [create_index] all end well; the encoded shards are as they were; and
    the staging directories of each call hold one link per shard that the
    call selects in the tree as it was before the loop, each under the name
    of the shard and holding the text of its path, and nothing else: no call
    disturbs what another has staged. *)
Theorem index_stage_first_run (fs : FS) :
  (∀ setting split pf,
     (setting, split) ∈ index_calls → postfix setting split = Ok pf →
     fs !! text_dir setting pf = None ∧ fs !! image_dir setting pf = None) →
  fs !! "indexes" ≠ Some EFile →
  ∃ fs',
    index_stage fs = (fs', Ok tt)
    ∧ fs' !! "text-collection" = fs !! "text-collection"
    ∧ fs' !! "image-collection" = fs !! "image-collection"
    ∧ ∀ setting split pf sel_t sel_i,
        (setting, split) ∈ index_calls → postfix setting split = Ok pf →
        select "text-collection" setting split fs = Some sel_t →
        select "image-collection" setting split fs = Some sel_i →
        (∀ n, listing fs' (text_dir setting pf) !! n
              = if decide (n ∈ sel_t)
                then Some (Link (link_target (text_dir setting pf)
                                   "text-collection" n))
                else None)
        ∧ (∀ n, listing fs' (image_dir setting pf) !! n
                = if decide (n ∈ sel_i)
                  then Some (Link (link_target (image_dir setting pf)
                                     "image-collection" n))
                  else None).
Proof.
  intros Hfresh HX.
  destruct (Hfresh "small" (Some "validation") ".validation") as [T1 I1];
    [by left|done|].
  destruct (Hfresh "small" (Some "test") ".test") as [T2 I2];
    [by right; left|done|].
  destruct (Hfresh "base" None "") as [T3 I3]; [by do 2 right; left|done|].
  destruct (Hfresh "large" None "") as [T4 I4]; [by do 3 right; left|done|].
  clear Hfresh.
  (* the four calls, one after the other *)
  destruct (create_index_step "small" ".validation" (Some "validation") fs fs
              (glob fs "text-collection" "validation*.jsonl")
              (glob fs "image-collection" "validation*.jsonl"))
    as (fs1 & R1 & LT1 & LI1 & F1 & X1); try done.
  destruct (create_index_step "small" ".test" (Some "test") fs fs1
              (glob fs "text-collection" "test*.jsonl")
              (glob fs "image-collection" "test*.jsonl"))
    as (fs2 & R2 & LT2 & LI2 & F2 & X2); try done;
    try (rewrite F1 by distinct; done).
  destruct (create_index_step "base" "" None fs fs2
              (concat ((λ s, glob fs "text-collection" (s +:+ "*.jsonl"))
                         <$> ["train"; "validation"; "test"]))
              (concat ((λ s, glob fs "image-collection" (s +:+ "*.jsonl"))
                         <$> ["train"; "validation"; "test"])))
    as (fs3 & R3 & LT3 & LI3 & F3 & X3); try done;
    try (rewrite F2, F1 by distinct; done).
  destruct (create_index_step "large" "" None fs fs3
              (glob fs "text-collection" "*.jsonl")
              (glob fs "image-collection" "*.jsonl"))
    as (fs4 & R4 & LT4 & LI4 & F4 & X4); try done;
    try (rewrite F3, F2, F1 by distinct; done).
  exists fs4. split; [|split; [|split]].
  - unfold Driver.index_stage, SETTINGS. cbn [for_each].
    change (String.eqb "small" "small") with true.
    change (String.eqb "base" "small") with false.
    change (String.eqb "large" "small") with false. cbv iota.
    rewrite (bind_ok _ _ fs fs2 tt) by (by rewrite (bind_ok _ _ _ _ _ R1)).
    rewrite (bind_ok _ _ _ _ _ R3), (bind_ok _ _ _ _ _ R4). done.
  - by rewrite F4, F3, F2, F1 by distinct.
  - by rewrite F4, F3, F2, F1 by distinct.
  - intros setting split pf sel_t sel_i Hcall Hpf HselT HselI.
    unfold index_calls in Hcall. rewrite !elem_of_cons in Hcall.
    destruct Hcall as [[= -> ->]|[[= -> ->]|[[= -> ->]|[[= -> ->]|Hnil]]]];
      [..|by apply elem_of_nil in Hnil];
      injection Hpf as <-; injection HselT as <-; injection HselI as <-;
      unfold listing in *.
    + split; intros n; rewrite F4, F3, F2 by distinct; [apply LT1|apply LI1].
    + split; intros n; rewrite F4, F3 by distinct; [apply LT2|apply LI2].
    + split; intros n; rewrite F4 by distinct; [apply LT3|apply LI3].
    + split; intros n; [apply LT4|apply LI4].
Qed.

End IndexStage.

(** ** The further properties at work on the small tree *)

Section FurtherInstances.
Import Fs Glob Index Text Json Topic Pool Search Qrels Driver Example.

Lemma idle_frame : indexer_frame idle_indexer.
Proof. intros args fs d _. reflexivity. Qed.

Lemma idle_keeps_indexes : indexer_keeps_indexes idle_indexer.
Proof. intros args fs l Hl. exists l. exact Hl. Qed.

Lemma idle_searcher_frame : searcher_frame idle_indexer.
Proof. intros args fs d _. reflexivity. Qed.

Lemma scalar_ascii (s : pystr) : ascii_text s → scalar_text s.
Proof.
  unfold ascii_text, scalar_text. intros H. eapply Forall_impl; [exact H|].
  intros c Hc. unfold printable in Hc. apply andb_prop in Hc as [_ Hc].
  apply N.leb_le in Hc. unfold scalar. lia.
Qed.

Lemma base_text_shards :
  select "text-collection" "base" None encoded
  = Some ["train.text.jsonl"; "validation.text.jsonl"; "test.text.jsonl"].
Proof. vm_compute. reflexivity. Qed.



Lemma create_index_unknown_setting_witness :
("medium" ∉ SETTINGS)
  ∧ ∃ fs',
      create_index path_str path_str absolute idle_indexer "medium" None encoded
      = (fs', Raise UnboundLocalError)
      ∧ fs' !! "text-collection.medium" = Some (EDir ∅)
      ∧ fs' !! "indexes" = None.
Proof.
  assert (H : "medium" ∉ SETTINGS).
  { unfold SETTINGS. rewrite !not_elem_of_cons.
    repeat split; try discriminate. apply not_elem_of_nil. }
  split; [exact H|].
  destruct (create_index_unknown_setting path_str path_str absolute idle_indexer
              "medium" None encoded H)
    as (fs' & Hrun & HT & _ & Hother).
  - vm_compute. reflexivity.
  - vm_compute. reflexivity.
  - vm_compute. discriminate.
  - vm_compute. discriminate.
  - exists fs'. split; [exact Hrun|]. split; [exact HT|].
    rewrite Hother; [vm_compute; reflexivity|discriminate..].
Defined.




Lemma select_nested_witness :
  select "text-collection" "small" (Some "validation") encoded
  = Some ["validation.text.jsonl"]
  ∧ "validation.text.jsonl"
    ∈ ["train.text.jsonl"; "validation.text.jsonl"; "test.text.jsonl"]
  ∧ "validation.text.jsonl" ∈ listdir encoded "text-collection".
Proof.
  assert (Hs : select "text-collection" "small" (Some "validation") encoded
               = Some ["validation.text.jsonl"]) by (vm_compute; reflexivity).
  assert (Hl : select "text-collection" "large" None encoded
               = Some (listdir encoded "text-collection"))
    by (vm_compute; reflexivity).
  destruct (select_nested "text-collection" "validation" encoded _ _ _
              ltac:(right; left) Hs base_text_shards Hl) as [Hsb Hbl].
  split; [exact Hs|]. split.
  - apply Hsb. left.
  - apply Hbl, Hsb. left.
Defined.

Lemma convert_unreadable_input_witness :
  convert_jsonl_for_search float_repr max_depth [0]
    ("text-collection.base", "missing.text.jsonl")
    ("text-collection.base", "missing.text.search.jsonl") staged
  = (staged, Raise FileNotFoundError).
Proof.
  apply (proj1 (convert_unreadable_input float_repr max_depth 16 [0]
                  ("text-collection.base", "missing.text.jsonl")
                  ("text-collection.base", "missing.text.search.jsonl")
                  staged)).
  vm_compute. reflexivity.
Defined.

Lemma convert_onto_itself_witness :
  content staged ("text-collection", "validation.text.jsonl") = text_shard
  ∧ content
      (convert_jsonl_for_search float_repr max_depth [0]
         ("text-collection.base", "validation.text.jsonl")
         ("text-collection", "validation.text.jsonl") staged).1
      ("text-collection", "validation.text.jsonl") = [].
Proof.
  split; [vm_compute; reflexivity|].
  destruct (convert_onto_itself float_repr max_depth [0]
              ("text-collection.base", "validation.text.jsonl")
              ("text-collection", "validation.text.jsonl")
              ("text-collection", "validation.text.jsonl") staged)
    as (Hrun & _ & Hempty).
  - vm_compute. reflexivity.
  - vm_compute. reflexivity.
  - rewrite Hrun. exact Hempty.
Defined.

Lemma convert_changes_output_only_witness :
  content
    (convert_jsonl_for_search float_repr max_depth [1; 0]
       ("text-collection.base", "validation.text.jsonl")
       ("text-collection.base", "validation.text.search.jsonl") staged).1
    ("text-collection", "validation.text.jsonl")
  = text_shard.
Proof.
  destruct (convert_changes_output_only float_repr max_depth 16 [1; 0]
              ("text-collection.base", "validation.text.jsonl")
              ("text-collection.base", "validation.text.search.jsonl") staged
              ("text-collection", "validation.text.jsonl")) as [Hc _].
  - intros f Hf. vm_compute in Hf. injection Hf as <-. discriminate.
  - unfold convert_jsonl_for_search. rewrite Hc. vm_compute. reflexivity.
Defined.

Lemma convert_again_witness :
  let once :=
    (convert_jsonl_for_search float_repr max_depth [1; 0]
       ("text-collection.base", "validation.text.jsonl")
       ("text-collection.base", "validation.text.search.jsonl") staged).1 in
  convert_with_pool float_repr max_depth 1 [0; 1]
    ("text-collection.base", "validation.text.jsonl")
    ("text-collection.base", "validation.text.search.jsonl") once
  = (once, Ok tt).
Proof.
  cbv zeta.
  apply (convert_again float_repr max_depth 16 1 [1; 0] [0; 1]
           ("text-collection.base", "validation.text.jsonl")
           ("text-collection.base", "validation.text.search.jsonl")
           ("text-collection", "validation.text.jsonl")
           ("text-collection.base", "validation.text.search.jsonl")
           staged
           (open_w ("text-collection.base", "validation.text.search.jsonl")
              staged).1).
  - lia.
  - lia.
  - vm_compute. reflexivity.
  - vm_compute. reflexivity.
  - discriminate.
  - unfold complete_schedule. rewrite staged_lines. vm_compute.
    apply perm_swap.
  - unfold complete_schedule. rewrite staged_lines. vm_compute. reflexivity.
  - vm_compute. reflexivity.
Defined.

Lemma process_jsonl_line_not_object_witness :
  loads max_depth (py "['x1', 'a caption']") = Ok (JArr [JStr (py "x1"); JStr (py "a caption")])
  ∧ process_jsonl_line float_repr max_depth (py "['x1', 'a caption']") = Raise TypeError.
Proof.
  assert (H : loads max_depth (py "['x1', 'a caption']")
              = Ok (JArr [JStr (py "x1"); JStr (py "a caption")]))
    by (vm_compute; reflexivity).
  split; [exact H|].
  apply (process_jsonl_line_not_object float_repr max_depth _ _ H).
  intros d. discriminate.
Defined.

Lemma process_jsonl_line_one_line_witness :
  process_jsonl_line float_repr max_depth (py "{'id': 'x1', 'contents': 'a\nb'}" ++ [LF])
  = Ok (py "{'id': 'x1', 'title': 'a\nb'}")
  ∧ readlines (py "{'id': 'x1', 'title': 'a\nb'}" ++ [LF])
    = [py "{'id': 'x1', 'title': 'a\nb'}" ++ [LF]].
Proof.
  assert (H : process_jsonl_line float_repr max_depth
                (py "{'id': 'x1', 'contents': 'a\nb'}" ++ [LF])
              = Ok (py "{'id': 'x1', 'title': 'a\nb'}"))
    by (vm_compute; reflexivity).
  split; [exact H|].
  exact (proj2 (proj2 (proj2 (process_jsonl_line_one_line float_repr max_depth _ _
                                float_repr_ascii H)))).
Defined.

Lemma process_jsonl_line_round_trip_witness :
  ∃ row,
    process_jsonl_line float_repr max_depth
      (py "{'id': 'x1', 'contents': 'a\nb', 'extra': 1}" ++ [LF]) = Ok row
    ∧ loads max_depth row
      = Ok (JObj [(py "id", JStr (py "x1")); (py "title", JStr [97; 10; 98]%N)]).
Proof.
  apply (process_jsonl_line_round_trip float_repr max_depth
           (py "{'id': 'x1', 'contents': 'a\nb', 'extra': 1}" ++ [LF])
           [(py "id", JStr (py "x1")); (py "contents", JStr [97; 10; 98]%N);
            (py "extra", JInt 1)]
           (py "x1") [97; 10; 98]%N).
  - vm_compute. reflexivity.
  - vm_compute. reflexivity.
  - vm_compute. reflexivity.
  - repeat (apply Forall_cons_2; [split; [left|]; reflexivity|]).
    apply Forall_nil_2.
  - repeat (apply Forall_cons_2; [split; [left|]; reflexivity|]).
    apply Forall_nil_2.
Defined.

Lemma process_jsonl_line_not_twice_witness :
  process_jsonl_line float_repr max_depth (py "{'id': 'x1', 'contents': 'a caption'}")
  = Ok (py "{'id': 'x1', 'title': 'a caption'}")
  ∧ process_jsonl_line float_repr max_depth (py "{'id': 'x1', 'title': 'a caption'}")
    = Raise (KeyError "contents").
Proof.
  assert (H : process_jsonl_line float_repr max_depth
                (py "{'id': 'x1', 'contents': 'a caption'}")
              = Ok (py "{'id': 'x1', 'title': 'a caption'}"))
    by (vm_compute; reflexivity).
  split; [exact H|].
  apply (process_jsonl_line_not_twice float_repr max_depth
           (py "{'id': 'x1', 'contents': 'a caption'}") _
           [(py "id", JStr (py "x1")); (py "contents", JStr (py "a caption"))]
           (py "x1") (py "a caption")).
  - vm_compute. reflexivity.
  - vm_compute. reflexivity.
  - vm_compute. reflexivity.
  - apply scalar_ascii. by vm_compute; repeat constructor.
  - apply scalar_ascii. by vm_compute; repeat constructor.
  - exact H.
Defined.

Lemma prep_qrels_download_fails_witness :
  ∃ fs',
    prep_qrels (λ _ _, Raise DatasetError) "TREC-AToMiC/AToMiC-Qrels-v0.2"
      "train" encoded = (fs', Raise DatasetError)
    ∧ fs' !! "qrels" = Some (EDir ∅)
    ∧ fs' !! "text-collection" = encoded !! "text-collection".
Proof.
  destruct (prep_qrels_download_fails (λ _ _, Raise DatasetError)
              "TREC-AToMiC/AToMiC-Qrels-v0.2" "train" encoded DatasetError)
    as (fs' & Hrun & Hq & Hother).
  - vm_compute. discriminate.
  - reflexivity.
  - exists fs'. split; [exact Hrun|]. split; [exact Hq|].
    apply Hother. discriminate.
Defined.

Lemma prep_qrels_missing_column_witness :
  let ds := {| column_names := ["text_id"; "Q0"; "image_id"];
               rows := [[CStr (py "t1"); CStr (py "Q0"); CStr (py "i1")]] |} in
  ∃ fs',
    prep_qrels (λ _ _, Ok ds) "TREC-AToMiC/AToMiC-Qrels-v0.2" "test" encoded
    = (fs', Raise (KeyError "rel"))
    ∧ content fs' (t2i_path "test") = py "t1 Q0 i1" ++ [LF].
Proof.
  intros ds.
  destruct (prep_qrels_missing_column (λ _ _, Ok ds)
              "TREC-AToMiC/AToMiC-Qrels-v0.2" "test" "rel" encoded ds)
    as (fs' & w' & Hrun & _ & _ & Hcontent).
  - vm_compute. exact I.
  - reflexivity.
  - discriminate.
  - repeat constructor.
  - do 3 right. left.
  - reflexivity.
  - exists fs'. split; [|rewrite Hcontent; vm_compute; reflexivity].
    rewrite Hrun. f_equal. vm_compute in Hrun. by injection Hrun as _ <-.
Defined.

Lemma prep_qrels_by_name_witness :
  let ds := {| column_names := ["rel"; "image_id"; "source"; "text_id"; "Q0"];
               rows := [[CInt 1; CStr (py "i1"); CStr (py "web");
                         CStr (py "t1"); CStr (py "Q0")]] |} in
  content (prep_qrels (λ _ _, Ok ds) "TREC-AToMiC/AToMiC-Qrels-v0.2" "test"
             encoded).1 (i2t_path "test") = py "i1 Q0 t1 1" ++ [LF]
  ∧ content (prep_qrels (λ _ _, Ok ds) "TREC-AToMiC/AToMiC-Qrels-v0.2" "test"
               encoded).1 (t2i_path "test") = py "1 i1 web t1 Q0" ++ [LF].
Proof.
  intros ds.
  destruct (prep_qrels_by_name (λ _ _, Ok ds)
              "TREC-AToMiC/AToMiC-Qrels-v0.2" "test" encoded ds 1 4 3 0)
    as (fs' & picked & Hrun & Hpicked & Hi2t & Ht2i).
  - vm_compute. exact I.
  - reflexivity.
  - repeat constructor.
  - reflexivity.
  - reflexivity.
  - reflexivity.
  - reflexivity.
  - rewrite Hrun. cbn [fst]. rewrite Hi2t, Ht2i.
    apply Forall2_cons_inv_l in Hpicked
      as (p & ps & (a & b & c & d & Ha & Hb & Hc & Hd & ->) & Hps & ->).
    apply Forall2_nil_inv_l in Hps as ->.
    injection Ha as <-. injection Hb as <-. injection Hc as <-.
    injection Hd as <-. split; vm_compute; reflexivity.
Defined.

Lemma prep_qrels_again_witness :
  let once :=
    (prep_qrels load_dataset "TREC-AToMiC/AToMiC-Qrels-v0.2" "validation"
       encoded).1 in
  prep_qrels load_dataset "TREC-AToMiC/AToMiC-Qrels-v0.2" "validation" once
  = (once, Ok tt).
Proof.
  cbv zeta.
  apply (prep_qrels_again load_dataset "TREC-AToMiC/AToMiC-Qrels-v0.2"
           "validation" encoded).
  - vm_compute. exact I.
  - vm_compute. reflexivity.
Defined.

Lemma search_anserini_footprint_witness :
  searcher_frame idle_indexer
  ∧ (search_anserini path_str idle_indexer (Some "validation") "base" staged).1
    !! "indexes" = staged !! "indexes".
Proof.
  split; [exact idle_searcher_frame|].
  apply (search_anserini_footprint path_str idle_indexer (Some "validation")
           "base" "indexes" staged idle_searcher_frame).
  discriminate.
Defined.

Lemma search_anserini_no_split_witness :
  search_anserini path_str idle_indexer None "small" staged
  = (staged, Raise TypeError)
  ∧ (search_anserini path_str idle_indexer (Some "") "small" staged).2
    ≠ Raise TypeError.
Proof.
  split.
  - exact (proj1 (proj2 (search_anserini_no_split path_str idle_indexer None
                           "small" staged))).
  - intros H.
    apply (proj1 (search_anserini_no_split path_str idle_indexer (Some "")
                    "small" staged)) in H as [_ H].
    discriminate.
Defined.

Lemma search_reads_what_was_built_witness :
  text_indexing_args path_str path_str "small" ".validation" !! 5
  = Some "/data/indexes/lucene-index.atomic.text.flat.small.validation"
  ∧ i2t_search_args path_str "small" ".validation" (Some "validation") !! 1
    = Some "/data/indexes/lucene-index.atomic.text.flat.small.validation"
  ∧ t2i_search_args path_str "small" ".validation" (Some "validation") !! 3
    = Some "/data/text-collection.small.validation/validation.text.search.jsonl".
Proof.
  destruct (search_reads_what_was_built path_str path_str float_repr max_depth (λ _, [])
              "small" "validation" ".validation" eq_refl (or_introl eq_refl))
    as (H1 & _ & H2 & _ & _ & H3 & _).
  rewrite H1, H2, H3. repeat split.
Defined.

Lemma main_never_loads_other_witness :
  main path_str path_str absolute idle_indexer idle_indexer float_repr max_depth
    (λ qrels_ds split,
       if String.eqb split "other" then Raise DatasetError
       else load_dataset qrels_ds split)
    (λ _ _ _ _ _, ret tt) (λ _, [])
    "TREC-AToMiC/AToMiC-Qrels-v0.2" "TREC-AToMiC/AToMiC-Images-v0.2"
    "TREC-AToMiC/AToMiC-Texts-v0.2.1"
  = main path_str path_str absolute idle_indexer idle_indexer float_repr max_depth load_dataset
      (λ _ _ _ _ _, ret tt) (λ _, [])
      "TREC-AToMiC/AToMiC-Qrels-v0.2" "TREC-AToMiC/AToMiC-Images-v0.2"
      "TREC-AToMiC/AToMiC-Texts-v0.2.1".
Proof.
  apply (main_never_loads_other path_str path_str absolute idle_indexer idle_indexer
           float_repr max_depth load_dataset (λ _ _ _ _ _, ret tt) (λ _, [])).
  intros split Hsplit. apply String.eqb_neq in Hsplit. rewrite Hsplit.
  reflexivity.
Defined.

Lemma main_download_failure_stops_witness :
  ∃ fs',
    main path_str path_str absolute idle_indexer idle_indexer float_repr max_depth
      (λ _ _, Raise DatasetError) (λ _ _ _ _ _, ret tt) (λ _, [])
      "TREC-AToMiC/AToMiC-Qrels-v0.2" "TREC-AToMiC/AToMiC-Images-v0.2"
      "TREC-AToMiC/AToMiC-Texts-v0.2.1" encoded
    = (fs', Raise DatasetError)
    ∧ fs' !! "qrels" = Some (EDir ∅)
    ∧ fs' !! "indexes" = None.
Proof.
  destruct (main_download_failure_stops path_str path_str absolute idle_indexer
              idle_indexer float_repr max_depth (λ _ _, Raise DatasetError)
              (λ _ _ _ _ _, ret tt) (λ _, [])
              "TREC-AToMiC/AToMiC-Qrels-v0.2" "TREC-AToMiC/AToMiC-Images-v0.2"
              "TREC-AToMiC/AToMiC-Texts-v0.2.1" encoded DatasetError)
    as (fs' & Hrun & Hq & Hother).
  - vm_compute. discriminate.
  - reflexivity.
  - exists fs'. split; [exact Hrun|]. split; [exact Hq|].
    rewrite Hother; [vm_compute; reflexivity|discriminate].
Defined.

Lemma index_stage_first_run_witness :
  ∃ fs',
    index_stage path_str path_str absolute idle_indexer encoded = (fs', Ok tt)
    ∧ fs' !! "text-collection" = encoded !! "text-collection"
    ∧ listing fs' "text-collection.small.test" !! "test.text.jsonl"
      = Some (Link ("text-collection", "test.text.jsonl"))
    ∧ listing fs' "text-collection.small.test" !! "validation.text.jsonl"
      = None.
Proof.
  destruct (index_stage_first_run path_str path_str absolute idle_indexer idle_frame
              idle_keeps_indexes (λ args fs, eq_refl) encoded)
    as (fs' & Hrun & HT & _ & Hstaged).
  - intros setting split pf Hcall Hpf.
    unfold index_calls in Hcall. rewrite !elem_of_cons in Hcall.
    destruct Hcall as [[= -> ->]|[[= -> ->]|[[= -> ->]|[[= -> ->]|Hnil]]]];
      [..|by apply elem_of_nil in Hnil];
      injection Hpf as <-; split; vm_compute; reflexivity.
  - vm_compute. discriminate.
  - exists fs'. split; [exact Hrun|]. split; [exact HT|].
    destruct (Hstaged "small" (Some "test") ".test"
                ["test.text.jsonl"] ["test.image-caption.jsonl"])
      as [Hl _].
    + right. left.
    + reflexivity.
    + vm_compute. reflexivity.
    + vm_compute. reflexivity.
    + split; [etrans; [exact (Hl "test.text.jsonl")|]
             |etrans; [exact (Hl "validation.text.jsonl")|]];
        vm_compute; reflexivity.
Defined.

End FurtherInstances.
